(** * Submarine mass failure (SMF) initial water displacement

    A shallow embedding of [anuga/shallow_water/smf.py]: the extremum search
    [find_min], the two derivation procedures [slide_tsunami] and
    [slump_tsunami], and the callable class [Double_gaussian].

    Numbers.  A Python float is modelled as a real number: arithmetic is
    exact (rounding is abstracted away), and the places where Python raises
    are kept as they are in the interpreter:
    - [/] raises [ZeroDivisionError] on a zero divisor;
    - [math.sqrt] and [math.log] raise [ValueError] outside their domain;
    - [math.exp], [math.cosh] and [**] raise [OverflowError] when the
      result leaves the range of a 64-bit float ([float_max]);
    - reading a local that was never assigned raises [UnboundLocalError];
    - a failed [assert] raises [AssertionError].
    [+], [-] and [*] never raise in Python, and do not here.  A result that
    rounds to zero (underflow) is rounding like any other, and is not
    modelled.  Numeric arguments are floats, and the text the procedures
    print when [verbose] is set is left out.

    Limits of the model.  The reals have no infinities and no rounding, so
    the model and the interpreter can part in two places, and the
    properties below say where they keep clear of them:
    - a quotient, sum or product whose exact value exceeds [float_max] is an
      infinity in Python, which [**], [math.exp] and [math.cosh] take
      without raising; here it is an ordinary real, and [**] raises on it.
      Statements about what an overflow does are therefore made for
      quotients that are finite floats ([finite_quotients_at]);
    - a comparison that rounding decides can go the other way in the
      interpreter: [deriv <= 0] in [find_min] when [deriv] is exactly zero
      in the reals (the accumulated [x] is then off by some [1e-12]), or
      when an exponential underflows to [0.0].  The search
      [find_min(0, 100, 0.8, 50)] worked out below crosses zero strictly
      between two visited points, and the interpreter stops it at the same
      iteration. *)

From Stdlib Require Import Reals Lra Lia ZArith List Psatz.
From Equations Require Import Equations.
Import ListNotations.
Open Scope R_scope.

(** ** Exceptions and results *)

Inductive exn : Type :=
| ZeroDivisionError
| ValueError
| OverflowError
| UnboundLocalError
| AssertionError.

Inductive result (A : Type) : Type :=
| Ok (a : A)
| Err (e : exn).
Arguments Ok {A} a.
Arguments Err {A} e.

Definition bind {A B : Type} (m : result A) (k : A -> result B) : result B :=
  match m with
  | Ok a => k a
  | Err e => Err e
  end.

Notation "x <- m ;; k" := (bind m (fun x => k))
  (at level 61, m at next level, right associativity).

(** ** Python float primitives *)

(** Largest finite 64-bit float, [(2 - 2^-52) * 2^1023]. *)
Definition float_max_Z : Z := (2 ^ 1024 - 2 ^ 971)%Z.
Definition float_max : R := IZR float_max_Z.

(** A libm result that is out of range raises [OverflowError]. *)
Definition range_checked (v : R) : result R :=
  if Rlt_dec float_max (Rabs v) then Err OverflowError else Ok v.

(** [a / b] on floats. *)
Definition py_div (a b : R) : result R :=
  if Req_dec_T b 0 then Err ZeroDivisionError else Ok (a / b).

(** [x ** y] on floats ([float_pow] of the interpreter). *)
Definition py_pow (x y : R) : result R :=
  if Req_dec_T y 0 then Ok 1
  else if Req_dec_T x 0 then
    (if Rlt_dec y 0 then Err ZeroDivisionError else Ok 0)
  else if Rlt_dec x 0 then
    (if Req_dec_T (frac_part y) 0
     then range_checked (powerRZ x (Int_part y))
     else Err ValueError)
  else range_checked (Rpower x y).

Definition math_pi : R := PI.
Definition math_e : R := exp 1.

Definition math_exp (x : R) : result R := range_checked (exp x).
Definition math_cosh (x : R) : result R := range_checked (cosh x).

Definition math_sqrt (x : R) : result R :=
  if Rlt_dec x 0 then Err ValueError else Ok (sqrt x).

(** One-argument logarithm: domain error on a non-positive argument. *)
Definition math_log1 (x : R) : result R :=
  if Rle_dec x 0 then Err ValueError else Ok (ln x).

(** [math.log(x, base)] is [log(x) / log(base)]. *)
Definition math_log (x base : R) : result R :=
  num <- math_log1 x ;;
  den <- math_log1 base ;;
  py_div num den.

Definition math_radians (x : R) : R := x * (math_pi / 180).
Definition math_sin (x : R) : R := sin x.
Definition math_cos (x : R) : R := cos x.
Definition math_tan (x : R) : R := tan x.

(** ** [find_min] *)

Definition step : R := 0.05.
Definition count_max : Z := 1000000.
Definition f_ystar : R := 1.

(** The expression assigned to [deriv] in the loop body. *)
Definition deriv_expr (x0 wa kappad dx x : R) : result R :=
  q1 <- py_div (x - x0) wa ;;
  s1 <- py_pow q1 2 ;;
  e1 <- math_exp (- s1) ;;
  q2 <- py_div (x - dx - x0) wa ;;
  s2 <- py_pow q2 2 ;;
  e2 <- math_exp (- s2) ;;
  Ok ((x - x0) * e1 - kappad * (x - dx - x0) * e2).

(** The expression assigned to [g_xstar] after the loop. *)
Definition g_expr (x0 wa kappad dx xstar : R) : result R :=
  q1 <- py_div (xstar - x0) wa ;;
  s1 <- py_pow q1 2 ;;
  e1 <- math_exp (- s1) ;;
  q2 <- py_div (xstar - dx - x0) wa ;;
  s2 <- py_pow q2 2 ;;
  e2 <- math_exp (- s2) ;;
  Ok (e1 - kappad * e2).

(** The locals of the loop; [xstar] is unbound until first assigned. *)
Record fm_state : Type := mk_fm_state {
  fm_x : R;
  fm_deriv : R;
  fm_c : Z;
  fm_xstar : option R
}.

(** The cap is only ever compared with the counter, never unfolded. *)
#[global] Opaque count_max.

(** [while c < count_max and deriv > 0: ...] *)
Equations? find_min_loop (x0 wa kappad dx : R) (st : fm_state)
  : result fm_state by wf (Z.to_nat (count_max - fm_c st)) lt :=
  find_min_loop x0 wa kappad dx st with Z_lt_dec (fm_c st) count_max := {
    | right _ := Ok st ;
    | left _ with Rlt_dec 0 (fm_deriv st) := {
      | right _ := Ok st ;
      | left _ with deriv_expr x0 wa kappad dx (fm_x st) := {
        | Err e := Err e ;
        | Ok d :=
            find_min_loop x0 wa kappad dx
              (mk_fm_state (fm_x st - step) d (fm_c st + 1)
                 (if Rle_dec d 0 then Some (fm_x st) else fm_xstar st)) } } }.
Proof. cbn [fm_c]. lia. Qed.

Definition find_min (x0 wa kappad dx : R) : result R :=
  st <- find_min_loop x0 wa kappad dx (mk_fm_state (x0 + 50) 10 0 None) ;;
  xstar <- match fm_xstar st with
           | Some v => Ok v
           | None => Err UnboundLocalError
           end ;;
  g_xstar <- g_expr x0 wa kappad dx xstar ;;
  Ok (g_xstar * f_ystar).

(** ** [Double_gaussian] *)

(** The offset of the second Gaussian,
    [2.0 * (c * sqrt(-log((zsmall/a),e))) / 5.0]; the source writes this
    expression out at each of its four uses. *)
Definition lobe_offset (c a zsmall : R) : result R :=
  q <- py_div zsmall a ;;
  l <- math_log q math_e ;;
  r <- math_sqrt (- l) ;;
  Ok (2.0 * (c * r) / 5.0).

Module Double_gaussian.

Record t : Type := mk {
  a3D : R;
  wavelength : R;
  width : R;
  x0 : R;
  y0 : R;
  alpha : R;
  kappa : R;
  kappad : R;
  scale : R;
  dx : R
}.

(** [__init__]; [dx_arg = None] is the unset offset. *)
Definition init (a3D_arg wavelength_arg width_arg x0_arg y0_arg alpha_arg
                 kappa_arg kappad_arg zsmall : R) (dx_arg : option R)
                (scale_arg : R) : result t :=
  dx_val <- match dx_arg with
            | None => lobe_offset wavelength_arg a3D_arg zsmall
            | Some v => Ok v
            end ;;
  Ok (mk a3D_arg wavelength_arg width_arg x0_arg y0_arg alpha_arg
         kappa_arg kappad_arg scale_arg dx_val).

(** The right-hand side assigned to [z[i]] inside the [try]. *)
Definition element (self : t) (xr_i yr_i : R) : result R :=
  a <- py_div (kappa self * (yr_i - y0 self)) (width self + wavelength self) ;;
  ch <- math_cosh a ;;
  ch2 <- py_pow ch 2 ;;
  q <- py_div (- scale self) ch2 ;;
  q1 <- py_div (xr_i - x0 self) (wavelength self) ;;
  s1 <- py_pow q1 2 ;;
  e1 <- math_exp (- s1) ;;
  q2 <- py_div (xr_i - dx self - x0 self) (wavelength self) ;;
  s2 <- py_pow q2 2 ;;
  e2 <- math_exp (- s2) ;;
  Ok (q * (e1 - kappad self * e2)).

(** The locals the [for] loop updates. *)
Record call_state : Type := mk_call_state {
  z : list R;
  maxz : R;
  minz : R
}.

(** [z[i] = v] on an array of floats. *)
Fixpoint set_item (l : list R) (i : nat) (v : R) : list R :=
  match l, i with
  | [], _ => []
  | _ :: l', O => v :: l'
  | a :: l', S i' => a :: set_item l' i' v
  end.

(** One iteration of [for i in range(N)]: only [OverflowError] is caught. *)
Definition call_body (self : t) (xr yr : list R) (st : call_state) (i : nat)
  : result call_state :=
  match element self (nth i xr 0) (nth i yr 0) with
  | Ok v =>
      let z' := set_item (z st) i v in
      let maxz' := if Rlt_dec (maxz st) (nth i z' 0) then nth i z' 0 else maxz st in
      let minz' := if Rlt_dec (nth i z' 0) (minz st) then nth i z' 0 else minz st in
      Ok (mk_call_state z' maxz' minz')
  | Err OverflowError => Ok st
  | Err e => Err e
  end.

Fixpoint call_loop (self : t) (xr yr : list R) (st : call_state)
                   (range : list nat) : result call_state :=
  match range with
  | [] => Ok st
  | i :: rest =>
      st' <- call_body self xr yr st i ;;
      call_loop self xr yr st' rest
  end.

(** Element-wise array arithmetic of equal-length arrays. *)
Definition array_map2 (f : R -> R -> R) (x y : list R) : list R :=
  map (fun p => f (fst p) (snd p)) (combine x y).

(** [__call__] *)
Definition call (self : t) (x y : list R) : result (list R) :=
  let N := length x in
  if Nat.eq_dec N (length y) then
    let cosa := math_cos (math_radians (alpha self)) in
    let sina := math_sin (math_radians (alpha self)) in
    let xr := array_map2 (fun xi yi =>
                ((xi - x0 self) * cosa - (yi - y0 self) * sina) + x0 self) x y in
    let yr := array_map2 (fun xi yi =>
                ((xi - x0 self) * sina + (yi - y0 self) * cosa) + y0 self) x y in
    st <- call_loop self xr yr (mk_call_state (repeat 0 N) 0 0) (seq 0 N) ;;
    Ok (z st)
  else Err AssertionError.

(** [determineDX]: the value returned and the object after the call. *)
Definition determineDX (self : t) (zsmall : R) : result (R * t) :=
  let a := a3D self in
  let c := wavelength self in
  dx' <- lobe_offset c a zsmall ;;
  let self' := mk (a3D self) (wavelength self) (width self) (x0 self)
                  (y0 self) (alpha self) (kappa self) (kappad self)
                  (scale self) dx' in
  Ok (dx', self').

End Double_gaussian.

(** ** The derivation procedures *)

(** What the procedures read of [domain]: the lower-left corner of its
    georeference. *)
Record geo_reference : Type := mk_geo_reference {
  xllcorner : R;
  yllcorner : R
}.

Module Slide.

(** The arguments of [slide_tsunami]; [None] is an argument left unset. *)
Record args : Type := mk_args {
  length : R;
  depth : R;
  slope : R;
  width : option R;
  thickness : option R;
  x0 : R;
  y0 : R;
  alpha : R;
  gravity : R;
  gamma : R;
  massco : R;
  dragco : R;
  frictionco : R;
  psi : R;
  dx : option R;
  kappa : R;
  kappad : R;
  zsmall : R;
  scale : option R;
  domain : option geo_reference;
  verbose : bool
}.

(** The call [slide_tsunami(length, depth, slope)] with every default. *)
Definition defaults (length_arg depth_arg slope_arg : R) : args :=
  mk_args length_arg depth_arg slope_arg None None 0.0 0.0 0.0 9.8 1.85
          1 1 0 0 None 3.0 0.8 0.01 None None false.

Definition x0_rel (a : args) : R :=
  match domain a with
  | Some g => x0 a - xllcorner g
  | None => x0 a
  end.

Definition y0_rel (a : args) : R :=
  match domain a with
  | Some g => y0 a - yllcorner g
  | None => y0 a
  end.

Definition width_val (a : args) : R :=
  match width a with
  | None => 0.25 * length a
  | Some v => v
  end.

Definition thickness_val (a : args) : R :=
  match thickness a with
  | None => 0.01 * length a
  | Some v => v
  end.

Definition sint (a : args) : R := math_sin (math_radians (slope a)).
Definition tant (a : args) : R := math_tan (math_radians (slope a)).
Definition tanp (a : args) : R := math_tan (math_radians (psi a)).

(** [a0 = gravity * sint * ((gamma-1)/(gamma+massco)) * (1-(tanp/tant))] *)
Definition a0 (a : args) : result R :=
  r1 <- py_div (gamma a - 1) (gamma a + massco a) ;;
  r2 <- py_div (tanp a) (tant a) ;;
  Ok (gravity a * sint a * r1 * (1 - r2)).

(** [ut = sqrt((gravity*depth) * (length*sint/depth)
               * (pi*(gamma-1)/(2*dragco)) * (1-(tanp/tant)))] *)
Definition ut (a : args) : result R :=
  r1 <- py_div (length a * sint a) (depth a) ;;
  r2 <- py_div (math_pi * (gamma a - 1)) (2 * dragco a) ;;
  r3 <- py_div (tanp a) (tant a) ;;
  math_sqrt ((gravity a * depth a) * r1 * r2 * (1 - r3)).

(** The calculated parameters of the slide and of its tsunami. *)
Record derived : Type := mk_derived {
  d_a0 : R;
  d_ut : R;
  d_s0 : R;
  d_t0 : R;
  d_w : R;
  d_a2D : R;
  d_a3D : R
}.

Definition derive (a : args) : result derived :=
  a0_v <- a0 a ;;
  ut_v <- ut a ;;
  ut2 <- py_pow ut_v 2 ;;
  s0 <- py_div ut2 a0_v ;;
  t0 <- py_div ut_v a0_v ;;
  rgd <- math_sqrt (gravity a * depth a) ;;
  let w := t0 * rgd in
  r1 <- py_div (thickness_val a) (length a) ;;
  r2 <- py_div (length a * sint a) (depth a) ;;
  p2 <- py_pow r2 1.25 ;;
  e <- math_exp (- 2.2 * (gamma a - 1)) ;;
  let a2D := s0 * (0.0574 - (0.0431 * sint a)) * r1 * p2 * (1 - e) in
  r3 <- py_div (depth a) (length a * sint a) ;;
  r4 <- math_sqrt r3 ;;
  a3D <- py_div a2D (1 + (15.5 * r4)) ;;
  Ok (mk_derived a0_v ut_v s0 t0 w a2D a3D).

(** The advisory range checks: they only print, but they divide. *)
Definition range_checks (a : args) : result unit :=
  _ <- py_div (depth a) (length a) ;;
  _ <- py_div (thickness_val a) (length a) ;;
  Ok tt.

(** The same call with other [dx] and [frictionco] arguments. *)
Definition with_dx_frictionco (a : args) (dx_arg : option R) (frictionco_arg : R)
  : args :=
  mk_args (length a) (depth a) (slope a) (width a) (thickness a) (x0 a) (y0 a)
          (alpha a) (gravity a) (gamma a) (massco a) (dragco a) frictionco_arg
          (psi a) dx_arg (kappa a) (kappad a) (zsmall a) (scale a) (domain a)
          (verbose a).

End Slide.

Definition slide_tsunami (a : Slide.args) : result Double_gaussian.t :=
  let x0 := Slide.x0_rel a in
  let y0 := Slide.y0_rel a in
  let width := Slide.width_val a in
  d <- Slide.derive a ;;
  let w := Slide.d_w d in
  let a3D := Slide.d_a3D d in
  dx <- lobe_offset w a3D (Slide.zsmall a) ;;
  nmin <- find_min x0 w (Slide.kappad a) dx ;;
  scale <- match Slide.scale a with
           | None => py_div a3D nmin
           | Some v => Ok v
           end ;;
  _ <- Slide.range_checks a ;;
  Double_gaussian.init a3D w width x0 y0 (Slide.alpha a) (Slide.kappa a)
    (Slide.kappad a) (Slide.zsmall a) (Some dx) scale.

Module Slump.

(** The arguments of [slump_tsunami]; [None] is an argument left unset. *)
Record args : Type := mk_args {
  length : R;
  depth : R;
  slope : R;
  width : option R;
  thickness : option R;
  radius : option R;
  dphi : R;
  x0 : R;
  y0 : R;
  alpha : R;
  gravity : R;
  gamma : R;
  massco : R;
  dragco : R;
  frictionco : R;
  dx : option R;
  kappa : R;
  kappad : R;
  zsmall : R;
  scale : option R;
  domain : option geo_reference;
  verbose : bool
}.

(** The call [slump_tsunami(length, depth, slope)] with every default. *)
Definition defaults (length_arg depth_arg slope_arg : R) : args :=
  mk_args length_arg depth_arg slope_arg None None None 0.48 0.0 0.0 0.0
          9.8 1.85 1 1 0 None 3.0 1.0 0.01 None None false.

Definition x0_rel (a : args) : R :=
  match domain a with
  | Some g => x0 a - xllcorner g
  | None => x0 a
  end.

Definition y0_rel (a : args) : R :=
  match domain a with
  | Some g => y0 a - yllcorner g
  | None => y0 a
  end.

Definition width_val (a : args) : R :=
  match width a with
  | None => length a
  | Some v => v
  end.

Definition thickness_val (a : args) : R :=
  match thickness a with
  | None => 0.1 * length a
  | Some v => v
  end.

(** [radius = length**2 / (8.0 * thickness)] when unset. *)
Definition radius_val (a : args) : result R :=
  match radius a with
  | None =>
      l2 <- py_pow (length a) 2 ;;
      py_div l2 (8.0 * thickness_val a)
  | Some v => Ok v
  end.

Definition sint (a : args) : R := math_sin (math_radians (slope a)).

(** The calculated parameters of the slump and of its tsunami. *)
Record derived : Type := mk_derived {
  d_radius : R;
  d_s0 : R;
  d_t0 : R;
  d_a0 : R;
  d_um : R;
  d_w : R;
  d_a2D : R;
  d_a3D : R
}.

Definition derive (a : args) : result derived :=
  radius_v <- radius_val a ;;
  let s0 := radius_v * dphi a / 2 in
  q <- py_div (radius_v * (gamma a + massco a)) (gravity a * (gamma a - 1)) ;;
  t0 <- math_sqrt q ;;
  t02 <- py_pow t0 2 ;;
  a0 <- py_div s0 t02 ;;
  um <- py_div s0 t0 ;;
  rgd <- math_sqrt (gravity a * depth a) ;;
  let w := t0 * rgd in
  r0 <- py_div 0.131 (sint a) ;;
  r1 <- py_div (thickness_val a) (length a) ;;
  r2 <- py_div (length a * sint a) (depth a) ;;
  p2 <- py_pow r2 1.25 ;;
  r3 <- py_div (length a) radius_v ;;
  p3 <- py_pow r3 0.63 ;;
  p4 <- py_pow (dphi a) 0.39 ;;
  let a2D := s0 * r0 * r1 * p2 * p3 * p4
             * (1.47 - (0.35 * (gamma a - 1))) * (gamma a - 1) in
  r5 <- py_div (depth a) (length a) ;;
  r6 <- math_sqrt r5 ;;
  a3D <- py_div a2D (1 + (2.06 * r6)) ;;
  Ok (mk_derived radius_v s0 t0 a0 um w a2D a3D).

(** The advisory range checks: they only print, but they divide. *)
Definition range_checks (a : args) (radius_v : R) : result unit :=
  _ <- py_div (depth a) (length a) ;;
  _ <- py_div (thickness_val a) (length a) ;;
  _ <- py_div radius_v (length a) ;;
  Ok tt.

(** The same call with other [dx] and [frictionco] arguments. *)
Definition with_dx_frictionco (a : args) (dx_arg : option R) (frictionco_arg : R)
  : args :=
  mk_args (length a) (depth a) (slope a) (width a) (thickness a) (radius a)
          (dphi a) (x0 a) (y0 a) (alpha a) (gravity a) (gamma a) (massco a)
          (dragco a) frictionco_arg dx_arg (kappa a) (kappad a) (zsmall a)
          (scale a) (domain a) (verbose a).

End Slump.

Definition slump_tsunami (a : Slump.args) : result Double_gaussian.t :=
  let x0 := Slump.x0_rel a in
  let y0 := Slump.y0_rel a in
  let width := Slump.width_val a in
  d <- Slump.derive a ;;
  let w := Slump.d_w d in
  let a3D := Slump.d_a3D d in
  dx <- lobe_offset w a3D (Slump.zsmall a) ;;
  nmin <- find_min x0 w (Slump.kappad a) dx ;;
  scale <- match Slump.scale a with
           | None => py_div a3D nmin
           | Some v => Ok v
           end ;;
  _ <- Slump.range_checks a (Slump.d_radius d) ;;
  Double_gaussian.init a3D w width x0 y0 (Slump.alpha a) (Slump.kappa a)
    (Slump.kappad a) (Slump.zsmall a) (Some dx) scale.

(** ** The closed forms the specification is stated with *)

(** The un-scaled shape function
    [g(x) = exp(-((x-x0)/wa)^2) - kappad*exp(-((x-dx-x0)/wa)^2)]. *)
Definition g_shape (x0 wa kappad dx x : R) : R :=
  exp (- ((x - x0) / wa) ^ 2) - kappad * exp (- ((x - dx - x0) / wa) ^ 2).

(** The quantity the search calls [deriv]; it is [-(wa^2/2) * g'(x)], so
    its sign is opposite to that of the slope of [g]. *)
Definition deriv_val (x0 wa kappad dx x : R) : R :=
  (x - x0) * exp (- ((x - x0) / wa) ^ 2)
  - kappad * (x - dx - x0) * exp (- ((x - dx - x0) / wa) ^ 2).

(** The point the search visits at iteration [k] (counting from 0). *)
Definition x_at (x0 : R) (k : nat) : R := x0 + 50 - IZR (Z.of_nat k) * step.

(** No division by zero and no overflow in evaluating [deriv] or [g] at [x]. *)
Definition arith_ok (x0 wa dx x : R) : Prop :=
  wa <> 0 /\ ((x - x0) / wa) ^ 2 <= float_max
  /\ ((x - dx - x0) / wa) ^ 2 <= float_max.

(** [dx = 0.4 * wavelength * sqrt(-ln(zsmall/a3D))]. *)
Definition dx_formula (wavelength a3D zsmall : R) : R :=
  0.4 * wavelength * sqrt (- ln (zsmall / a3D)).

(** The domain of the offset formula. *)
Definition dx_precondition (a3D zsmall : R) : Prop :=
  a3D <> 0 /\ 0 < zsmall / a3D <= 1.

(** Rotation of the point [p] about [c] by [theta] degrees, in the usual
    sense: anti-clockwise for a positive [theta]. *)
Definition rotate (theta : R) (c p : R * R) : R * R :=
  let co := cos (theta * (PI / 180)) in
  let si := sin (theta * (PI / 180)) in
  (fst c + ((fst p - fst c) * co - (snd p - snd c) * si),
   snd c + ((fst p - fst c) * si + (snd p - snd c) * co)).

(** Rotation by [theta] degrees in the sense in which the source measures
    [alpha]: clockwise for a positive [theta] (the comment of [__call__]
    takes the displacement at the angle [alpha] clockwise from the
    east-west direction, and rotates the coordinates anti-clockwise by
    [alpha]). *)
Definition rotate_clockwise (theta : R) (c p : R * R) : R * R :=
  rotate (- theta) c p.

(** The displacement in the failure's own east-west frame, at the rotated
    coordinates [(xr, yr)]. *)
Definition surface_native (self : Double_gaussian.t) (xr yr : R) : R :=
  - Double_gaussian.scale self
    / cosh (Double_gaussian.kappa self * (yr - Double_gaussian.y0 self)
            / (Double_gaussian.width self + Double_gaussian.wavelength self)) ^ 2
  * (exp (- ((xr - Double_gaussian.x0 self) / Double_gaussian.wavelength self) ^ 2)
     - Double_gaussian.kappad self
       * exp (- ((xr - Double_gaussian.dx self - Double_gaussian.x0 self)
                 / Double_gaussian.wavelength self) ^ 2)).

(** The cosh-squared factor or the argument of an exponential leaves the
    float range at the rotated coordinates [(xr, yr)]. *)
Definition overflow_native (self : Double_gaussian.t) (xr yr : R) : Prop :=
  float_max
    < cosh (Double_gaussian.kappa self * (yr - Double_gaussian.y0 self)
            / (Double_gaussian.width self + Double_gaussian.wavelength self)) ^ 2
  \/ float_max
     < ((xr - Double_gaussian.x0 self) / Double_gaussian.wavelength self) ^ 2
  \/ float_max
     < ((xr - Double_gaussian.dx self - Double_gaussian.x0 self)
        / Double_gaussian.wavelength self) ^ 2.

(** The point [p] in the failure's frame: rotated anti-clockwise by [alpha]
    about [(x0, y0)]. *)
Definition to_native (self : Double_gaussian.t) (p : R * R) : R * R :=
  rotate (Double_gaussian.alpha self)
    (Double_gaussian.x0 self, Double_gaussian.y0 self) p.

(** The displacement surface of the evaluator at the point [p]. *)
Definition surface (self : Double_gaussian.t) (p : R * R) : R :=
  surface_native self (fst (to_native self p)) (snd (to_native self p)).

(** Evaluating the surface at [p] overflows. *)
Definition overflow_at (self : Double_gaussian.t) (p : R * R) : Prop :=
  overflow_native self (fst (to_native self p)) (snd (to_native self p)).

(** The three quotients of the element expression at the rotated coordinates
    [(xr, yr)] are finite floats: the argument of [cosh] and the two numbers
    squared under the exponentials.  Python's [/] does not raise on a
    quotient beyond the float range, it returns an infinity. *)
Definition finite_quotients_native (self : Double_gaussian.t) (xr yr : R)
  : Prop :=
  Rabs (Double_gaussian.kappa self * (yr - Double_gaussian.y0 self)
        / (Double_gaussian.width self + Double_gaussian.wavelength self))
  <= float_max
  /\ Rabs ((xr - Double_gaussian.x0 self) / Double_gaussian.wavelength self)
     <= float_max
  /\ Rabs ((xr - Double_gaussian.dx self - Double_gaussian.x0 self)
           / Double_gaussian.wavelength self)
     <= float_max.

Definition finite_quotients_at (self : Double_gaussian.t) (p : R * R) : Prop :=
  finite_quotients_native self (fst (to_native self p)) (snd (to_native self p)).

(** The value [__call__] leaves at a point: the element expression in the
    rotated frame, or the initial [0] when it raised. *)
Definition value_at (self : Double_gaussian.t) (p : R * R) : R :=
  match Double_gaussian.element self (fst (to_native self p))
          (snd (to_native self p)) with
  | Ok v => v
  | Err _ => 0
  end.

(** The same evaluator with another orientation. *)
Definition with_alpha (self : Double_gaussian.t) (a : R) : Double_gaussian.t :=
  Double_gaussian.mk (Double_gaussian.a3D self) (Double_gaussian.wavelength self)
    (Double_gaussian.width self) (Double_gaussian.x0 self)
    (Double_gaussian.y0 self) a (Double_gaussian.kappa self)
    (Double_gaussian.kappad self) (Double_gaussian.scale self)
    (Double_gaussian.dx self).

(** The numeric-domain errors: division by zero, and a [math] function
    applied outside its domain. *)
Definition numeric_domain_error (e : exn) : Prop :=
  e = ZeroDivisionError \/ e = ValueError.

(** The evaluator [dg] is the one a derivation procedure builds from the
    amplitude [a3D_v] and wavelength [w]: its offset and scale come from
    [lobe_offset] and [find_min], and, when the scale was left unset, it
    takes the value [-a3D_v] at the point whose rotated coordinates are
    [(xstar, y0)] (the image of [(xstar, y0)] under the rotation by
    [-alpha]), [xstar] being where the search stopped. *)
Definition calibrated (scale_arg : option R)
           (a3D_v w x0_v kappad_v zsmall_v : R) (dg : Double_gaussian.t) : Prop :=
  exists dx_v nmin,
    lobe_offset w a3D_v zsmall_v = Ok dx_v
    /\ find_min x0_v w kappad_v dx_v = Ok nmin
    /\ Double_gaussian.a3D dg = a3D_v
    /\ Double_gaussian.wavelength dg = w
    /\ Double_gaussian.dx dg = dx_v
    /\ Double_gaussian.scale dg
       = match scale_arg with None => a3D_v / nmin | Some v => v end
    /\ (scale_arg = None ->
        Double_gaussian.width dg + Double_gaussian.wavelength dg <> 0 ->
        exists xstar,
          nmin = g_shape x0_v w kappad_v dx_v xstar
          /\ Double_gaussian.call dg
               [fst (rotate (- Double_gaussian.alpha dg)
                       (Double_gaussian.x0 dg, Double_gaussian.y0 dg)
                       (xstar, Double_gaussian.y0 dg))]
               [snd (rotate (- Double_gaussian.alpha dg)
                       (Double_gaussian.x0 dg, Double_gaussian.y0 dg)
                       (xstar, Double_gaussian.y0 dg))]
             = Ok [- a3D_v]).

(** ** Inputs used as examples *)

(** An evaluator of unit scale and wavelength at the origin, one lobe. *)
Definition unit_evaluator : Double_gaussian.t :=
  Double_gaussian.mk 1 1 0 0 0 0 1 0 1 0.

(** A short, steep slump on which every derived quantity is a decimal: the
    amplitude is [a3D = 0.07336] and the wavelength [19.6]; [zsmall] is just
    below the amplitude, so the offset [dx] is small, and [kappad = 2]. *)
Definition steep_slump : Slump.args :=
  Slump.mk_args 9.8 9.8 90 None (Some 3.06) (Some 9.8) 1 0 0 0 9.8 2 2 1 0
                None 3 2 0.0733 None None false.

(** The offset, the extremum and the evaluator [slump_tsunami] computes for
    [steep_slump]. *)
Definition steep_slump_dx : R := dx_formula 19.6 0.07336 0.0733.

Definition steep_slump_nmin : R := g_shape 0 19.6 2 steep_slump_dx (x_at 0 0).

Definition steep_slump_evaluator : Double_gaussian.t :=
  Double_gaussian.mk 0.07336 19.6 9.8 0 0 0 3 2 (0.07336 / steep_slump_nmin)
    steep_slump_dx.

(** An evaluator whose second lobe sits one wavelength east of the first. *)
Definition offset_evaluator : Double_gaussian.t :=
  Double_gaussian.mk 1 1 0 0 0 0 1 1 1 1.

(** The slide of length 1000 on a 30 degree slope, at the depth where
    [length*sin(slope)/depth = 1], with a single lobe ([kappad = 0]); every
    other argument has its default value. *)
Definition single_lobe_slide : Slide.args :=
  Slide.mk_args 1000 500 30 None None 0 0 0 9.8 1.85 1 1 0 0 None 3 0
                0.01 None None false.

(** Two evaluators with a zero divisor: one of wavelength [0] (and width
    [1]), one whose width is the opposite of its wavelength. *)
Definition zero_wavelength_evaluator : Double_gaussian.t :=
  Double_gaussian.mk 1 0 1 0 0 0 1 0 1 0.

Definition zero_sum_evaluator : Double_gaussian.t :=
  Double_gaussian.mk 1 2 (-2) 0 0 0 1 0 1 0.

(** ** Decimal arithmetic for the examples *)

(** Fixed-point squaring with 15 decimal digits, rounded down and up; it
    bounds [exp] at the decimals the examples need. *)
Definition fixed_one : Z := 1000000000000000.
Definition square_down (a : Z) : Z := (a * a / fixed_one)%Z.
Definition square_up (a : Z) : Z := ((a * a + fixed_one - 1) / fixed_one)%Z.

(** ** Sequencing and variants used to state further properties *)

(** A fallible function applied to the elements of a list from left to
    right; the first error ends the traversal. *)
Fixpoint traverse {A B : Type} (f : A -> result B) (l : list A)
  : result (list B) :=
  match l with
  | [] => Ok []
  | a :: l' => b <- f a ;; bs <- traverse f l' ;; Ok (b :: bs)
  end.

(** What one iteration of the loop of [__call__] leaves in [z] for the point
    [p]: the element expression at the rotated coordinates, [0] when it
    raised [OverflowError]; any other exception propagates. *)
Definition point_value (self : Double_gaussian.t) (p : R * R) : result R :=
  match Double_gaussian.element self (fst (to_native self p))
          (snd (to_native self p)) with
  | Ok v => Ok v
  | Err OverflowError => Ok 0
  | Err e => Err e
  end.

(** The exceptions of arithmetic: a zero divisor, a [math] function or a
    power outside its domain, a result out of range. *)
Definition arithmetic_error (e : exn) : Prop :=
  e = ZeroDivisionError \/ e = ValueError \/ e = OverflowError.

(** The locals of the search moved by [t] along the x axis. *)
Definition shift_state (t : R) (st : fm_state) : fm_state :=
  mk_fm_state (fm_x st + t) (fm_deriv st) (fm_c st)
    (match fm_xstar st with Some v => Some (v + t) | None => None end).

(** The point reached from [(x0, y0)] by going [u] along the axis of the
    failure and [v] across it: the point whose rotated coordinates are
    [(x0 + u, y0 + v)]. *)
Definition axis_point (self : Double_gaussian.t) (u v : R) : R * R :=
  rotate (- Double_gaussian.alpha self)
    (Double_gaussian.x0 self, Double_gaussian.y0 self)
    (Double_gaussian.x0 self + u, Double_gaussian.y0 self + v).

(** The same evaluator with its origin moved by [(- tx, - ty)]. *)
Definition with_origin_shift (self : Double_gaussian.t) (tx ty : R)
  : Double_gaussian.t :=
  Double_gaussian.mk (Double_gaussian.a3D self) (Double_gaussian.wavelength self)
    (Double_gaussian.width self) (Double_gaussian.x0 self - tx)
    (Double_gaussian.y0 self - ty) (Double_gaussian.alpha self)
    (Double_gaussian.kappa self) (Double_gaussian.kappad self)
    (Double_gaussian.scale self) (Double_gaussian.dx self).

(** The same evaluator with another scale. *)
Definition with_scale (self : Double_gaussian.t) (s : R) : Double_gaussian.t :=
  Double_gaussian.mk (Double_gaussian.a3D self) (Double_gaussian.wavelength self)
    (Double_gaussian.width self) (Double_gaussian.x0 self)
    (Double_gaussian.y0 self) (Double_gaussian.alpha self)
    (Double_gaussian.kappa self) (Double_gaussian.kappad self) s
    (Double_gaussian.dx self).

(** The call of [slide_tsunami] with other [gravity], [scale] and [domain]
    arguments. *)
Definition slide_with_gravity (a : Slide.args) (g : R) : Slide.args :=
  Slide.mk_args (Slide.length a) (Slide.depth a) (Slide.slope a)
    (Slide.width a) (Slide.thickness a) (Slide.x0 a) (Slide.y0 a)
    (Slide.alpha a) g (Slide.gamma a) (Slide.massco a) (Slide.dragco a)
    (Slide.frictionco a) (Slide.psi a) (Slide.dx a) (Slide.kappa a)
    (Slide.kappad a) (Slide.zsmall a) (Slide.scale a) (Slide.domain a)
    (Slide.verbose a).

Definition slide_with_scale (a : Slide.args) (s : option R) : Slide.args :=
  Slide.mk_args (Slide.length a) (Slide.depth a) (Slide.slope a)
    (Slide.width a) (Slide.thickness a) (Slide.x0 a) (Slide.y0 a)
    (Slide.alpha a) (Slide.gravity a) (Slide.gamma a) (Slide.massco a)
    (Slide.dragco a) (Slide.frictionco a) (Slide.psi a) (Slide.dx a)
    (Slide.kappa a) (Slide.kappad a) (Slide.zsmall a) s (Slide.domain a)
    (Slide.verbose a).

Definition slide_with_domain (a : Slide.args) (d : option geo_reference)
  : Slide.args :=
  Slide.mk_args (Slide.length a) (Slide.depth a) (Slide.slope a)
    (Slide.width a) (Slide.thickness a) (Slide.x0 a) (Slide.y0 a)
    (Slide.alpha a) (Slide.gravity a) (Slide.gamma a) (Slide.massco a)
    (Slide.dragco a) (Slide.frictionco a) (Slide.psi a) (Slide.dx a)
    (Slide.kappa a) (Slide.kappad a) (Slide.zsmall a) (Slide.scale a) d
    (Slide.verbose a).

(** The call of [slump_tsunami] with other [gravity], [scale] and [domain]
    arguments. *)
Definition slump_with_gravity (a : Slump.args) (g : R) : Slump.args :=
  Slump.mk_args (Slump.length a) (Slump.depth a) (Slump.slope a)
    (Slump.width a) (Slump.thickness a) (Slump.radius a) (Slump.dphi a)
    (Slump.x0 a) (Slump.y0 a) (Slump.alpha a) g (Slump.gamma a)
    (Slump.massco a) (Slump.dragco a) (Slump.frictionco a) (Slump.dx a)
    (Slump.kappa a) (Slump.kappad a) (Slump.zsmall a) (Slump.scale a)
    (Slump.domain a) (Slump.verbose a).

Definition slump_with_scale (a : Slump.args) (s : option R) : Slump.args :=
  Slump.mk_args (Slump.length a) (Slump.depth a) (Slump.slope a)
    (Slump.width a) (Slump.thickness a) (Slump.radius a) (Slump.dphi a)
    (Slump.x0 a) (Slump.y0 a) (Slump.alpha a) (Slump.gravity a)
    (Slump.gamma a) (Slump.massco a) (Slump.dragco a) (Slump.frictionco a)
    (Slump.dx a) (Slump.kappa a) (Slump.kappad a) (Slump.zsmall a) s
    (Slump.domain a) (Slump.verbose a).

Definition slump_with_domain (a : Slump.args) (d : option geo_reference)
  : Slump.args :=
  Slump.mk_args (Slump.length a) (Slump.depth a) (Slump.slope a)
    (Slump.width a) (Slump.thickness a) (Slump.radius a) (Slump.dphi a)
    (Slump.x0 a) (Slump.y0 a) (Slump.alpha a) (Slump.gravity a)
    (Slump.gamma a) (Slump.massco a) (Slump.dragco a) (Slump.frictionco a)
    (Slump.dx a) (Slump.kappa a) (Slump.kappad a) (Slump.zsmall a)
    (Slump.scale a) d (Slump.verbose a).

(** * Properties *)

(** Decimal literals are rationals injected into the reals; [field] wants
    them as quotients of integers. *)
Ltac decimal_field :=
  unfold Q2R; cbn [QArith_base.Qnum QArith_base.Qden]; field.

(** ** The float primitives *)

Lemma float_max_lower : 1000000000000 <= float_max.
Proof. unfold float_max. apply IZR_le. vm_compute. discriminate. Qed.

Lemma range_checked_ok (v : R) :
  Rabs v <= float_max -> range_checked v = Ok v.
Proof.
  intros H. unfold range_checked.
  destruct (Rlt_dec float_max (Rabs v)); [lra | reflexivity].
Qed.

Lemma range_checked_overflow (v : R) :
  float_max < Rabs v -> range_checked v = Err OverflowError.
Proof.
  intros H. unfold range_checked.
  destruct (Rlt_dec float_max (Rabs v)); [reflexivity | contradiction].
Qed.

Lemma range_checked_unit (v : R) :
  0 <= v <= 1 -> range_checked v = Ok v.
Proof.
  intros H. apply range_checked_ok. rewrite Rabs_pos_eq by lra.
  pose proof float_max_lower. lra.
Qed.

Lemma exp_neg_bound (t : R) : 0 <= t -> 0 < exp (- t) <= / (1 + t).
Proof.
  intros Ht. split; [apply exp_pos |].
  rewrite exp_Ropp. apply Rinv_le_contravar; [lra | apply exp_ineq1_le].
Qed.

Lemma ln_le_minus_1 (x : R) : 0 < x -> ln x <= x - 1.
Proof.
  intros Hx. pose proof (exp_ineq1_le (ln x)) as H.
  rewrite exp_ln in H by exact Hx. lra.
Qed.

Lemma py_div_ok (a b : R) : b <> 0 -> py_div a b = Ok (a / b).
Proof.
  intros H. unfold py_div. destruct (Req_dec_T b 0); [contradiction | reflexivity].
Qed.

Lemma py_div_zero (a : R) : py_div a 0 = Err ZeroDivisionError.
Proof.
  unfold py_div. destruct (Req_dec_T 0 0); [reflexivity | contradiction].
Qed.

Lemma py_div_inv (a b v : R) : py_div a b = Ok v -> b <> 0 /\ v = a / b.
Proof.
  unfold py_div. destruct (Req_dec_T b 0); [discriminate |].
  intros H. injection H as <-. auto.
Qed.

Lemma frac_part_IZR (k : Z) : frac_part (IZR k) = 0.
Proof.
  destruct (Int_part_frac_part_spec (IZR k) k 0) as [_ H]; [lra | lra | auto].
Qed.

Lemma Int_part_IZR (k : Z) : Int_part (IZR k) = k.
Proof.
  destruct (Int_part_frac_part_spec (IZR k) k 0) as [H _]; [lra | lra | auto].
Qed.

(** [x ** 2] is the square, range checked. *)
Lemma py_pow_2 (x : R) : py_pow x 2 = range_checked (x * x).
Proof.
  unfold py_pow.
  destruct (Req_dec_T 2 0) as [H | _]; [lra |].
  destruct (Req_dec_T x 0) as [-> | Hx].
  - destruct (Rlt_dec 2 0); [lra |].
    rewrite Rmult_0_l. symmetry. apply range_checked_unit. lra.
  - destruct (Rlt_dec x 0) as [Hneg | Hpos].
    + rewrite frac_part_IZR, Int_part_IZR.
      destruct (Req_dec_T 0 0); [| contradiction].
      f_equal. simpl. ring.
    + f_equal. change 2 with (INR 2). rewrite Rpower_pow by lra. simpl. ring.
Qed.

Lemma py_pow_one (y : R) : py_pow 1 y = Ok 1.
Proof.
  unfold py_pow.
  destruct (Req_dec_T y 0); [reflexivity |].
  destruct (Req_dec_T 1 0); [lra |].
  destruct (Rlt_dec 1 0); [lra |].
  unfold Rpower. rewrite ln_1, Rmult_0_r, exp_0.
  apply range_checked_unit. lra.
Qed.

Lemma math_exp_nonpos (x : R) : x <= 0 -> math_exp x = Ok (exp x).
Proof.
  intros H. apply range_checked_unit. split.
  - left. apply exp_pos.
  - rewrite <- exp_0. destruct H as [H | ->]; [left; apply exp_increasing; exact H | right; reflexivity].
Qed.

Lemma math_sqrt_ok (x : R) : 0 <= x -> math_sqrt x = Ok (sqrt x).
Proof.
  intros H. unfold math_sqrt. destruct (Rlt_dec x 0); [lra | reflexivity].
Qed.

Lemma math_sqrt_neg (x : R) : x < 0 -> math_sqrt x = Err ValueError.
Proof.
  intros H. unfold math_sqrt. destruct (Rlt_dec x 0); [reflexivity | contradiction].
Qed.

Lemma math_log_e (x : R) : 0 < x -> math_log x math_e = Ok (ln x).
Proof.
  intros H. unfold math_log, math_log1, math_e.
  destruct (Rle_dec x 0); [lra |]. cbn.
  destruct (Rle_dec (exp 1) 0) as [He |_]; [pose proof (exp_pos 1); lra |]. cbn.
  rewrite ln_exp, py_div_ok by lra. f_equal. field.
Qed.

Lemma math_log_nonpos (x base : R) : x <= 0 -> math_log x base = Err ValueError.
Proof.
  intros H. unfold math_log, math_log1.
  destruct (Rle_dec x 0); [reflexivity | contradiction].
Qed.

(** ** Decimal bounds on [exp] by repeated squaring *)

Lemma fixed_one_pos : 0 < IZR fixed_one.
Proof. apply IZR_lt. reflexivity. Qed.

Lemma exp_double (y : R) : exp (2 * y) = exp y * exp y.
Proof. replace (2 * y) with (y + y) by ring. apply exp_plus. Qed.

Lemma square_down_bound (a : Z) (y : R) :
  (0 <= a)%Z -> IZR a / IZR fixed_one <= exp y ->
  (0 <= square_down a)%Z /\ IZR (square_down a) / IZR fixed_one <= exp (2 * y).
Proof.
  intros Ha H. pose proof fixed_one_pos as Hs.
  assert (Hq : (fixed_one * square_down a <= a * a)%Z)
    by (unfold square_down; apply Z.mul_div_le; reflexivity).
  split; [unfold square_down; apply Z.div_pos; [nia | reflexivity] |].
  apply IZR_le in Hq. rewrite !mult_IZR in Hq.
  assert (Ha' : 0 <= IZR a) by (apply IZR_le; exact Ha).
  rewrite exp_double.
  set (s := IZR fixed_one) in *. set (D := IZR (square_down a)) in *.
  assert (Ht : IZR a = IZR a / s * s) by (field; lra).
  assert (Ht0 : 0 <= IZR a / s) by (apply Rmult_le_pos; [exact Ha' | left; apply Rinv_0_lt_compat; lra]).
  set (t := IZR a / s) in *.
  assert (HD : D <= t * t * s).
  { apply (Rmult_le_reg_l s); [lra |]. rewrite Ht in Hq. nra. }
  apply Rle_trans with (t * t); [| nra].
  apply (Rmult_le_reg_r s); [lra |].
  replace (D / s * s) with D by (field; lra). lra.
Qed.

Lemma square_up_bound (b : Z) (y : R) :
  (0 <= b)%Z -> exp y <= IZR b / IZR fixed_one ->
  (0 <= square_up b)%Z /\ exp (2 * y) <= IZR (square_up b) / IZR fixed_one.
Proof.
  intros Hb H. pose proof fixed_one_pos as Hs. pose proof (exp_pos y) as Hp.
  assert (Hq : (b * b <= fixed_one * square_up b)%Z).
  { unfold square_up.
    pose proof (Z.div_mod (b * b + fixed_one - 1) fixed_one) as Hdm.
    pose proof (Z.mod_pos_bound (b * b + fixed_one - 1) fixed_one) as Hmb.
    specialize (Hdm ltac:(discriminate)). specialize (Hmb ltac:(reflexivity)).
    lia. }
  split.
  { unfold square_up. apply Z.div_pos; [| reflexivity].
    assert (0 <= b * b)%Z by nia. unfold fixed_one. lia. }
  apply IZR_le in Hq. rewrite !mult_IZR in Hq.
  assert (Hb' : 0 <= IZR b) by (apply IZR_le; exact Hb).
  rewrite exp_double.
  set (s := IZR fixed_one) in *. set (U := IZR (square_up b)) in *.
  assert (Ht : IZR b = IZR b / s * s) by (field; lra).
  set (t := IZR b / s) in *.
  assert (HU : t * t * s <= U).
  { apply (Rmult_le_reg_l s); [lra |]. rewrite Ht in Hq. nra. }
  apply Rle_trans with (t * t); [nra |].
  apply (Rmult_le_reg_r s); [lra |].
  replace (U / s * s) with U by (field; lra). lra.
Qed.

Lemma exp_lower_iter (m : nat) (a : Z) (y : R) :
  (0 <= a)%Z -> IZR a / IZR fixed_one <= exp y ->
  (0 <= Nat.iter m square_down a)%Z
  /\ IZR (Nat.iter m square_down a) / IZR fixed_one <= exp (2 ^ m * y).
Proof.
  intros Ha H. induction m as [| m [IH1 IH2]].
  - simpl. rewrite Rmult_1_l. auto.
  - cbn [Nat.iter].
    replace (2 ^ S m * y) with (2 * (2 ^ m * y)) by (simpl; ring).
    apply square_down_bound; assumption.
Qed.

Lemma exp_upper_iter (m : nat) (b : Z) (y : R) :
  (0 <= b)%Z -> exp y <= IZR b / IZR fixed_one ->
  (0 <= Nat.iter m square_up b)%Z
  /\ exp (2 ^ m * y) <= IZR (Nat.iter m square_up b) / IZR fixed_one.
Proof.
  intros Hb H. induction m as [| m [IH1 IH2]].
  - simpl. rewrite Rmult_1_l. auto.
  - cbn [Nat.iter].
    replace (2 ^ S m * y) with (2 * (2 ^ m * y)) by (simpl; ring).
    apply square_up_bound; assumption.
Qed.

(** [exp x >= (1 + x/2^m)^(2^m)], the power taken by [m] squarings rounded
    down. *)
Lemma exp_lower_bound (m : nat) (x : R) (a : Z) :
  (0 <= a)%Z -> IZR a / IZR fixed_one <= 1 + x / 2 ^ m ->
  IZR (Nat.iter m square_down a) / IZR fixed_one <= exp x.
Proof.
  intros Ha H.
  replace (exp x) with (exp (2 ^ m * (x / 2 ^ m)))
    by (f_equal; field; apply pow_nonzero; lra).
  apply exp_lower_iter; [exact Ha |].
  eapply Rle_trans; [exact H | apply exp_ineq1_le].
Qed.

(** [exp x <= (1 - x/2^m)^(-2^m)], the power taken by [m] squarings rounded
    up. *)
Lemma exp_upper_bound (m : nat) (x : R) (b : Z) :
  (0 <= b)%Z -> x / 2 ^ m < 1 ->
  1 <= IZR b / IZR fixed_one * (1 - x / 2 ^ m) ->
  exp x <= IZR (Nat.iter m square_up b) / IZR fixed_one.
Proof.
  intros Hb Hy H.
  replace (exp x) with (exp (2 ^ m * (x / 2 ^ m)))
    by (f_equal; field; apply pow_nonzero; lra).
  apply exp_upper_iter; [exact Hb |].
  set (y := x / 2 ^ m) in *.
  pose proof (exp_ineq1_le (- y)) as Hn. pose proof (exp_pos y) as Hp.
  assert (Hm : exp y * exp (- y) = 1)
    by (rewrite <- exp_plus, Rplus_opp_r; apply exp_0).
  assert (H1 : exp y * (1 - y) <= 1) by nra.
  set (B := IZR b / IZR fixed_one) in *.
  apply (Rmult_le_reg_r (1 - y)); lra.
Qed.

(** Evaluates the iterated squaring in a goal and leaves the comparison of
    decimals to [lra]. *)
Ltac squarings :=
  match goal with
  | |- context [Nat.iter ?m ?f ?a] =>
      let v := eval vm_compute in (Nat.iter m f a) in
      change (Nat.iter m f a) with v
  end;
  unfold fixed_one; lra.

Lemma exp_0625_lower : 1.86824 <= exp 0.625.
Proof.
  eapply Rle_trans; [| apply (exp_lower_bound 16 0.625 1000009536743164)].
  - squarings.
  - lia.
  - unfold fixed_one. lra.
Qed.

Lemma exp_06245_upper : exp 0.6245 <= 1.86732.
Proof.
  eapply Rle_trans; [apply (exp_upper_bound 16 0.6245 1000009529204575) |].
  - lia.
  - lra.
  - unfold fixed_one. lra.
  - squarings.
Qed.

Lemma exp_0140625_bounds : 1.15099 <= exp 0.140625 <= 1.15100.
Proof.
  split.
  - eapply Rle_trans; [| apply (exp_lower_bound 16 0.140625 1000002145767211)].
    + squarings.
    + lia.
    + unfold fixed_one. lra.
  - eapply Rle_trans; [apply (exp_upper_bound 16 0.140625 1000002145771817) |].
    + lia.
    + lra.
    + unfold fixed_one. lra.
    + squarings.
Qed.

Lemma exp_0765625_bounds : 2.15032 <= exp 0.765625 <= 2.15035.
Proof.
  split.
  - eapply Rle_trans; [| apply (exp_lower_bound 16 0.765625 1000011682510375)].
    + squarings.
    + lia.
    + unfold fixed_one. lra.
  - eapply Rle_trans; [apply (exp_upper_bound 16 0.765625 1000011682646859) |].
    + lia.
    + lra.
    + unfold fixed_one. lra.
    + squarings.
Qed.

(** ** The extremum search *)

Lemma count_max_val : count_max = 1000000%Z.
Proof. vm_compute. reflexivity. Qed.

(** One unfolding of the [while] loop. *)
Lemma find_min_loop_step (x0 wa kappad dx : R) (st : fm_state) :
  find_min_loop x0 wa kappad dx st =
  if Z_lt_dec (fm_c st) count_max then
    if Rlt_dec 0 (fm_deriv st) then
      match deriv_expr x0 wa kappad dx (fm_x st) with
      | Ok d =>
          find_min_loop x0 wa kappad dx
            (mk_fm_state (fm_x st - step) d (fm_c st + 1)
               (if Rle_dec d 0 then Some (fm_x st) else fm_xstar st))
      | Err e => Err e
      end
    else Ok st
  else Ok st.
Proof.
  rewrite find_min_loop_equation_1.
  destruct (Z_lt_dec (fm_c st) count_max); cbn; [|reflexivity].
  destruct (Rlt_dec 0 (fm_deriv st)); cbn; [|reflexivity].
  destruct (deriv_expr x0 wa kappad dx (fm_x st)); reflexivity.
Qed.

Lemma pow2_mult (x : R) : x ^ 2 = x * x.
Proof. simpl. ring. Qed.

Lemma deriv_expr_ok (x0 wa kappad dx x : R) :
  arith_ok x0 wa dx x ->
  deriv_expr x0 wa kappad dx x = Ok (deriv_val x0 wa kappad dx x).
Proof.
  intros (Hwa & H1 & H2). unfold deriv_expr, deriv_val.
  rewrite !py_div_ok by exact Hwa. cbn [bind].
  rewrite !py_pow_2, <- !pow2_mult.
  rewrite (range_checked_ok (((x - x0) / wa) ^ 2))
    by (rewrite Rabs_pos_eq; [exact H1 | apply pow2_ge_0]).
  cbn [bind]. rewrite math_exp_nonpos by (pose proof (pow2_ge_0 ((x - x0) / wa)); lra).
  cbn [bind].
  rewrite (range_checked_ok (((x - dx - x0) / wa) ^ 2))
    by (rewrite Rabs_pos_eq; [exact H2 | apply pow2_ge_0]).
  cbn [bind]. rewrite math_exp_nonpos by (pose proof (pow2_ge_0 ((x - dx - x0) / wa)); lra).
  reflexivity.
Qed.

Lemma g_expr_ok (x0 wa kappad dx x : R) :
  arith_ok x0 wa dx x ->
  g_expr x0 wa kappad dx x = Ok (g_shape x0 wa kappad dx x).
Proof.
  intros (Hwa & H1 & H2). unfold g_expr, g_shape.
  rewrite !py_div_ok by exact Hwa. cbn [bind].
  rewrite !py_pow_2, <- !pow2_mult.
  rewrite (range_checked_ok (((x - x0) / wa) ^ 2))
    by (rewrite Rabs_pos_eq; [exact H1 | apply pow2_ge_0]).
  cbn [bind]. rewrite math_exp_nonpos by (pose proof (pow2_ge_0 ((x - x0) / wa)); lra).
  cbn [bind].
  rewrite (range_checked_ok (((x - dx - x0) / wa) ^ 2))
    by (rewrite Rabs_pos_eq; [exact H2 | apply pow2_ge_0]).
  cbn [bind]. rewrite math_exp_nonpos by (pose proof (pow2_ge_0 ((x - dx - x0) / wa)); lra).
  reflexivity.
Qed.

Lemma x_at_succ (x0 : R) (k : nat) : x_at x0 (S k) = x_at x0 k - step.
Proof. unfold x_at. rewrite Nat2Z.inj_succ, succ_IZR. ring. Qed.

Lemma x_at_0 (x0 : R) : x_at x0 0 = x0 + 50.
Proof. unfold x_at. simpl. ring. Qed.

(** The slope of one Gaussian lobe. *)
Lemma gaussian_lobe_slope (c wa x : R) :
  wa <> 0 ->
  derivable_pt_lim (fun y => exp (- ((y - c) / wa) ^ 2)) x
    (exp (- ((x - c) / wa) ^ 2) * - (2 * (x - c) / wa ^ 2)).
Proof.
  intros Hwa.
  pose (p := comp (fun z => z ^ 2) (id - fct_cte c)%F).
  pose (u := mult_real_fct (- / wa ^ 2) p).
  assert (Hp : derivable_pt_lim p x (INR 2 * (x - c) ^ Init.Nat.pred 2 * (1 - 0))).
  { unfold p. apply derivable_pt_lim_comp.
    - apply derivable_pt_lim_minus;
        [apply derivable_pt_lim_id | apply derivable_pt_lim_const].
    - apply (derivable_pt_lim_pow ((id - fct_cte c)%F x) 2). }
  assert (Hu : derivable_pt_lim u x
                 (- / wa ^ 2 * (INR 2 * (x - c) ^ Init.Nat.pred 2 * (1 - 0))))
    by (unfold u; apply derivable_pt_lim_scal; exact Hp).
  pose proof (derivable_pt_lim_comp u exp x _ _ Hu (derivable_pt_lim_exp (u x)))
    as Hh.
  assert (Hux : forall z, u z = - ((z - c) / wa) ^ 2)
    by (intros z; unfold u, p, mult_real_fct, comp, minus_fct, id, fct_cte;
        field; exact Hwa).
  apply (derivable_pt_lim_ext (comp exp u)).
  - intros z. unfold comp. rewrite Hux. reflexivity.
  - replace (exp (- ((x - c) / wa) ^ 2) * - (2 * (x - c) / wa ^ 2))
      with (exp (u x) * (- / wa ^ 2 * (INR 2 * (x - c) ^ Init.Nat.pred 2 * (1 - 0)))).
    + exact Hh.
    + rewrite Hux. simpl. field. exact Hwa.
Qed.

(** The search's [deriv] is the slope of [g] up to the factor [-wa^2/2]:
    [deriv > 0] exactly where [g] decreases. *)
Lemma deriv_val_is_slope (x0 wa kappad dx x : R) :
  wa <> 0 ->
  derivable_pt_lim (g_shape x0 wa kappad dx) x
    (- (2 / wa ^ 2) * deriv_val x0 wa kappad dx x).
Proof.
  intros Hwa.
  pose proof (gaussian_lobe_slope x0 wa x Hwa) as H1.
  pose proof (gaussian_lobe_slope (dx + x0) wa x Hwa) as H2.
  apply (derivable_pt_lim_scal _ kappad) in H2.
  pose proof (derivable_pt_lim_minus _ _ _ _ _ H1 H2) as H.
  apply (derivable_pt_lim_ext _ (g_shape x0 wa kappad dx)) in H.
  - replace (- (2 / wa ^ 2) * deriv_val x0 wa kappad dx x)
      with (exp (- ((x - x0) / wa) ^ 2) * - (2 * (x - x0) / wa ^ 2)
            - kappad * (exp (- ((x - (dx + x0)) / wa) ^ 2)
                        * - (2 * (x - (dx + x0)) / wa ^ 2))).
    + exact H.
    + unfold deriv_val. replace (x - (dx + x0)) with (x - dx - x0) by ring.
      field. exact Hwa.
  - intros z. unfold minus_fct, mult_real_fct, g_shape.
    replace (z - (dx + x0)) with (z - dx - x0) by ring. reflexivity.
Qed.

(** The search stops at the first visited point where [deriv] is not
    positive, having run [n + 1] iterations. *)
Lemma find_min_loop_stops (x0 wa kappad dx : R) (n : nat) :
  forall st : fm_state,
  0 < fm_deriv st ->
  (fm_c st + Z.of_nat n < count_max)%Z ->
  (forall k, (k <= n)%nat ->
     arith_ok x0 wa dx (fm_x st - IZR (Z.of_nat k) * step)) ->
  (forall k, (k < n)%nat ->
     0 < deriv_val x0 wa kappad dx (fm_x st - IZR (Z.of_nat k) * step)) ->
  deriv_val x0 wa kappad dx (fm_x st - IZR (Z.of_nat n) * step) <= 0 ->
  find_min_loop x0 wa kappad dx st =
  Ok (mk_fm_state (fm_x st - IZR (Z.of_nat (S n)) * step)
        (deriv_val x0 wa kappad dx (fm_x st - IZR (Z.of_nat n) * step))
        (fm_c st + Z.of_nat (S n))
        (Some (fm_x st - IZR (Z.of_nat n) * step))).
Proof.
  induction n as [| n IH]; intros st Hd Hc Hok Hpos Hlast.
  - rewrite find_min_loop_step.
    destruct (Z_lt_dec (fm_c st) count_max) as [_ | Hn]; [| lia].
    destruct (Rlt_dec 0 (fm_deriv st)) as [_ | Hn]; [| contradiction].
    assert (E : fm_x st - IZR (Z.of_nat 0) * step = fm_x st) by (simpl; ring).
    rewrite E in *.
    rewrite deriv_expr_ok by (rewrite <- E; apply Hok; lia).
    destruct (Rle_dec (deriv_val x0 wa kappad dx (fm_x st)) 0) as [_ | Hn];
      [| contradiction].
    rewrite find_min_loop_step. cbn [fm_c fm_deriv fm_x fm_xstar].
    replace (fm_x st - IZR (Z.of_nat 1) * step) with (fm_x st - step)
      by (simpl; ring).
    change (Z.of_nat 1) with 1%Z.
    destruct (Z_lt_dec (fm_c st + 1) count_max); [| reflexivity].
    destruct (Rlt_dec 0 (deriv_val x0 wa kappad dx (fm_x st))); [lra | reflexivity].
  - rewrite find_min_loop_step.
    destruct (Z_lt_dec (fm_c st) count_max) as [_ | Hn]; [| lia].
    destruct (Rlt_dec 0 (fm_deriv st)) as [_ | Hn]; [| contradiction].
    assert (E : fm_x st - IZR (Z.of_nat 0) * step = fm_x st) by (simpl; ring).
    rewrite deriv_expr_ok by (rewrite <- E; apply Hok; lia).
    assert (Hp0 : 0 < deriv_val x0 wa kappad dx (fm_x st))
      by (rewrite <- E; apply Hpos; lia).
    destruct (Rle_dec (deriv_val x0 wa kappad dx (fm_x st)) 0) as [Hn | _];
      [lra |].
    assert (Sh : forall k : nat,
              fm_x st - step - IZR (Z.of_nat k) * step
              = fm_x st - IZR (Z.of_nat (S k)) * step)
      by (intros k; rewrite (Nat2Z.inj_succ k), succ_IZR; ring).
    rewrite IH; cbn [fm_c fm_deriv fm_x fm_xstar].
    + rewrite !Sh. f_equal. f_equal. lia.
    + exact Hp0.
    + lia.
    + intros k Hk. rewrite Sh. apply Hok. lia.
    + intros k Hk. rewrite Sh. apply Hpos. lia.
    + rewrite Sh. exact Hlast.
Qed.

(** While [deriv] stays positive the search runs into the cap and never
    assigns [xstar]. *)
Lemma find_min_loop_cap (x0 wa kappad dx : R) (n : nat) :
  forall st : fm_state,
  0 < fm_deriv st ->
  (fm_c st + Z.of_nat n = count_max)%Z ->
  (forall k, (k < n)%nat ->
     arith_ok x0 wa dx (fm_x st - IZR (Z.of_nat k) * step)
     /\ 0 < deriv_val x0 wa kappad dx (fm_x st - IZR (Z.of_nat k) * step)) ->
  exists st', find_min_loop x0 wa kappad dx st = Ok st'
              /\ fm_xstar st' = fm_xstar st /\ fm_c st' = count_max.
Proof.
  induction n as [| n IH]; intros st Hd Hc Hall.
  - rewrite find_min_loop_step.
    destruct (Z_lt_dec (fm_c st) count_max) as [Hn | _]; [lia |].
    exists st. repeat split. lia.
  - rewrite find_min_loop_step.
    destruct (Z_lt_dec (fm_c st) count_max) as [_ | Hn]; [| lia].
    destruct (Rlt_dec 0 (fm_deriv st)) as [_ | Hn]; [| contradiction].
    assert (E : fm_x st - IZR (Z.of_nat 0) * step = fm_x st) by (simpl; ring).
    destruct (Hall 0%nat) as [Hok0 Hp0]; [lia |]. rewrite E in Hok0, Hp0.
    rewrite deriv_expr_ok by exact Hok0.
    destruct (Rle_dec (deriv_val x0 wa kappad dx (fm_x st)) 0) as [Hn | _];
      [lra |].
    assert (Sh : forall k : nat,
              fm_x st - step - IZR (Z.of_nat k) * step
              = fm_x st - IZR (Z.of_nat (S k)) * step)
      by (intros k; rewrite (Nat2Z.inj_succ k), succ_IZR; ring).
    destruct (IH (mk_fm_state (fm_x st - step)
                    (deriv_val x0 wa kappad dx (fm_x st)) (fm_c st + 1)
                    (fm_xstar st))) as (st' & H1 & H2 & H3);
      cbn [fm_c fm_deriv fm_x fm_xstar].
    + exact Hp0.
    + lia.
    + intros k Hk. rewrite Sh. apply Hall. lia.
    + exists st'. auto.
Qed.

(** The counter never passes the cap. *)
Lemma find_min_loop_bound (x0 wa kappad dx : R) (st st' : fm_state) :
  (fm_c st <= count_max)%Z ->
  find_min_loop x0 wa kappad dx st = Ok st' ->
  (fm_c st <= fm_c st' <= count_max)%Z.
Proof.
  remember (Z.to_nat (count_max - fm_c st)) as m eqn:Hm.
  revert st Hm. induction m as [m IH] using lt_wf_ind. intros st Hm Hle.
  rewrite find_min_loop_step.
  destruct (Z_lt_dec (fm_c st) count_max) as [Hlt | _].
  - destruct (Rlt_dec 0 (fm_deriv st)).
    + destruct (deriv_expr x0 wa kappad dx (fm_x st)) as [d | e]; [| discriminate].
      intros H. eapply IH in H; [| | reflexivity |]; cbn [fm_c] in *; lia.
    + intros H. injection H as <-. lia.
  - intros H. injection H as <-. lia.
Qed.

Lemma find_min_stops_at (x0 wa kappad dx : R) (n : nat) :
  (Z.of_nat n < count_max)%Z ->
  (forall k, (k <= n)%nat -> arith_ok x0 wa dx (x_at x0 k)) ->
  (forall k, (k < n)%nat -> 0 < deriv_val x0 wa kappad dx (x_at x0 k)) ->
  deriv_val x0 wa kappad dx (x_at x0 n) <= 0 ->
  find_min_loop x0 wa kappad dx (mk_fm_state (x0 + 50) 10 0 None)
  = Ok (mk_fm_state (x_at x0 (S n)) (deriv_val x0 wa kappad dx (x_at x0 n))
          (Z.of_nat (S n)) (Some (x_at x0 n)))
  /\ find_min x0 wa kappad dx = Ok (g_shape x0 wa kappad dx (x_at x0 n)).
Proof.
  intros Hn Hok Hpos Hlast.
  assert (L : find_min_loop x0 wa kappad dx (mk_fm_state (x0 + 50) 10 0 None)
              = Ok (mk_fm_state (x_at x0 (S n))
                      (deriv_val x0 wa kappad dx (x_at x0 n))
                      (Z.of_nat (S n)) (Some (x_at x0 n)))).
  { rewrite (find_min_loop_stops x0 wa kappad dx n);
      cbn [fm_c fm_deriv fm_x fm_xstar]; fold (x_at x0 n); fold (x_at x0 (S n));
      try assumption; try lra; try lia.
    reflexivity. }
  split; [exact L |].
  unfold find_min. rewrite L. cbn [bind fm_xstar].
  rewrite g_expr_ok by (apply Hok; lia). cbn [bind].
  unfold f_ystar. rewrite Rmult_1_r. reflexivity.
Qed.

Lemma find_min_never_set (x0 wa kappad dx : R) :
  (forall k, (Z.of_nat k < count_max)%Z ->
     arith_ok x0 wa dx (x_at x0 k)
     /\ 0 < deriv_val x0 wa kappad dx (x_at x0 k)) ->
  exists st, find_min_loop x0 wa kappad dx (mk_fm_state (x0 + 50) 10 0 None)
             = Ok st /\ fm_xstar st = None /\ fm_c st = count_max.
Proof.
  intros Hall.
  destruct (find_min_loop_cap x0 wa kappad dx (Z.to_nat count_max)
              (mk_fm_state (x0 + 50) 10 0 None)) as (st & H1 & H2 & H3);
    cbn [fm_c fm_deriv fm_x fm_xstar].
  - lra.
  - rewrite count_max_val. lia.
  - intros k Hk. fold (x_at x0 k). apply Hall.
    rewrite count_max_val in *. lia.
  - exists st. auto.
Qed.

Lemma first_nonpositive (n : nat) :
  forall f : nat -> R,
  f n <= 0 ->
  exists m, (m <= n)%nat /\ f m <= 0 /\ forall j, (j < m)%nat -> 0 < f j.
Proof.
  induction n as [| n IH]; intros f Hf.
  - exists 0%nat. repeat split; [lia | exact Hf | intros j Hj; lia].
  - destruct (Rle_dec (f 0%nat) 0) as [H0 | H0].
    + exists 0%nat. repeat split; [lia | exact H0 | intros j Hj; lia].
    + destruct (IH (fun k => f (S k)) Hf) as (m & Hm & Hfm & Hbefore).
      exists (S m). repeat split; [lia | exact Hfm |].
      intros [| j] Hj; [lra | apply Hbefore; lia].
Qed.

(** *** The first 1000 steps of a search from [x0 + 50] *)

Lemma single_lobe_visits (k : nat) :
  (k <= 1000)%nat -> 0 <= x_at 0 k <= 50 /\ ((k < 1000)%nat -> 0 < x_at 0 k).
Proof.
  intros Hk. unfold x_at, step.
  assert (H0 : 0 <= IZR (Z.of_nat k)) by (apply IZR_le; lia).
  assert (H1 : IZR (Z.of_nat k) <= 1000) by (apply IZR_le; lia).
  split; [lra |].
  intros Hlt.
  assert (H2 : IZR (Z.of_nat k) <= 999) by (apply IZR_le; lia).
  lra.
Qed.

Lemma single_lobe_x_1000 : x_at 0 1000 = 0.
Proof. unfold x_at, step. simpl. lra. Qed.

Lemma thousand_below_cap : (Z.of_nat 1000 < count_max)%Z.
Proof. rewrite count_max_val. lia. Qed.

(** *** A search that converges: [find_min(0, 100, 0.8, 50)] *)

Lemma two_lobe_visits (k : nat) :
  (k <= 1750)%nat ->
  -37.5 <= x_at 0 k <= 50 /\ ((k < 1750)%nat -> -37.45 <= x_at 0 k).
Proof.
  intros Hk. unfold x_at, step.
  assert (H0 : 0 <= IZR (Z.of_nat k)) by (apply IZR_le; lia).
  assert (H1 : IZR (Z.of_nat k) <= 1750) by (apply IZR_le; lia).
  split; [lra |].
  intros Hlt.
  assert (H2 : IZR (Z.of_nat k) <= 1749) by (apply IZR_le; lia).
  lra.
Qed.

Lemma two_lobe_x_1750 : x_at 0 1750 = -37.5.
Proof. unfold x_at, step. simpl. lra. Qed.

Lemma two_lobe_arith_ok (k : nat) :
  (k <= 1750)%nat -> arith_ok 0 100 50 (x_at 0 k).
Proof.
  intros Hk. destruct (two_lobe_visits k Hk) as [Hx _].
  pose proof float_max_lower as Hf.
  unfold arith_ok. split; [lra |].
  assert (Hq1 : -1 <= (x_at 0 k - 0) / 100 <= 1) by lra.
  assert (Hq2 : -1 <= (x_at 0 k - 50 - 0) / 100 <= 1) by lra.
  rewrite !pow2_mult. split; nra.
Qed.

(** [deriv] with the first Gaussian taken out as a factor: what is left
    changes sign where [x * exp(1/4 - x/100)] meets [0.8 * (x - 50)]. *)
Lemma two_lobe_deriv_factor (x : R) :
  deriv_val 0 100 0.8 50 x
  = exp (- ((x - 0) / 100) ^ 2)
    * (x + 0.8 * (50 - x) * exp (- (0.25 - x / 100))).
Proof.
  unfold deriv_val.
  replace (exp (- ((x - 50 - 0) / 100) ^ 2))
    with (exp (- ((x - 0) / 100) ^ 2) * exp (- (0.25 - x / 100)))
    by (rewrite <- exp_plus; f_equal; decimal_field).
  ring.
Qed.

Lemma two_lobe_deriv_pos (x : R) :
  -37.45 <= x <= 50 -> 0 < deriv_val 0 100 0.8 50 x.
Proof.
  intros Hx. rewrite two_lobe_deriv_factor.
  apply Rmult_lt_0_compat; [apply exp_pos |].
  set (t := 0.25 - x / 100).
  pose proof (exp_pos (- t)) as HF. pose proof (exp_pos t) as HE.
  assert (Hm : exp t * exp (- t) = 1)
    by (rewrite <- exp_plus, Rplus_opp_r; apply exp_0).
  destruct (Rle_dec 0 x) as [Hpos | Hneg].
  - destruct (Req_dec_T x 50) as [-> | Hne]; [lra |].
    assert (0 < 0.8 * (50 - x) * exp (- t))
      by (apply Rmult_lt_0_compat; lra).
    lra.
  - assert (HEu : exp t <= 1.86732).
    { eapply Rle_trans; [| exact exp_06245_upper].
      destruct (Req_dec_T t 0.6245) as [-> | Hne]; [lra |].
      left. apply exp_increasing. unfold t in *. lra. }
    apply (Rmult_lt_reg_r (exp t)); [exact HE |].
    rewrite Rmult_0_l.
    replace ((x + 0.8 * (50 - x) * exp (- t)) * exp t)
      with (x * exp t + 0.8 * (50 - x) * (exp t * exp (- t))) by ring.
    rewrite Hm. nra.
Qed.

Lemma two_lobe_deriv_last : deriv_val 0 100 0.8 50 (x_at 0 1750) <= 0.
Proof.
  rewrite two_lobe_x_1750, two_lobe_deriv_factor.
  replace (0.25 - -37.5 / 100) with 0.625 by lra.
  pose proof exp_0625_lower as HE.
  pose proof (exp_pos (- (0.625))) as HF.
  assert (Hm : exp 0.625 * exp (- (0.625)) = 1)
    by (rewrite <- exp_plus, Rplus_opp_r; apply exp_0).
  pose proof (exp_pos (- ((-37.5 - 0) / 100) ^ 2)) as Hp.
  assert (Hin : -37.5 + 0.8 * (50 - -37.5) * exp (- (0.625)) <= 0).
  { apply (Rmult_le_reg_r (exp 0.625)); [lra |].
    rewrite Rmult_0_l.
    replace ((-37.5 + 0.8 * (50 - -37.5) * exp (- (0.625))) * exp 0.625)
      with (-37.5 * exp 0.625 + 70 * (exp 0.625 * exp (- (0.625)))) by lra.
    rewrite Hm. lra. }
  nra.
Qed.

Lemma two_lobe_below_cap : (Z.of_nat 1750 < count_max)%Z.
Proof. rewrite count_max_val. lia. Qed.

Lemma two_lobe_deriv_before (k : nat) :
  (k < 1750)%nat -> 0 < deriv_val 0 100 0.8 50 (x_at 0 k).
Proof.
  intros Hk. destruct (two_lobe_visits k) as [Hx Hp]; [lia |].
  apply two_lobe_deriv_pos. specialize (Hp Hk). lra.
Qed.

(** The search stops at [x = -37.5], its iteration number 1750 counted from
    0, where [g] is close to [0.49678]. *)
Lemma two_lobe_search :
  find_min 0 100 0.8 50 = Ok (g_shape 0 100 0.8 50 (x_at 0 1750)).
Proof.
  apply (find_min_stops_at 0 100 0.8 50 1750 two_lobe_below_cap
           two_lobe_arith_ok two_lobe_deriv_before two_lobe_deriv_last).
Qed.

Lemma two_lobe_value : 0.4967 < g_shape 0 100 0.8 50 (x_at 0 1750) < 0.4968.
Proof.
  rewrite two_lobe_x_1750. unfold g_shape.
  replace (- ((-37.5 - 0) / 100) ^ 2) with (- (0.140625)) by decimal_field.
  replace (- ((-37.5 - 50 - 0) / 100) ^ 2) with (- (0.765625)) by decimal_field.
  destruct exp_0140625_bounds as [Ha1 Ha2].
  destruct exp_0765625_bounds as [Hb1 Hb2].
  pose proof (exp_pos (- (0.140625))) as Hpa.
  pose proof (exp_pos (- (0.765625))) as Hpb.
  assert (Hma : exp 0.140625 * exp (- (0.140625)) = 1)
    by (rewrite <- exp_plus, Rplus_opp_r; apply exp_0).
  assert (Hmb : exp 0.765625 * exp (- (0.765625)) = 1)
    by (rewrite <- exp_plus, Rplus_opp_r; apply exp_0).
  set (ia := exp (- (0.140625))) in *. set (ib := exp (- (0.765625))) in *.
  set (ea := exp 0.140625) in *. set (eb := exp 0.765625) in *.
  assert (0.86880 <= ia <= 0.86882) by (split; nra).
  assert (0.46504 <= ib <= 0.46505) by (split; nra).
  lra.
Qed.

(** C3 (as amended).  [find_min(x0, wa, kappad, dx)] is a fixed-step
    backward line search: it starts at [x0 + 50] and moves down by exactly
    [0.05] per iteration, evaluating at each point the quantity
    [deriv = (x-x0)*exp(-((x-x0)/wa)^2) - kappad*(x-dx-x0)*exp(-((x-dx-x0)/wa)^2)],
    which is [-(wa^2/2) * g'(x)]: its sign is opposite to that of the
    derivative of [g].  When iteration [n] (below the cap of 1,000,000) is
    the first at which [deriv] is non-positive, the loop records that point
    as [xstar], stops there after [n + 1] iterations, and [find_min] returns
    [g(xstar)]; in every case the loop ends with at most 1,000,000
    iterations counted. *)
Theorem find_min_backward_search (x0 wa kappad dx : R) (n : nat) :
  (Z.of_nat n < count_max)%Z ->
  (forall k, (k <= n)%nat -> arith_ok x0 wa dx (x_at x0 k)) ->
  (forall k, (k < n)%nat -> 0 < deriv_val x0 wa kappad dx (x_at x0 k)) ->
  deriv_val x0 wa kappad dx (x_at x0 n) <= 0 ->
  x_at x0 0 = x0 + 50
  /\ (forall k, x_at x0 (S k) = x_at x0 k - 0.05)
  /\ (forall x,
        derivable_pt_lim (g_shape x0 wa kappad dx) x
          (- (2 / wa ^ 2) * deriv_val x0 wa kappad dx x))
  /\ find_min_loop x0 wa kappad dx (mk_fm_state (x0 + 50) 10 0 None)
     = Ok (mk_fm_state (x_at x0 (S n)) (deriv_val x0 wa kappad dx (x_at x0 n))
             (Z.of_nat (S n)) (Some (x_at x0 n)))
  /\ (forall st,
        find_min_loop x0 wa kappad dx (mk_fm_state (x0 + 50) 10 0 None) = Ok st ->
        (0 <= fm_c st <= 1000000)%Z)
  /\ find_min x0 wa kappad dx = Ok (g_shape x0 wa kappad dx (x_at x0 n)).
Proof.
  intros Hn Hok Hpos Hlast.
  destruct (find_min_stops_at x0 wa kappad dx n Hn Hok Hpos Hlast) as [L F].
  split; [apply x_at_0 |].
  split; [intros k; apply x_at_succ |].
  split; [intros x; apply deriv_val_is_slope; apply (Hok n); lia |].
  split; [exact L |].
  split; [| exact F].
  intros st Hst. rewrite <- count_max_val.
  apply find_min_loop_bound in Hst; cbn [fm_c] in *; [exact Hst |].
  rewrite count_max_val. lia.
Qed.

Lemma find_min_backward_search_witness :
  find_min_loop 0 100 0.8 50 (mk_fm_state (0 + 50) 10 0 None)
  = Ok (mk_fm_state (x_at 0 1751) (deriv_val 0 100 0.8 50 (x_at 0 1750))
          1751 (Some (x_at 0 1750)))
  /\ find_min 0 100 0.8 50 = Ok (g_shape 0 100 0.8 50 (x_at 0 1750))
  /\ x_at 0 1750 = -37.5
  /\ 0.4967 < g_shape 0 100 0.8 50 (x_at 0 1750) < 0.4968.
Proof.
  destruct (find_min_backward_search 0 100 0.8 50 1750 two_lobe_below_cap
              two_lobe_arith_ok two_lobe_deriv_before two_lobe_deriv_last)
    as (_ & _ & _ & L & _ & F).
  split; [exact L |]. split; [exact F |].
  split; [exact two_lobe_x_1750 | exact two_lobe_value].
Defined.

(** C3, as stated, fails: in [find_min(0, 100, 0.8, 50)] the derivative of
    [g] is negative at the first point visited, [x0 + 50], yet the search
    does not stop there: it goes on for 1750 more steps, and the value it
    returns is positive, where [g] at the first point is negative. *)
Lemma derivative_sign_counterexample :
  exists slope v,
    derivable_pt_lim (g_shape 0 100 0.8 50) (x_at 0 0) slope
    /\ slope < 0
    /\ find_min 0 100 0.8 50 = Ok v
    /\ g_shape 0 100 0.8 50 (x_at 0 0) < 0 < v.
Proof.
  exists (- (2 / 100 ^ 2) * deriv_val 0 100 0.8 50 (x_at 0 0)),
         (g_shape 0 100 0.8 50 (x_at 0 1750)).
  split; [apply deriv_val_is_slope; lra |].
  split.
  { assert (Hp : 0 < deriv_val 0 100 0.8 50 (x_at 0 0))
      by (apply two_lobe_deriv_before; lia).
    assert (Hc : 0 < 2 / 100 ^ 2)
      by (apply Rdiv_lt_0_compat; [lra | apply pow_lt; lra]).
    rewrite Ropp_mult_distr_l_reverse.
    pose proof (Rmult_lt_0_compat _ _ Hc Hp) as HP.
    set (P := 2 / 100 ^ 2 * deriv_val 0 100 0.8 50 (x_at 0 0)) in *.
    clearbody P. lra. }
  split; [exact two_lobe_search |].
  split; [| pose proof two_lobe_value; lra].
  unfold g_shape, x_at, step.
  replace (0 + 50 - IZR (Z.of_nat 0) * 0.05) with 50 by (simpl; lra).
  replace (- ((50 - 0) / 100) ^ 2) with (- (1 / 4)) by field.
  replace (- ((50 - 50 - 0) / 100) ^ 2) with 0 by field.
  rewrite exp_0.
  pose proof (exp_ineq1 (1 / 4)) as H1.
  pose proof (exp_pos (- (1 / 4))) as Hp.
  assert (Hm : exp (1 / 4) * exp (- (1 / 4)) = 1)
    by (rewrite <- exp_plus, Rplus_opp_r; apply exp_0).
  nra.
Qed.

(** *** A search that never converges: [find_min(0, 100000, 1, 100)] *)

Lemma wide_lobe_visits (k : nat) :
  (Z.of_nat k < count_max)%Z -> -49950 < x_at 0 k <= 50.
Proof.
  intros Hk. rewrite count_max_val in Hk. unfold x_at, step.
  assert (H0 : 0 <= IZR (Z.of_nat k)) by (apply IZR_le; lia).
  assert (H1 : IZR (Z.of_nat k) <= 999999) by (apply IZR_le; lia).
  lra.
Qed.

Lemma wide_lobe_arith_ok (u : R) :
  -49950 < u <= 50 -> arith_ok 0 100000 100 u.
Proof.
  intros Hu. pose proof float_max_lower as Hf.
  unfold arith_ok. split; [lra |].
  replace (((u - 0) / 100000) ^ 2) with (u * u / 10000000000) by field.
  replace (((u - 100 - 0) / 100000) ^ 2)
    with ((u - 100) * (u - 100) / 10000000000) by field.
  split; nra.
Qed.

Lemma wide_lobe_deriv_pos (u : R) :
  -49950 < u <= 50 -> 0 < deriv_val 0 100000 1 100 u.
Proof.
  intros Hu. unfold deriv_val.
  set (A := ((u - 0) / 100000) ^ 2).
  set (B := ((u - 100 - 0) / 100000) ^ 2).
  pose proof (exp_pos (- A)) as HA.
  pose proof (exp_pos (- B)) as HB.
  destruct (Rle_dec 0 u) as [Hpos | Hneg].
  - assert (0 <= u * exp (- A)) by (apply Rmult_le_pos; lra).
    assert (0 < (100 - u) * exp (- B)) by (apply Rmult_lt_0_compat; lra).
    lra.
  - assert (Hu' : u < 0) by lra.
    assert (Ht : B - A = (10000 - 200 * u) / 10000000000)
      by (unfold A, B; field).
    assert (HE : exp (- B) = exp (- A) * exp (- (B - A)))
      by (rewrite <- exp_plus; f_equal; ring).
    pose proof (exp_ineq1_le (- (B - A))) as HF.
    rewrite Ht in HF.
    set (F := exp (- (B - A))) in *.
    replace (exp (- ((10000 - 200 * u) / 10000000000))) with F in HF
      by (unfold F; rewrite Ht; reflexivity).
    rewrite HE.
    replace ((u - 0) * exp (- A) - 1 * (u - 100 - 0) * (exp (- A) * F))
      with (exp (- A) * (u + (100 - u) * F)) by ring.
    apply Rmult_lt_0_compat; [exact HA |].
    assert (Hlow : 1 - (10000 - 200 * u) / 10000000000 <= F) by lra.
    assert (Hq : (10000 - 200 * u) / 10000000000 <= 0.001) by lra.
    assert (Hm : (100 - u) * (1 - 0.001) <= (100 - u) * F)
      by (apply Rmult_le_compat_l; lra).
    lra.
Qed.

Lemma wide_lobe_all (k : nat) :
  (Z.of_nat k < count_max)%Z ->
  arith_ok 0 100000 100 (x_at 0 k) /\ 0 < deriv_val 0 100000 1 100 (x_at 0 k).
Proof.
  intros Hk. pose proof (wide_lobe_visits k Hk) as Hu.
  split; [apply wide_lobe_arith_ok | apply wide_lobe_deriv_pos]; exact Hu.
Qed.

(** C8.  If the [deriv] expression stays positive at every iteration up to
    the cap, [xstar] is never assigned and [find_min] returns no number: it
    raises [UnboundLocalError].  If [deriv] is non-positive at some iteration
    [n] below the cap, [find_min] returns [g(xstar)] for [xstar] the first
    such point. *)
Theorem find_min_may_leave_xstar_unset :
  (forall x0 wa kappad dx : R,
     (forall k, (Z.of_nat k < count_max)%Z ->
        arith_ok x0 wa dx (x_at x0 k)
        /\ 0 < deriv_val x0 wa kappad dx (x_at x0 k)) ->
     (exists st,
        find_min_loop x0 wa kappad dx (mk_fm_state (x0 + 50) 10 0 None) = Ok st
        /\ fm_xstar st = None /\ fm_c st = 1000000%Z)
     /\ find_min x0 wa kappad dx = Err UnboundLocalError)
  /\
  (forall (x0 wa kappad dx : R) (n : nat),
     (Z.of_nat n < count_max)%Z ->
     (forall k, (k <= n)%nat -> arith_ok x0 wa dx (x_at x0 k)) ->
     deriv_val x0 wa kappad dx (x_at x0 n) <= 0 ->
     exists m,
       (m <= n)%nat
       /\ deriv_val x0 wa kappad dx (x_at x0 m) <= 0
       /\ (forall j, (j < m)%nat -> 0 < deriv_val x0 wa kappad dx (x_at x0 j))
       /\ find_min x0 wa kappad dx = Ok (g_shape x0 wa kappad dx (x_at x0 m))).
Proof.
  split.
  - intros x0 wa kappad dx Hall.
    destruct (find_min_never_set x0 wa kappad dx Hall) as (st & H1 & H2 & H3).
    split.
    + exists st. rewrite <- count_max_val. auto.
    + unfold find_min. rewrite H1. cbn [bind]. rewrite H2. reflexivity.
  - intros x0 wa kappad dx n Hn Hok Hlast.
    destruct (first_nonpositive n (fun k => deriv_val x0 wa kappad dx (x_at x0 k))
                Hlast) as (m & Hm & Hfm & Hbefore).
    exists m. repeat split; try assumption.
    apply find_min_stops_at; try assumption.
    + lia.
    + intros k Hk. apply Hok. lia.
Qed.

Lemma find_min_may_leave_xstar_unset_witness :
  find_min 0 100000 1 100 = Err UnboundLocalError
  /\ exists m, (m <= 1750)%nat
       /\ find_min 0 100 0.8 50 = Ok (g_shape 0 100 0.8 50 (x_at 0 m)).
Proof.
  split.
  - apply (proj1 find_min_may_leave_xstar_unset 0 100000 1 100 wide_lobe_all).
  - destruct (proj2 find_min_may_leave_xstar_unset 0 100 0.8 50 1750%nat
                two_lobe_below_cap two_lobe_arith_ok two_lobe_deriv_last)
      as (m & Hm & _ & _ & Hf).
    exists m. split; [exact Hm | exact Hf].
Defined.

(** ** The offset of the second Gaussian *)

Lemma lobe_offset_ok (c a zsmall : R) :
  dx_precondition a zsmall ->
  lobe_offset c a zsmall = Ok (dx_formula c a zsmall).
Proof.
  intros (Ha & Hq0 & Hq1). unfold lobe_offset, dx_formula.
  rewrite py_div_ok by exact Ha. cbn [bind].
  rewrite math_log_e by exact Hq0. cbn [bind].
  assert (Hln : ln (zsmall / a) <= 0).
  { destruct Hq1 as [Hlt | Heq].
    - left. rewrite <- ln_1. apply ln_increasing; assumption.
    - rewrite Heq, ln_1. lra. }
  rewrite math_sqrt_ok by lra. cbn [bind]. f_equal. decimal_field.
Qed.

Lemma lobe_offset_zero_amplitude (c zsmall : R) :
  lobe_offset c 0 zsmall = Err ZeroDivisionError.
Proof. unfold lobe_offset. rewrite py_div_zero. reflexivity. Qed.

Lemma lobe_offset_log_domain (c a zsmall : R) :
  a <> 0 -> zsmall / a <= 0 -> lobe_offset c a zsmall = Err ValueError.
Proof.
  intros Ha Hq. unfold lobe_offset.
  rewrite py_div_ok by exact Ha. cbn [bind].
  rewrite math_log_nonpos by exact Hq. reflexivity.
Qed.

Lemma lobe_offset_sqrt_domain (c a zsmall : R) :
  a <> 0 -> 1 < zsmall / a -> lobe_offset c a zsmall = Err ValueError.
Proof.
  intros Ha Hq. unfold lobe_offset.
  rewrite py_div_ok by exact Ha. cbn [bind].
  rewrite math_log_e by lra. cbn [bind].
  assert (Hln : 0 < ln (zsmall / a))
    by (rewrite <- ln_1; apply ln_increasing; lra).
  rewrite math_sqrt_neg by lra. reflexivity.
Qed.

Lemma lobe_offset_inv (c a zsmall v : R) :
  lobe_offset c a zsmall = Ok v ->
  dx_precondition a zsmall /\ v = dx_formula c a zsmall.
Proof.
  intros H.
  destruct (Req_dec_T a 0) as [-> | Ha].
  - rewrite lobe_offset_zero_amplitude in H. discriminate.
  - destruct (Rle_dec (zsmall / a) 0) as [Hq | Hq].
    + rewrite lobe_offset_log_domain in H by assumption. discriminate.
    + destruct (Rlt_dec 1 (zsmall / a)) as [Hq1 | Hq1].
      * rewrite lobe_offset_sqrt_domain in H by assumption. discriminate.
      * assert (P : dx_precondition a zsmall) by (unfold dx_precondition; lra).
        rewrite lobe_offset_ok in H by exact P.
        injection H as <-. auto.
Qed.

(** C4.  When [dx] is not supplied at construction, and on every call of
    [determineDX(zsmall)], the [dx] field becomes
    [0.4 * wavelength * sqrt(-ln(zsmall / a3D))] (for arguments in the
    domain of that formula); a supplied [dx] is stored as given, so the
    field holds a number as soon as the object exists; [determineDX]
    returns the new [dx] and leaves every other field as it was. *)
Theorem dx_resolved_at_construction
  (a3D_arg wavelength_arg width_arg x0_arg y0_arg alpha_arg kappa_arg
   kappad_arg zsmall scale_arg dx_arg : R) (self : Double_gaussian.t) (zs : R) :
  dx_precondition a3D_arg zsmall ->
  dx_precondition (Double_gaussian.a3D self) zs ->
  Double_gaussian.init a3D_arg wavelength_arg width_arg x0_arg y0_arg
    alpha_arg kappa_arg kappad_arg zsmall None scale_arg
  = Ok (Double_gaussian.mk a3D_arg wavelength_arg width_arg x0_arg y0_arg
          alpha_arg kappa_arg kappad_arg scale_arg
          (dx_formula wavelength_arg a3D_arg zsmall))
  /\ Double_gaussian.init a3D_arg wavelength_arg width_arg x0_arg y0_arg
       alpha_arg kappa_arg kappad_arg zsmall (Some dx_arg) scale_arg
     = Ok (Double_gaussian.mk a3D_arg wavelength_arg width_arg x0_arg y0_arg
             alpha_arg kappa_arg kappad_arg scale_arg dx_arg)
  /\ Double_gaussian.determineDX self zs
     = Ok (dx_formula (Double_gaussian.wavelength self)
             (Double_gaussian.a3D self) zs,
           Double_gaussian.mk (Double_gaussian.a3D self)
             (Double_gaussian.wavelength self) (Double_gaussian.width self)
             (Double_gaussian.x0 self) (Double_gaussian.y0 self)
             (Double_gaussian.alpha self) (Double_gaussian.kappa self)
             (Double_gaussian.kappad self) (Double_gaussian.scale self)
             (dx_formula (Double_gaussian.wavelength self)
                (Double_gaussian.a3D self) zs)).
Proof.
  intros Hinit Hdet. repeat split.
  - unfold Double_gaussian.init. rewrite lobe_offset_ok by exact Hinit.
    reflexivity.
  - unfold Double_gaussian.determineDX. rewrite lobe_offset_ok by exact Hdet.
    reflexivity.
Qed.

Lemma default_zsmall_in_domain : dx_precondition 2 0.01.
Proof. unfold dx_precondition. lra. Qed.

Lemma dx_resolved_at_construction_witness :
  Double_gaussian.init 2 1000 250 0 0 0 3 0.8 0.01 None 1
  = Ok (Double_gaussian.mk 2 1000 250 0 0 0 3 0.8 1 (dx_formula 1000 2 0.01))
  /\ Double_gaussian.determineDX (Double_gaussian.mk 2 1000 250 0 0 0 3 0.8 1 7) 0.01
     = Ok (dx_formula 1000 2 0.01,
           Double_gaussian.mk 2 1000 250 0 0 0 3 0.8 1 (dx_formula 1000 2 0.01)).
Proof.
  pose proof (dx_resolved_at_construction 2 1000 250 0 0 0 3 0.8 0.01 1 7
                (Double_gaussian.mk 2 1000 250 0 0 0 3 0.8 1 7) 0.01
                default_zsmall_in_domain default_zsmall_in_domain)
    as (H1 & _ & H3).
  split; [exact H1 | exact H3].
Defined.

(** C10.  The offset formula has the precondition [0 < zsmall/a3D <= 1].
    When [0 < a3D < zsmall] the square root is taken of a negative number,
    and when [a3D] and [zsmall] have opposite signs the logarithm is taken of
    a negative number: in both cases construction with [dx] unset and
    [determineDX(zsmall)] raise the domain error [ValueError]. *)
Theorem dx_formula_domain_errors
  (self : Double_gaussian.t) (zsmall : R) :
  0 < Double_gaussian.a3D self < zsmall
  \/ Double_gaussian.a3D self < 0 < zsmall
  \/ zsmall < 0 < Double_gaussian.a3D self ->
  ~ dx_precondition (Double_gaussian.a3D self) zsmall
  /\ Double_gaussian.determineDX self zsmall = Err ValueError
  /\ Double_gaussian.init (Double_gaussian.a3D self)
       (Double_gaussian.wavelength self) (Double_gaussian.width self)
       (Double_gaussian.x0 self) (Double_gaussian.y0 self)
       (Double_gaussian.alpha self) (Double_gaussian.kappa self)
       (Double_gaussian.kappad self) zsmall None (Double_gaussian.scale self)
     = Err ValueError
  /\ (forall v,
        lobe_offset (Double_gaussian.wavelength self)
          (Double_gaussian.a3D self) zsmall <> Ok v).
Proof.
  intros H.
  set (a := Double_gaussian.a3D self) in *.
  assert (E : lobe_offset (Double_gaussian.wavelength self) a zsmall
              = Err ValueError).
  { destruct H as [[Ha Hz] | [[Ha Hz] | [Hz Ha]]].
    - apply lobe_offset_sqrt_domain; [lra |].
      apply (Rmult_lt_reg_r a); [exact Ha |].
      unfold Rdiv. rewrite Rmult_assoc, Rinv_l by lra. lra.
    - apply lobe_offset_log_domain; [lra |].
      left. unfold Rdiv. apply (Rmult_lt_reg_r (- a)); [lra |].
      rewrite Rmult_0_l, Rmult_assoc.
      replace (/ a * - a) with (-1) by (field; lra). lra.
    - apply lobe_offset_log_domain; [lra |].
      left. unfold Rdiv. apply (Rmult_lt_reg_r a); [lra |].
      rewrite Rmult_0_l, Rmult_assoc, Rinv_l by lra. lra. }
  repeat split.
  - intros P.
    rewrite (lobe_offset_ok (Double_gaussian.wavelength self) a zsmall P) in E.
    discriminate.
  - unfold Double_gaussian.determineDX. fold a. rewrite E. reflexivity.
  - unfold Double_gaussian.init. rewrite E. reflexivity.
  - intros v Hv. rewrite E in Hv. discriminate.
Qed.

Lemma dx_formula_domain_errors_witness :
  Double_gaussian.determineDX
    (Double_gaussian.mk 0.005 1000 250 0 0 0 3 0.8 1 7) 0.01 = Err ValueError
  /\ Double_gaussian.determineDX
       (Double_gaussian.mk (-1) 1000 250 0 0 0 3 0.8 1 7) 0.01 = Err ValueError.
Proof.
  split.
  - apply (dx_formula_domain_errors
             (Double_gaussian.mk 0.005 1000 250 0 0 0 3 0.8 1 7) 0.01).
    left. cbn [Double_gaussian.a3D]. lra.
  - apply (dx_formula_domain_errors
             (Double_gaussian.mk (-1) 1000 250 0 0 0 3 0.8 1 7) 0.01).
    right. left. cbn [Double_gaussian.a3D]. lra.
Defined.

(** ** Evaluation of the surface *)

Lemma inverse_pair_sum (e e' : R) :
  0 < e -> 0 < e' -> e * e' = 1 -> 2 <= e + e'.
Proof.
  intros He He' Hm.
  pose proof (Rle_0_sqr (e - e')) as Hs. unfold Rsqr in Hs.
  destruct (Rle_dec 2 (e + e')) as [H | H]; [exact H | exfalso].
  assert (Hlt : e + e' < 2) by lra.
  assert (H4 : (e + e') * (e + e') < 2 * 2)
    by (apply Rmult_le_0_lt_compat; lra).
  lra.
Qed.

Lemma cosh_ge_1 (x : R) : 1 <= cosh x.
Proof.
  unfold cosh.
  assert (Hm : exp x * exp (- x) = 1)
    by (rewrite <- exp_plus, Rplus_opp_r; apply exp_0).
  pose proof (inverse_pair_sum _ _ (exp_pos x) (exp_pos (- x)) Hm).
  lra.
Qed.

(** The element expression, case by case. *)
Lemma element_eval (self : Double_gaussian.t) (xr yr : R) :
  Double_gaussian.wavelength self <> 0 ->
  Double_gaussian.width self + Double_gaussian.wavelength self <> 0 ->
  (overflow_native self xr yr ->
   Double_gaussian.element self xr yr = Err OverflowError)
  /\ (~ overflow_native self xr yr ->
      Double_gaussian.element self xr yr = Ok (surface_native self xr yr)).
Proof.
  intros Hwa Hsum. unfold overflow_native, surface_native, Double_gaussian.element.
  set (a := Double_gaussian.kappa self * (yr - Double_gaussian.y0 self)
            / (Double_gaussian.width self + Double_gaussian.wavelength self)).
  set (q1 := (xr - Double_gaussian.x0 self) / Double_gaussian.wavelength self).
  set (q2 := (xr - Double_gaussian.dx self - Double_gaussian.x0 self)
             / Double_gaussian.wavelength self).
  pose proof (cosh_ge_1 a) as Hc.
  pose proof (pow2_ge_0 q1) as Hq1. pose proof (pow2_ge_0 q2) as Hq2.
  rewrite !py_div_ok by assumption. fold a q1 q2. cbn [bind].
  unfold math_cosh.
  destruct (Rlt_dec float_max (cosh a ^ 2)) as [Oc | Oc].
  { split; [intros _ | intros N; exfalso; apply N; left; exact Oc].
    destruct (Rlt_dec float_max (cosh a)) as [O1 | O1].
    - rewrite range_checked_overflow by (rewrite Rabs_pos_eq; lra). reflexivity.
    - rewrite range_checked_ok by (rewrite Rabs_pos_eq; lra). cbn [bind].
      rewrite py_pow_2, <- pow2_mult.
      rewrite range_checked_overflow by (rewrite Rabs_pos_eq; lra). reflexivity. }
  assert (Hc2 : cosh a <= cosh a ^ 2) by (rewrite pow2_mult; nra).
  rewrite range_checked_ok by (rewrite Rabs_pos_eq; lra). cbn [bind].
  rewrite py_pow_2, <- pow2_mult.
  rewrite range_checked_ok by (rewrite Rabs_pos_eq; lra). cbn [bind].
  rewrite py_div_ok by lra. cbn [bind].
  rewrite py_pow_2, <- pow2_mult.
  destruct (Rlt_dec float_max (q1 ^ 2)) as [O1 | O1].
  { split; [intros _ | intros N; exfalso; apply N; right; left; exact O1].
    rewrite range_checked_overflow by (rewrite Rabs_pos_eq; lra). reflexivity. }
  rewrite range_checked_ok by (rewrite Rabs_pos_eq; lra). cbn [bind].
  rewrite math_exp_nonpos by lra. cbn [bind].
  rewrite py_pow_2, <- pow2_mult.
  destruct (Rlt_dec float_max (q2 ^ 2)) as [O2 | O2].
  { split; [intros _ | intros N; exfalso; apply N; right; right; exact O2].
    rewrite range_checked_overflow by (rewrite Rabs_pos_eq; lra). reflexivity. }
  rewrite range_checked_ok by (rewrite Rabs_pos_eq; lra). cbn [bind].
  rewrite math_exp_nonpos by lra. cbn [bind].
  split; [intros [O | [O | O]]; lra | intros _; reflexivity].
Qed.

Lemma set_item_length (l : list R) (i : nat) (v : R) :
  List.length (Double_gaussian.set_item l i v) = List.length l.
Proof.
  revert i. induction l as [| a l IH]; intros [| i]; simpl; auto.
Qed.

Lemma set_item_nth_same (l : list R) (i : nat) (v : R) :
  (i < List.length l)%nat -> nth i (Double_gaussian.set_item l i v) 0 = v.
Proof.
  revert i. induction l as [| a l IH]; intros [| i] H; simpl in *;
    try lia; auto. apply IH. lia.
Qed.

Lemma set_item_nth_other (l : list R) (i j : nat) (v : R) :
  i <> j -> nth j (Double_gaussian.set_item l i v) 0 = nth j l 0.
Proof.
  revert i j. induction l as [| a l IH]; intros [| i] [| j] H; simpl;
    try reflexivity; try contradiction. apply IH. lia.
Qed.

(** What one pass of the [for] loop leaves in [z]. *)
Lemma call_loop_inv (self : Double_gaussian.t) (xr yr : list R)
      (range : list nat) :
  forall st st',
  NoDup range ->
  (forall i, In i range -> (i < List.length (Double_gaussian.z st))%nat) ->
  Double_gaussian.call_loop self xr yr st range = Ok st' ->
  List.length (Double_gaussian.z st') = List.length (Double_gaussian.z st)
  /\ forall j,
       nth j (Double_gaussian.z st') 0
       = if in_dec Nat.eq_dec j range then
           match Double_gaussian.element self (nth j xr 0) (nth j yr 0) with
           | Ok v => v
           | Err _ => nth j (Double_gaussian.z st) 0
           end
         else nth j (Double_gaussian.z st) 0.
Proof.
  induction range as [| i rest IH]; intros st st' Hnd Hlt Hrun.
  - simpl in Hrun. injection Hrun as <-. split; [reflexivity |].
    intros j. destruct (in_dec Nat.eq_dec j []) as [[] | _]. reflexivity.
  - inversion Hnd as [| ? ? Hnotin Hnd']; subst.
    cbn [Double_gaussian.call_loop] in Hrun.
    unfold Double_gaussian.call_body in Hrun.
    assert (Hi : (i < List.length (Double_gaussian.z st))%nat)
      by (apply Hlt; left; reflexivity).
    destruct (Double_gaussian.element self (nth i xr 0) (nth i yr 0))
      as [v | e] eqn:He.
    + cbn [bind] in Hrun.
      apply IH in Hrun; cbn [Double_gaussian.z] in *;
        [| exact Hnd'
         | intros k Hk; rewrite set_item_length; apply Hlt; right; exact Hk].
      destruct Hrun as [Hlen Hnth].
      rewrite set_item_length in Hlen. split; [exact Hlen |].
      intros j. rewrite Hnth.
      destruct (in_dec Nat.eq_dec j rest) as [Hin | Hout];
        destruct (in_dec Nat.eq_dec j (i :: rest)) as [Hin' | Hout'].
      * assert (i <> j) by (intros ->; contradiction).
        rewrite set_item_nth_other by assumption. reflexivity.
      * exfalso. apply Hout'. right. exact Hin.
      * destruct Hin' as [-> | Hin']; [| contradiction].
        rewrite He. apply set_item_nth_same. exact Hi.
      * assert (i <> j) by (intros ->; apply Hout'; left; reflexivity).
        apply set_item_nth_other. assumption.
    + destruct e; try discriminate. cbn [bind] in Hrun.
      apply IH in Hrun;
        [| exact Hnd' | intros k Hk; apply Hlt; right; exact Hk].
      destruct Hrun as [Hlen Hnth]. split; [exact Hlen |].
      intros j. rewrite Hnth.
      destruct (in_dec Nat.eq_dec j rest) as [Hin | Hout];
        destruct (in_dec Nat.eq_dec j (i :: rest)) as [Hin' | Hout'];
        try reflexivity.
      * exfalso. apply Hout'. right. exact Hin.
      * destruct Hin' as [-> | Hin']; [| contradiction].
        rewrite He. reflexivity.
Qed.

(** The loop completes when no element raises anything but
    [OverflowError]. *)
Lemma call_loop_total (self : Double_gaussian.t) (xr yr : list R)
      (range : list nat) :
  (forall i e, In i range ->
     Double_gaussian.element self (nth i xr 0) (nth i yr 0) = Err e ->
     e = OverflowError) ->
  forall st, exists st', Double_gaussian.call_loop self xr yr st range = Ok st'.
Proof.
  induction range as [| i rest IH]; intros Hok st.
  - exists st. reflexivity.
  - cbn [Double_gaussian.call_loop]. unfold Double_gaussian.call_body.
    destruct (Double_gaussian.element self (nth i xr 0) (nth i yr 0))
      as [v | e] eqn:He.
    + cbn [bind]. apply IH. intros k e Hk. apply Hok. right. exact Hk.
    + rewrite (Hok i e (or_introl eq_refl) He). cbn [bind].
      apply IH. intros k e' Hk. apply Hok. right. exact Hk.
Qed.

Lemma nth_map_in {A B : Type} (g : A -> B) (l : list A) (i : nat) (d : B) (d' : A) :
  (i < List.length l)%nat -> nth i (map g l) d = g (nth i l d').
Proof.
  revert i. induction l as [| a l IH]; intros [| i] H; simpl in *;
    try lia; auto. apply IH. lia.
Qed.

Lemma array_map2_length (f : R -> R -> R) (x y : list R) :
  List.length x = List.length y ->
  List.length (Double_gaussian.array_map2 f x y) = List.length x.
Proof.
  intros H. unfold Double_gaussian.array_map2.
  rewrite length_map, length_combine, <- H. apply Nat.min_id.
Qed.

Lemma array_map2_nth (f : R -> R -> R) (x y : list R) (i : nat) :
  List.length x = List.length y ->
  (i < List.length x)%nat ->
  nth i (Double_gaussian.array_map2 f x y) 0 = f (nth i x 0) (nth i y 0).
Proof.
  intros Hlen Hi. unfold Double_gaussian.array_map2.
  rewrite (nth_map_in _ _ _ _ (0, 0))
    by (rewrite length_combine, <- Hlen, Nat.min_id; exact Hi).
  rewrite combine_nth by exact Hlen. reflexivity.
Qed.

(** The rotated coordinates the source computes are the point rotated
    anti-clockwise by [alpha] about [(x0, y0)]. *)
Lemma to_native_coordinates (self : Double_gaussian.t) (px py : R) :
  let cosa := math_cos (math_radians (Double_gaussian.alpha self)) in
  let sina := math_sin (math_radians (Double_gaussian.alpha self)) in
  fst (to_native self (px, py))
  = ((px - Double_gaussian.x0 self) * cosa
     - (py - Double_gaussian.y0 self) * sina) + Double_gaussian.x0 self
  /\ snd (to_native self (px, py))
     = ((px - Double_gaussian.x0 self) * sina
        + (py - Double_gaussian.y0 self) * cosa) + Double_gaussian.y0 self.
Proof.
  unfold to_native, rotate, math_cos, math_sin, math_radians, math_pi.
  cbn [fst snd]. split; ring.
Qed.

Lemma call_inv (self : Double_gaussian.t) (x y z : list R) :
  Double_gaussian.call self x y = Ok z ->
  List.length x = List.length y
  /\ List.length z = List.length x
  /\ forall i, (i < List.length x)%nat ->
       nth i z 0 = value_at self (nth i x 0, nth i y 0).
Proof.
  unfold Double_gaussian.call.
  destruct (Nat.eq_dec (List.length x) (List.length y)) as [Hlen | Hlen];
    [| discriminate].
  set (xr := Double_gaussian.array_map2 _ x y).
  set (yr := Double_gaussian.array_map2 _ x y).
  destruct (Double_gaussian.call_loop self xr yr
              (Double_gaussian.mk_call_state (repeat 0 (List.length x)) 0 0)
              (seq 0 (List.length x))) as [st |] eqn:Hrun; [| discriminate].
  cbn [bind]. intros H. injection H as <-.
  apply call_loop_inv in Hrun; cbn [Double_gaussian.z] in *.
  - destruct Hrun as [Hl Hnth]. rewrite repeat_length in Hl.
    split; [exact Hlen |]. split; [exact Hl |].
    intros i Hi. rewrite Hnth.
    destruct (in_dec Nat.eq_dec i (seq 0 (List.length x))) as [_ | Hout];
      [| exfalso; apply Hout; apply in_seq; lia].
    unfold value_at.
    destruct (to_native_coordinates self (nth i x 0) (nth i y 0)) as [Ex Ey].
    rewrite Ex, Ey. unfold xr, yr.
    rewrite !array_map2_nth by assumption.
    rewrite nth_repeat. reflexivity.
  - apply seq_NoDup.
  - intros i Hi. rewrite repeat_length. apply in_seq in Hi. lia.
Qed.

Lemma call_total (self : Double_gaussian.t) (x y : list R) :
  List.length x = List.length y ->
  Double_gaussian.wavelength self <> 0 ->
  Double_gaussian.width self + Double_gaussian.wavelength self <> 0 ->
  exists z, Double_gaussian.call self x y = Ok z.
Proof.
  intros Hlen Hwa Hsum. unfold Double_gaussian.call.
  destruct (Nat.eq_dec (List.length x) (List.length y)) as [_ | N];
    [| contradiction].
  set (xr := Double_gaussian.array_map2 _ x y).
  set (yr := Double_gaussian.array_map2 _ x y).
  destruct (call_loop_total self xr yr (seq 0 (List.length x)))
    with (st := Double_gaussian.mk_call_state (repeat 0 (List.length x)) 0 0)
    as [st Hst].
  - intros i e _ He.
    destruct (element_eval self (nth i xr 0) (nth i yr 0) Hwa Hsum) as [Ho Hn].
    destruct (Rlt_dec float_max
                (cosh (Double_gaussian.kappa self
                       * (nth i yr 0 - Double_gaussian.y0 self)
                       / (Double_gaussian.width self
                          + Double_gaussian.wavelength self)) ^ 2)) as [O | O].
    + rewrite Ho in He by (left; exact O). injection He as <-. reflexivity.
    + destruct (Rlt_dec float_max
                  (((nth i xr 0 - Double_gaussian.x0 self)
                    / Double_gaussian.wavelength self) ^ 2)) as [O1 | O1].
      * rewrite Ho in He by (right; left; exact O1).
        injection He as <-. reflexivity.
      * destruct (Rlt_dec float_max
                    (((nth i xr 0 - Double_gaussian.dx self
                       - Double_gaussian.x0 self)
                      / Double_gaussian.wavelength self) ^ 2)) as [O2 | O2].
        -- rewrite Ho in He by (right; right; exact O2).
           injection He as <-. reflexivity.
        -- rewrite Hn in He by (intros [H | [H | H]]; contradiction).
           discriminate.
  - exists (Double_gaussian.z st). rewrite Hst. reflexivity.
Qed.

Lemma singleton_of_length (z : list R) :
  List.length z = 1%nat -> z = [nth 0 z 0].
Proof.
  destruct z as [| v [| w z]]; simpl; intros H; try discriminate. reflexivity.
Qed.

Lemma single_point_call (self : Double_gaussian.t) (px py : R) :
  Double_gaussian.wavelength self <> 0 ->
  Double_gaussian.width self + Double_gaussian.wavelength self <> 0 ->
  Double_gaussian.call self [px] [py] = Ok [value_at self (px, py)].
Proof.
  intros Hwa Hsum.
  destruct (call_total self [px] [py] eq_refl Hwa Hsum) as [z Hz].
  destruct (call_inv self [px] [py] z Hz) as (_ & Hl & Hnth).
  rewrite Hz, (singleton_of_length z Hl), (Hnth 0%nat) by (simpl; lia).
  reflexivity.
Qed.

(** *** The loop of [__call__] as a traversal *)

Lemma traverse_app {A B : Type} (f : A -> result B) (l1 l2 : list A) :
  traverse f (l1 ++ l2)
  = (b1 <- traverse f l1 ;; b2 <- traverse f l2 ;; Ok (b1 ++ b2)).
Proof.
  induction l1 as [| a l1 IH]; cbn [traverse app bind].
  - destruct (traverse f l2); reflexivity.
  - destruct (f a) as [b |]; cbn [bind]; [| reflexivity].
    rewrite IH. destruct (traverse f l1) as [b1 |]; cbn [bind]; [| reflexivity].
    destruct (traverse f l2); reflexivity.
Qed.

Lemma traverse_error {A B : Type} (f : A -> result B) (l : list A) (e : exn) :
  traverse f l = Err e -> exists a, In a l /\ f a = Err e.
Proof.
  induction l as [| a l IH]; cbn [traverse]; intros H; [discriminate |].
  destruct (f a) as [b |] eqn:Ea; cbn [bind] in H.
  - destruct (traverse f l) as [bs |]; cbn [bind] in H; [discriminate |].
    destruct IH as (a' & Hin & Ha'); [exact H |].
    exists a'. split; [right; exact Hin | exact Ha'].
  - exists a. split; [left; reflexivity | injection H as <-; exact Ea].
Qed.

Lemma traverse_ext_in {A B : Type} (f g : A -> result B) (l : list A) :
  (forall a, In a l -> f a = g a) -> traverse f l = traverse g l.
Proof.
  induction l as [| a l IH]; intros H; [reflexivity |].
  cbn [traverse]. rewrite (H a) by (left; reflexivity).
  rewrite IH by (intros a' Ha'; apply H; right; exact Ha'). reflexivity.
Qed.

Lemma traverse_map {A B C : Type} (f : B -> result C) (g : A -> B) (l : list A) :
  traverse f (map g l) = traverse (fun a => f (g a)) l.
Proof.
  induction l as [| a l IH]; [reflexivity |].
  cbn [traverse map]. rewrite IH. reflexivity.
Qed.

Lemma set_item_middle (done rest : list R) (a v : R) :
  Double_gaussian.set_item (done ++ a :: rest) (List.length done) v
  = done ++ v :: rest.
Proof.
  induction done as [| d done IH]; simpl; [reflexivity |].
  rewrite IH. reflexivity.
Qed.

Lemma nth_map_middle {A : Type} (g : A -> R) (pre todo : list A) (p : A) :
  nth (List.length pre) (map g (pre ++ p :: todo)) 0 = g p.
Proof.
  rewrite map_app. rewrite app_nth2 by (rewrite length_map; lia).
  rewrite length_map, Nat.sub_diag. reflexivity.
Qed.

(** The index loop with its in-place updates leaves in [z] what a
    left-to-right traversal of the points computes; the running bounds
    [maxz] and [minz] play no part in it. *)
Lemma call_loop_traverse (self : Double_gaussian.t) (fx fy : R * R -> R) :
  (forall p, fx p = fst (to_native self p)) ->
  (forall p, fy p = snd (to_native self p)) ->
  forall (todo pre : list (R * R)) (done : list R) (mx mn : R),
  List.length done = List.length pre ->
  (st <- Double_gaussian.call_loop self (map fx (pre ++ todo))
           (map fy (pre ++ todo))
           (Double_gaussian.mk_call_state
              (done ++ repeat 0 (List.length todo)) mx mn)
           (seq (List.length pre) (List.length todo)) ;;
   Ok (Double_gaussian.z st))
  = (vs <- traverse (point_value self) todo ;; Ok (done ++ vs)).
Proof.
  intros Hfx Hfy.
  induction todo as [| p todo IH]; intros pre done mx mn Hlen.
  - reflexivity.
  - cbn [List.length seq repeat Double_gaussian.call_loop traverse].
    unfold Double_gaussian.call_body. unfold point_value at 1.
    rewrite !nth_map_middle, Hfx, Hfy.
    cbn [Double_gaussian.z Double_gaussian.maxz Double_gaussian.minz].
    assert (Hpre : pre ++ p :: todo = (pre ++ [p]) ++ todo)
      by (rewrite <- app_assoc; reflexivity).
    assert (Hs : S (List.length pre) = List.length (pre ++ [p]))
      by (rewrite length_app; simpl; lia).
    destruct (Double_gaussian.element self (fst (to_native self p))
                (snd (to_native self p))) as [v | e].
    + cbn [bind]. rewrite <- Hlen, set_item_middle, Hlen.
      replace (done ++ v :: repeat 0 (List.length todo))
        with ((done ++ [v]) ++ repeat 0 (List.length todo))
        by (rewrite <- app_assoc; reflexivity).
      rewrite Hpre, Hs, IH by (rewrite !length_app; simpl; lia).
      destruct (traverse (point_value self) todo); cbn [bind];
        [rewrite <- app_assoc |]; reflexivity.
    + destruct e; cbn [bind]; try reflexivity.
      replace (done ++ 0 :: repeat 0 (List.length todo))
        with ((done ++ [0]) ++ repeat 0 (List.length todo))
        by (rewrite <- app_assoc; reflexivity).
      rewrite Hpre, Hs, IH by (rewrite !length_app; simpl; lia).
      destruct (traverse (point_value self) todo); cbn [bind];
        [rewrite <- app_assoc |]; reflexivity.
Qed.

Lemma call_as_traverse (self : Double_gaussian.t) (x y : list R) :
  List.length x = List.length y ->
  Double_gaussian.call self x y = traverse (point_value self) (combine x y).
Proof.
  intros Hlen. unfold Double_gaussian.call.
  destruct (Nat.eq_dec (List.length x) (List.length y)) as [_ | N];
    [| contradiction].
  unfold Double_gaussian.array_map2.
  assert (Hn : List.length x = List.length (combine x y))
    by (rewrite length_combine, <- Hlen, Nat.min_id; reflexivity).
  rewrite Hn.
  match goal with
  | |- bind (Double_gaussian.call_loop _ (map ?fx _) (map ?fy _) _ _) _ = _ =>
      pose proof (call_loop_traverse self fx fy) as H
  end.
  specialize (H ltac:(intros [px py];
                      destruct (to_native_coordinates self px py) as [E _];
                      cbv zeta in E; rewrite E; reflexivity)
                ltac:(intros [px py];
                      destruct (to_native_coordinates self px py) as [_ E];
                      cbv zeta in E; rewrite E; reflexivity)
                (combine x y) [] [] 0 0 eq_refl).
  cbn [app List.length] in H. rewrite H.
  destruct (traverse (point_value self) (combine x y)); reflexivity.
Qed.

Lemma value_at_overflow (self : Double_gaussian.t) (p : R * R) :
  Double_gaussian.wavelength self <> 0 ->
  Double_gaussian.width self + Double_gaussian.wavelength self <> 0 ->
  overflow_at self p ->
  Double_gaussian.element self (fst (to_native self p)) (snd (to_native self p))
  = Err OverflowError
  /\ value_at self p = 0.
Proof.
  intros Hwa Hsum Ho. unfold value_at.
  destruct (element_eval self (fst (to_native self p)) (snd (to_native self p))
              Hwa Hsum) as [H _].
  rewrite (H Ho). auto.
Qed.

Lemma value_at_in_range (self : Double_gaussian.t) (p : R * R) :
  Double_gaussian.wavelength self <> 0 ->
  Double_gaussian.width self + Double_gaussian.wavelength self <> 0 ->
  ~ overflow_at self p ->
  value_at self p = surface self p.
Proof.
  intros Hwa Hsum Ho. unfold value_at, surface.
  destruct (element_eval self (fst (to_native self p)) (snd (to_native self p))
              Hwa Hsum) as [_ H].
  rewrite (H Ho). reflexivity.
Qed.

(** *** A unit evaluator at the origin *)

Lemma unit_evaluator_wavelength : Double_gaussian.wavelength unit_evaluator <> 0.
Proof. cbn. lra. Qed.

Lemma unit_evaluator_divisor :
  Double_gaussian.width unit_evaluator + Double_gaussian.wavelength unit_evaluator
  <> 0.
Proof. cbn. lra. Qed.

Lemma to_native_unrotated (self : Double_gaussian.t) (p : R * R) :
  Double_gaussian.alpha self = 0 -> to_native self p = p.
Proof.
  intros Ha. destruct p as [px py].
  unfold to_native, rotate. cbn [fst snd].
  rewrite Ha, Rmult_0_l, cos_0, sin_0.
  f_equal; ring.
Qed.

Lemma exp_ge_pow2 (n : nat) : 2 ^ n <= exp (INR n).
Proof.
  induction n as [| n IH].
  - simpl. rewrite exp_0. lra.
  - rewrite S_INR, exp_plus. simpl pow.
    pose proof (exp_ineq1_le 1) as H1.
    pose proof (exp_pos (INR n)) as Hp.
    assert (0 <= 2 ^ n) by (apply pow_le; lra).
    rewrite (Rmult_comm 2). apply Rmult_le_compat; lra.
Qed.

Lemma cosh_2000_overflows : float_max < cosh 2000.
Proof.
  unfold cosh.
  pose proof (exp_ge_pow2 2000) as H.
  replace (INR 2000) with 2000 in H by (rewrite INR_IZR_INZ; reflexivity).
  pose proof (exp_pos (Ropp 2000)) as Hn.
  assert (Hf : 2 * float_max < 2 ^ 2000).
  { unfold float_max. rewrite <- mult_IZR.
    rewrite pow_IZR. apply IZR_lt.
    vm_compute. reflexivity. }
  generalize dependent (2 ^ 2000). intros P HP HfP. lra.
Qed.

Lemma unit_evaluator_far_point : overflow_at unit_evaluator (0, 2000).
Proof.
  unfold overflow_at. rewrite to_native_unrotated by reflexivity.
  left. cbn.
  replace (1 * (2000 - 0) / (0 + 1)) with 2000 by field.
  pose proof cosh_2000_overflows as H. pose proof (cosh_ge_1 2000) as H1.
  replace (cosh 2000 * (cosh 2000 * 1)) with (cosh 2000 * cosh 2000) by ring.
  nra.
Qed.

Lemma unit_evaluator_origin : ~ overflow_at unit_evaluator (0, 0).
Proof.
  unfold overflow_at. rewrite to_native_unrotated by reflexivity.
  unfold overflow_native. cbn.
  replace (1 * (0 - 0) / (0 + 1)) with 0 by field.
  replace ((0 - 0) / 1) with 0 by field.
  replace ((0 - 0 - 0) / 1) with 0 by field.
  rewrite cosh_0. pose proof float_max_lower as Hf.
  intros [H | [H | H]]; lra.
Qed.

(** *** An evaluator of wavelength zero *)

(** At the origin the element expression reaches the division by the
    wavelength; far out on the [y] axis [cosh] overflows before it. *)
Lemma zero_wavelength_origin :
  Double_gaussian.element zero_wavelength_evaluator 0 0 = Err ZeroDivisionError.
Proof.
  unfold Double_gaussian.element.
  cbn [zero_wavelength_evaluator Double_gaussian.kappa Double_gaussian.y0
       Double_gaussian.width Double_gaussian.wavelength Double_gaussian.scale
       Double_gaussian.x0 Double_gaussian.dx].
  rewrite py_div_ok by lra. cbn [bind].
  replace (1 * (0 - 0) / (1 + 0)) with 0 by field.
  unfold math_cosh. rewrite cosh_0, range_checked_unit by lra. cbn [bind].
  rewrite py_pow_one. cbn [bind].
  rewrite py_div_ok by lra. cbn [bind].
  rewrite py_div_zero. reflexivity.
Qed.

Lemma zero_wavelength_far_point :
  Double_gaussian.element zero_wavelength_evaluator 0 2000 = Err OverflowError.
Proof.
  unfold Double_gaussian.element.
  cbn [zero_wavelength_evaluator Double_gaussian.kappa Double_gaussian.y0
       Double_gaussian.width Double_gaussian.wavelength].
  rewrite py_div_ok by lra. cbn [bind].
  replace (1 * (2000 - 0) / (1 + 0)) with 2000 by field.
  unfold math_cosh.
  rewrite range_checked_overflow; [reflexivity |].
  pose proof cosh_2000_overflows as H. pose proof (cosh_ge_1 2000) as H1.
  rewrite Rabs_pos_eq; lra.
Qed.

(** *** A quarter turn *)

Lemma quarter_turn : cos (90 * (PI / 180)) = 0 /\ sin (90 * (PI / 180)) = 1.
Proof.
  replace (90 * (PI / 180)) with (PI / 2) by field.
  split; [apply cos_PI2 | apply sin_PI2].
Qed.

(** Rotating by [-alpha] in the sense of the source is what [__call__]
    does to a point: it turns it anti-clockwise by [alpha]. *)
Lemma to_native_clockwise (self : Double_gaussian.t) (p : R * R) :
  rotate_clockwise (- Double_gaussian.alpha self)
    (Double_gaussian.x0 self, Double_gaussian.y0 self) p
  = to_native self p.
Proof.
  unfold rotate_clockwise, to_native. rewrite Ropp_involutive. reflexivity.
Qed.

(** The evaluator with [alpha = 90] sees the point [(0, 1)] at the rotated
    coordinates [(-1, 0)], and the origin at itself. *)
Lemma quarter_turn_native :
  to_native (with_alpha offset_evaluator 90) (0, 1) = (-1, 0)
  /\ to_native (with_alpha offset_evaluator 90) (0, 0) = (0, 0).
Proof.
  destruct quarter_turn as [Hc Hs].
  unfold to_native, rotate.
  cbn [with_alpha offset_evaluator Double_gaussian.alpha Double_gaussian.x0
       Double_gaussian.y0 fst snd].
  rewrite Hc, Hs. split; f_equal; ring.
Qed.

(** The unit-scale surface with lobes at [0] and [1], on the east-west
    axis. *)
Lemma offset_evaluator_native (a xr : R) :
  surface_native (with_alpha offset_evaluator a) xr 0
  = - (exp (- xr ^ 2) - exp (- (xr - 1) ^ 2))
  /\ (xr ^ 2 <= 4 ->
      ~ overflow_native (with_alpha offset_evaluator a) xr 0).
Proof.
  unfold surface_native, overflow_native.
  cbn [with_alpha offset_evaluator Double_gaussian.scale Double_gaussian.kappa
       Double_gaussian.y0 Double_gaussian.width Double_gaussian.wavelength
       Double_gaussian.x0 Double_gaussian.kappad Double_gaussian.dx].
  replace (1 * (0 - 0) / (0 + 1)) with 0 by field. rewrite cosh_0, pow1.
  replace ((xr - 0) / 1) with xr by field.
  replace ((xr - 1 - 0) / 1) with (xr - 1) by field.
  split; [field |].
  intros Hx. pose proof float_max_lower as Hf.
  assert (Hx1 : (xr - 1) ^ 2 <= 9) by (rewrite pow2_mult in *; nra).
  intros [H | [H | H]]; lra.
Qed.

(** C1 (as amended).  For equal-length sequences [x] and [y], and an
    evaluator whose divisors [wavelength] and [width + wavelength] are not
    zero, [__call__] returns a sequence of the same length.  Its [i]-th
    element, when no overflow occurs, is
    [-scale / cosh(kappa*(yr-y0)/(width+wavelength))^2
      * (exp(-((xr-x0)/wavelength)^2) - kappad*exp(-((xr-dx-x0)/wavelength)^2))]
    at [(xr, yr)], the point [(x_i, y_i)] rotated by [-alpha] degrees about
    [(x0, y0)], angles being measured clockwise as the source measures
    [alpha]: [xr = (x_i-x0)*cos(alpha) - (y_i-y0)*sin(alpha) + x0] and
    [yr = (x_i-x0)*sin(alpha) + (y_i-y0)*cos(alpha) + y0].  Each element
    depends only on [(x_i, y_i)] and the evaluator: the same point gives the
    same value at any index of any call. *)
Theorem call_evaluates_surface (self : Double_gaussian.t) (x y : list R) :
  List.length x = List.length y ->
  Double_gaussian.wavelength self <> 0 ->
  Double_gaussian.width self + Double_gaussian.wavelength self <> 0 ->
  exists z,
    Double_gaussian.call self x y = Ok z
    /\ List.length z = List.length x
    /\ (forall i, (i < List.length x)%nat ->
          let pr := rotate_clockwise (- Double_gaussian.alpha self)
                      (Double_gaussian.x0 self, Double_gaussian.y0 self)
                      (nth i x 0, nth i y 0) in
          let cosa := math_cos (math_radians (Double_gaussian.alpha self)) in
          let sina := math_sin (math_radians (Double_gaussian.alpha self)) in
          pr = (((nth i x 0 - Double_gaussian.x0 self) * cosa
                 - (nth i y 0 - Double_gaussian.y0 self) * sina)
                + Double_gaussian.x0 self,
                ((nth i x 0 - Double_gaussian.x0 self) * sina
                 + (nth i y 0 - Double_gaussian.y0 self) * cosa)
                + Double_gaussian.y0 self)
          /\ (~ overflow_native self (fst pr) (snd pr) ->
              nth i z 0 = surface_native self (fst pr) (snd pr)))
    /\ (forall x' y' z' i j,
          Double_gaussian.call self x' y' = Ok z' ->
          (i < List.length x)%nat -> (j < List.length x')%nat ->
          nth i x 0 = nth j x' 0 -> nth i y 0 = nth j y' 0 ->
          nth i z 0 = nth j z' 0).
Proof.
  intros Hlen Hwa Hsum.
  destruct (call_total self x y Hlen Hwa Hsum) as [z Hz].
  exists z. split; [exact Hz |].
  destruct (call_inv self x y z Hz) as (_ & Hl & Hnth).
  split; [exact Hl |]. split.
  - intros i Hi pr cosa sina.
    assert (Epr : pr = to_native self (nth i x 0, nth i y 0))
      by apply to_native_clockwise.
    split.
    + destruct (to_native_coordinates self (nth i x 0) (nth i y 0)) as [E1 E2].
      cbv zeta in E1, E2. unfold cosa, sina. rewrite <- E1, <- E2, Epr.
      apply surjective_pairing.
    + intros Hno. rewrite (Hnth i Hi), Epr in *.
      apply value_at_in_range; assumption.
  - intros x' y' z' i j Hz' Hi Hj Ex Ey.
    destruct (call_inv self x' y' z' Hz') as (_ & _ & Hnth').
    rewrite (Hnth i Hi), (Hnth' j Hj), Ex, Ey. reflexivity.
Qed.

Lemma call_evaluates_surface_witness :
  Double_gaussian.call (with_alpha offset_evaluator 90) [0; 0] [1; 0]
  = Ok [- (exp (- (1)) - exp (- (4))); - (1 - exp (- (1)))].
Proof.
  destruct (call_evaluates_surface (with_alpha offset_evaluator 90)
              [0; 0] [1; 0] eq_refl)
    as (z & Hz & Hl & Hval & _); [cbn; lra | cbn; lra |].
  rewrite Hz. f_equal.
  destruct quarter_turn_native as [Hn1 Hn0].
  destruct z as [| v0 [| v1 [| v2 z]]]; try discriminate Hl.
  destruct (Hval 0%nat Nat.lt_0_2) as [_ H0].
  destruct (Hval 1%nat (Nat.lt_succ_diag_r 1)) as [_ H1].
  cbv zeta in H0, H1. cbn [nth] in H0, H1.
  rewrite to_native_clockwise in H0, H1.
  rewrite Hn1 in H0. rewrite Hn0 in H1. cbn [fst snd] in H0, H1.
  destruct (offset_evaluator_native 90 (-1)) as [Ev0 Hno0].
  destruct (offset_evaluator_native 90 0) as [Ev1 Hno1].
  rewrite H0 by (apply Hno0; simpl; lra).
  rewrite H1 by (apply Hno1; simpl; lra).
  rewrite Ev0, Ev1.
  replace (- (-1) ^ 2) with (- (1)) by (simpl; ring).
  replace (- (-1 - 1) ^ 2) with (- (4)) by (simpl; ring).
  replace (- 0 ^ 2) with 0 by (simpl; ring).
  replace (- (0 - 1) ^ 2) with (- (1)) by (simpl; ring).
  rewrite exp_0. reflexivity.
Defined.

(** C1, as stated, fails for an evaluator with a zero divisor: on the
    equal-length sequences [[0]] and [[0]], [__call__] returns no sequence,
    it raises [ZeroDivisionError], when [wavelength] is zero and when
    [width + wavelength] is zero. *)
Lemma call_zero_divisor_counterexample :
  Double_gaussian.call zero_wavelength_evaluator [0] [0] = Err ZeroDivisionError
  /\ Double_gaussian.call zero_sum_evaluator [0] [0] = Err ZeroDivisionError.
Proof.
  split; rewrite call_as_traverse by reflexivity;
    cbn [combine traverse]; unfold point_value;
    rewrite to_native_unrotated by reflexivity; cbn [fst snd].
  - rewrite zero_wavelength_origin. reflexivity.
  - unfold Double_gaussian.element.
    cbn [zero_sum_evaluator Double_gaussian.kappa Double_gaussian.y0
         Double_gaussian.width Double_gaussian.wavelength].
    replace (-2 + 2) with 0 by lra. rewrite py_div_zero. reflexivity.
Qed.

Lemma unit_evaluator_far_point_finite :
  finite_quotients_at unit_evaluator (0, 2000).
Proof.
  unfold finite_quotients_at. rewrite to_native_unrotated by reflexivity.
  unfold finite_quotients_native. cbn.
  replace (1 * (2000 - 0) / (0 + 1)) with 2000 by field.
  replace ((0 - 0) / 1) with 0 by field.
  replace ((0 - 0 - 0) / 1) with 0 by field.
  pose proof float_max_lower as Hf.
  rewrite Rabs_R0, (Rabs_pos_eq 2000) by lra. lra.
Qed.

Lemma unit_evaluator_peak : surface unit_evaluator (0, 0) = -1.
Proof.
  unfold surface. rewrite to_native_unrotated by reflexivity.
  unfold surface_native. cbn.
  replace (1 * (0 - 0) / (0 + 1)) with 0 by field.
  replace ((0 - 0) / 1) with 0 by field.
  replace ((0 - 0 - 0) / 1) with 0 by field.
  rewrite cosh_0.
  replace (- (0 * (0 * 1))) with 0 by ring. rewrite exp_0. field.
Qed.

(** C6 (as amended).  For an evaluator whose divisors [wavelength] and
    [width + wavelength] are not zero, [__call__] returns on every pair of
    equal-length sequences: no exception leaves it.  Every element for which
    the cosh-squared factor, or the square under either exponential, leaves
    the float range -- the quotients of the expression being finite floats
    -- raises [OverflowError] inside the [try]; the exception is swallowed
    and the value returned for that element is exactly the initial [0].
    Every element for which nothing leaves the range holds its computed
    value. *)
Theorem overflow_elements_stay_zero (self : Double_gaussian.t) (x y : list R) :
  List.length x = List.length y ->
  Double_gaussian.wavelength self <> 0 ->
  Double_gaussian.width self + Double_gaussian.wavelength self <> 0 ->
  exists z,
    Double_gaussian.call self x y = Ok z
    /\ List.length z = List.length x
    /\ forall i, (i < List.length x)%nat ->
         (finite_quotients_at self (nth i x 0, nth i y 0) ->
          overflow_at self (nth i x 0, nth i y 0) ->
          Double_gaussian.element self
            (fst (to_native self (nth i x 0, nth i y 0)))
            (snd (to_native self (nth i x 0, nth i y 0))) = Err OverflowError
          /\ nth i z 0 = 0)
         /\ (~ overflow_at self (nth i x 0, nth i y 0) ->
             nth i z 0 = surface self (nth i x 0, nth i y 0)).
Proof.
  intros Hlen Hwa Hsum.
  destruct (call_total self x y Hlen Hwa Hsum) as [z Hz].
  exists z. split; [exact Hz |].
  destruct (call_inv self x y z Hz) as (_ & Hl & Hnth).
  split; [exact Hl |].
  intros i Hi. rewrite (Hnth i Hi). split.
  - intros _ Ho. apply value_at_overflow; assumption.
  - intros Hno. apply value_at_in_range; assumption.
Qed.

Lemma overflow_elements_stay_zero_witness :
  Double_gaussian.call unit_evaluator [0; 0] [0; 2000] = Ok [-1; 0].
Proof.
  destruct (overflow_elements_stay_zero unit_evaluator [0; 0] [0; 2000] eq_refl
              unit_evaluator_wavelength unit_evaluator_divisor)
    as (z & Hz & Hl & Hnth).
  rewrite Hz. f_equal.
  destruct z as [| v0 [| v1 [| v2 z]]]; try discriminate Hl.
  destruct (Hnth 0%nat Nat.lt_0_2) as [_ H0].
  destruct (Hnth 1%nat (Nat.lt_succ_diag_r 1)) as [H1 _].
  cbn [nth] in H0, H1.
  rewrite (H0 unit_evaluator_origin), unit_evaluator_peak.
  destruct (H1 unit_evaluator_far_point_finite unit_evaluator_far_point)
    as [_ ->].
  reflexivity.
Defined.

(** C6, as stated, fails for an evaluator of wavelength zero: the element
    at [(0, 2000)] overflows in [cosh], yet the call on the points
    [(0, 2000)] and [(0, 0)] does not return that element as [0]: the
    second point divides by the wavelength, and the [ZeroDivisionError],
    which the [try] does not catch, leaves the call. *)
Lemma overflow_zero_wavelength_counterexample :
  Double_gaussian.element zero_wavelength_evaluator
    (fst (to_native zero_wavelength_evaluator (0, 2000)))
    (snd (to_native zero_wavelength_evaluator (0, 2000))) = Err OverflowError
  /\ Double_gaussian.call zero_wavelength_evaluator [0; 0] [2000; 0]
     = Err ZeroDivisionError.
Proof.
  split.
  - rewrite to_native_unrotated by reflexivity. cbn [fst snd].
    exact zero_wavelength_far_point.
  - rewrite call_as_traverse by reflexivity.
    cbn [combine traverse]. unfold point_value.
    rewrite !to_native_unrotated by reflexivity. cbn [fst snd].
    rewrite zero_wavelength_far_point, zero_wavelength_origin. reflexivity.
Qed.

(** ** Rotation *)

Lemma to_native_of_rotated (self : Double_gaussian.t) (a : R) (p : R * R) :
  to_native (with_alpha self a)
    (rotate (- a) (Double_gaussian.x0 self, Double_gaussian.y0 self) p) = p.
Proof.
  destruct p as [px py].
  unfold to_native, with_alpha, rotate.
  cbn [fst snd Double_gaussian.alpha Double_gaussian.x0 Double_gaussian.y0].
  rewrite Ropp_mult_distr_l_reverse, cos_neg, sin_neg.
  set (co := cos (a * (PI / 180))). set (si := sin (a * (PI / 180))).
  assert (H1 : si * si + co * co = 1)
    by (pose proof (sin2_cos2 (a * (PI / 180))) as H;
        unfold Rsqr in H; exact H).
  f_equal.
  - replace (Double_gaussian.x0 self
             + ((Double_gaussian.x0 self
                 + ((px - Double_gaussian.x0 self) * co
                    - (py - Double_gaussian.y0 self) * - si)
                 - Double_gaussian.x0 self) * co
                - (Double_gaussian.y0 self
                   + ((px - Double_gaussian.x0 self) * - si
                      + (py - Double_gaussian.y0 self) * co)
                   - Double_gaussian.y0 self) * si))
      with (Double_gaussian.x0 self
            + (px - Double_gaussian.x0 self) * (si * si + co * co)) by ring.
    rewrite H1. ring.
  - replace (Double_gaussian.y0 self
             + ((Double_gaussian.x0 self
                 + ((px - Double_gaussian.x0 self) * co
                    - (py - Double_gaussian.y0 self) * - si)
                 - Double_gaussian.x0 self) * si
                + (Double_gaussian.y0 self
                   + ((px - Double_gaussian.x0 self) * - si
                      + (py - Double_gaussian.y0 self) * co)
                   - Double_gaussian.y0 self) * co))
      with (Double_gaussian.y0 self
            + (py - Double_gaussian.y0 self) * (si * si + co * co)) by ring.
    rewrite H1. ring.
Qed.

Lemma call_loop_ext (s1 s2 : Double_gaussian.t) (xr yr : list R)
      (range : list nat) :
  (forall u v, Double_gaussian.element s1 u v = Double_gaussian.element s2 u v) ->
  forall st,
  Double_gaussian.call_loop s1 xr yr st range
  = Double_gaussian.call_loop s2 xr yr st range.
Proof.
  intros He. induction range as [| i rest IH]; intros st; [reflexivity |].
  cbn [Double_gaussian.call_loop]. unfold Double_gaussian.call_body.
  rewrite He.
  destruct (Double_gaussian.element s2 (nth i xr 0) (nth i yr 0)) as [v | e];
    cbn [bind].
  - apply IH.
  - destruct e; cbn [bind]; try reflexivity. apply IH.
Qed.

(** [__call__] sees its arguments only through the rotated coordinates. *)
Lemma call_congruence (s1 s2 : Double_gaussian.t) (x1 y1 x2 y2 : list R) :
  List.length x1 = List.length y1 ->
  List.length x2 = List.length y2 ->
  List.length x1 = List.length x2 ->
  (forall u v, Double_gaussian.element s1 u v = Double_gaussian.element s2 u v) ->
  (forall i, (i < List.length x1)%nat ->
     to_native s1 (nth i x1 0, nth i y1 0) = to_native s2 (nth i x2 0, nth i y2 0)) ->
  Double_gaussian.call s1 x1 y1 = Double_gaussian.call s2 x2 y2.
Proof.
  intros L1 L2 L12 He Hn. unfold Double_gaussian.call.
  destruct (Nat.eq_dec (List.length x1) (List.length y1)) as [_ | N];
    [| contradiction].
  destruct (Nat.eq_dec (List.length x2) (List.length y2)) as [_ | N];
    [| contradiction].
  rewrite <- L12.
  match goal with
  | |- bind (Double_gaussian.call_loop _ ?a ?b _ _) _
       = bind (Double_gaussian.call_loop _ ?c ?d _ _) _ =>
      assert (Ex : a = c); [| assert (Ey : b = d)]
  end.
  - apply (nth_ext _ _ 0 0).
    + rewrite !array_map2_length by assumption. exact L12.
    + intros i Hi. rewrite array_map2_length in Hi by assumption.
      rewrite !array_map2_nth by (try assumption; lia).
      destruct (to_native_coordinates s1 (nth i x1 0) (nth i y1 0)) as [E1 _].
      destruct (to_native_coordinates s2 (nth i x2 0) (nth i y2 0)) as [E2 _].
      cbv zeta in E1, E2. rewrite <- E1, <- E2, (Hn i Hi). reflexivity.
  - apply (nth_ext _ _ 0 0).
    + rewrite !array_map2_length by assumption. exact L12.
    + intros i Hi. rewrite array_map2_length in Hi by assumption.
      rewrite !array_map2_nth by (try assumption; lia).
      destruct (to_native_coordinates s1 (nth i x1 0) (nth i y1 0)) as [_ E1].
      destruct (to_native_coordinates s2 (nth i x2 0) (nth i y2 0)) as [_ E2].
      cbv zeta in E1, E2. rewrite <- E1, <- E2, (Hn i Hi). reflexivity.
  - rewrite Ex, Ey. rewrite (call_loop_ext s1 s2) by exact He. reflexivity.
Qed.

(** C7.  Take two evaluators that differ only in [alpha], one with
    [alpha = 0] and one with [alpha = a].  Evaluating the second at the
    images of the points [ps] under the rotation by [a] degrees about
    [(x0, y0)] -- in the sense in which the source measures [alpha],
    clockwise -- gives exactly what the first gives at the points [ps]
    themselves (in exact arithmetic). *)
Theorem rotation_invariance (self : Double_gaussian.t) (a : R)
        (ps : list (R * R)) :
  let c := (Double_gaussian.x0 self, Double_gaussian.y0 self) in
  Double_gaussian.call (with_alpha self a)
    (map fst (map (rotate_clockwise a c) ps))
    (map snd (map (rotate_clockwise a c) ps))
  = Double_gaussian.call (with_alpha self 0) (map fst ps) (map snd ps).
Proof.
  intros c. unfold rotate_clockwise. apply call_congruence.
  - rewrite !length_map. reflexivity.
  - rewrite !length_map. reflexivity.
  - rewrite !length_map. reflexivity.
  - intros u v. reflexivity.
  - intros i Hi. rewrite !length_map in Hi.
    rewrite (to_native_unrotated (with_alpha self 0)) by reflexivity.
    rewrite !(nth_map_in _ _ _ _ (0, 0)) by (rewrite ?length_map; exact Hi).
    rewrite <- surjective_pairing.
    unfold c. rewrite to_native_of_rotated. apply surjective_pairing.
Qed.

(** ** The derivation procedures *)

(** C9.  The evaluator returned by [slide_tsunami], and likewise by
    [slump_tsunami], does not depend on the [dx] and [frictionco] arguments:
    [dx] is recomputed before use and [frictionco] is never read. *)
Theorem derivation_ignores_dx_and_frictionco :
  (forall (a : Slide.args) (dx1 dx2 : option R) (f1 f2 : R),
     slide_tsunami (Slide.with_dx_frictionco a dx1 f1)
     = slide_tsunami (Slide.with_dx_frictionco a dx2 f2))
  /\ (forall (a : Slump.args) (dx1 dx2 : option R) (f1 f2 : R),
        slump_tsunami (Slump.with_dx_frictionco a dx1 f1)
        = slump_tsunami (Slump.with_dx_frictionco a dx2 f2)).
Proof.
  split; intros a dx1 dx2 f1 f2; reflexivity.
Qed.

Lemma py_div_error (a b : R) (e : exn) :
  py_div a b = Err e -> e = ZeroDivisionError.
Proof.
  unfold py_div. destruct (Req_dec_T b 0); [| discriminate].
  intros H. injection H as <-. reflexivity.
Qed.

Lemma math_sqrt_error (x : R) (e : exn) :
  math_sqrt x = Err e -> e = ValueError.
Proof.
  unfold math_sqrt. destruct (Rlt_dec x 0); [| discriminate].
  intros H. injection H as <-. reflexivity.
Qed.

Lemma math_sqrt_inv (x v : R) : math_sqrt x = Ok v -> 0 <= x /\ v = sqrt x.
Proof.
  unfold math_sqrt. destruct (Rlt_dec x 0); [discriminate |].
  intros H. injection H as <-. split; [lra | reflexivity].
Qed.

Lemma slide_a0_error (a : Slide.args) (e : exn) :
  Slide.a0 a = Err e -> e = ZeroDivisionError.
Proof.
  unfold Slide.a0.
  destruct (py_div (Slide.gamma a - 1) (Slide.gamma a + Slide.massco a))
    as [r1 | e1] eqn:E1; cbn [bind].
  - destruct (py_div (Slide.tanp a) (Slide.tant a)) as [r2 | e2] eqn:E2;
      cbn [bind]; [discriminate |].
    intros H. injection H as <-. eapply py_div_error. exact E2.
  - intros H. injection H as <-. eapply py_div_error. exact E1.
Qed.

Lemma slide_ut_error (a : Slide.args) (e : exn) :
  Slide.ut a = Err e -> numeric_domain_error e.
Proof.
  unfold Slide.ut, numeric_domain_error.
  destruct (py_div (Slide.length a * Slide.sint a) (Slide.depth a))
    as [r1 | e1] eqn:E1; cbn [bind];
    [| intros H; injection H as <-; left; eapply py_div_error; exact E1].
  destruct (py_div (math_pi * (Slide.gamma a - 1)) (2 * Slide.dragco a))
    as [r2 | e2] eqn:E2; cbn [bind];
    [| intros H; injection H as <-; left; eapply py_div_error; exact E2].
  destruct (py_div (Slide.tanp a) (Slide.tant a)) as [r3 | e3] eqn:E3;
    cbn [bind];
    [| intros H; injection H as <-; left; eapply py_div_error; exact E3].
  intros H. right. eapply math_sqrt_error. exact H.
Qed.

(** The quantity under the square root of [ut] vanishes with [a0] and with
    [length]. *)
Lemma slide_ut_zero (a : Slide.args) (u : R) :
  Slide.a0 a = Ok 0 \/ Slide.length a = 0 ->
  Slide.ut a = Ok u -> u = 0.
Proof.
  intros Hcase. unfold Slide.ut.
  destruct (py_div (Slide.length a * Slide.sint a) (Slide.depth a))
    as [r1 | e1] eqn:E1; cbn [bind]; [| discriminate].
  destruct (py_div (math_pi * (Slide.gamma a - 1)) (2 * Slide.dragco a))
    as [r2 | e2] eqn:E2; cbn [bind]; [| discriminate].
  destruct (py_div (Slide.tanp a) (Slide.tant a)) as [r3 | e3] eqn:E3;
    cbn [bind]; [| discriminate].
  apply py_div_inv in E1 as [Hd ->]. apply py_div_inv in E2 as [Hdr ->].
  intros Hs. apply math_sqrt_inv in Hs as [_ ->].
  assert (P0 : Slide.gravity a * Slide.depth a
               * (Slide.length a * Slide.sint a / Slide.depth a)
               * (math_pi * (Slide.gamma a - 1) / (2 * Slide.dragco a))
               * (1 - r3) = 0).
  { destruct Hcase as [H0 | Hl].
    - unfold Slide.a0 in H0. rewrite E3 in H0.
      destruct (py_div (Slide.gamma a - 1) (Slide.gamma a + Slide.massco a))
        as [q | eq] eqn:Eq; cbn [bind] in H0; [| discriminate].
      injection H0 as H0. apply py_div_inv in Eq as [Hgm ->].
      apply Rmult_integral in H0 as [H0 | H0];
        [apply Rmult_integral in H0 as [H0 | H0];
         [apply Rmult_integral in H0 as [H0 | H0] |] |].
      + rewrite H0. unfold Rdiv. ring.
      + rewrite H0. unfold Rdiv. ring.
      + unfold Rdiv in H0. apply Rmult_integral in H0 as [H0 | H0].
        * rewrite H0. unfold Rdiv. ring.
        * exfalso. revert H0. apply Rinv_neq_0_compat. exact Hgm.
      + rewrite H0. ring.
    - rewrite Hl. unfold Rdiv. ring. }
  rewrite P0. apply sqrt_0.
Qed.

Lemma slide_derive_degenerate (a : Slide.args) :
  Slide.a0 a = Ok 0 \/ Slide.length a = 0 ->
  exists e, Slide.derive a = Err e /\ numeric_domain_error e.
Proof.
  intros Hcase. unfold Slide.derive.
  destruct (Slide.a0 a) as [a0_v | e] eqn:Ha0; cbn [bind];
    [| exists e; split; [reflexivity | left; eapply slide_a0_error; exact Ha0]].
  destruct (Slide.ut a) as [u | e] eqn:Hut; cbn [bind];
    [| exists e; split; [reflexivity | eapply slide_ut_error; exact Hut]].
  assert (Hu : u = 0).
  { apply (slide_ut_zero a u); [| exact Hut].
    destruct Hcase as [H | H]; [left | right; exact H].
    rewrite Ha0. exact H. }
  subst u. rewrite py_pow_2, range_checked_unit by lra. cbn [bind].
  destruct (py_div (0 * 0) a0_v) as [s0 | e] eqn:Hs0; cbn [bind];
    [| exists e; split; [reflexivity | left; eapply py_div_error; exact Hs0]].
  destruct (py_div 0 a0_v) as [t0 | e] eqn:Ht0; cbn [bind];
    [| exists e; split; [reflexivity | left; eapply py_div_error; exact Ht0]].
  destruct Hcase as [H | Hl].
  - exfalso. injection H as ->.
    rewrite py_div_zero in Hs0. discriminate.
  - destruct (math_sqrt (Slide.gravity a * Slide.depth a)) as [rgd | e] eqn:Hr;
      cbn [bind];
      [| exists e; split; [reflexivity | right; eapply math_sqrt_error; exact Hr]].
    rewrite Hl, py_div_zero. cbn [bind].
    exists ZeroDivisionError. split; [reflexivity | left; reflexivity].
Qed.

(** C5.  [slide_tsunami] raises a numeric-domain error
    ([ZeroDivisionError], or [ValueError] from [math.sqrt]) and returns no
    evaluator whenever [a0] evaluates to zero (in particular when
    [tan(psi) = tan(slope)]), or [depth], [length] or [tan(slope)] is zero, or
    [a3D] evaluates to zero. *)
Theorem slide_degenerate_inputs_raise (a : Slide.args) :
  Slide.a0 a = Ok 0
  \/ Slide.tanp a = Slide.tant a
  \/ Slide.depth a = 0
  \/ Slide.length a = 0
  \/ Slide.tant a = 0
  \/ (exists d, Slide.derive a = Ok d /\ Slide.d_a3D d = 0) ->
  exists e, slide_tsunami a = Err e /\ numeric_domain_error e.
Proof.
  intros Hcase.
  assert (Lift : forall e, Slide.derive a = Err e -> slide_tsunami a = Err e)
    by (intros e He; unfold slide_tsunami; rewrite He; reflexivity).
  assert (FromA0 : forall e, Slide.a0 a = Err e ->
                     exists e', slide_tsunami a = Err e'
                                /\ numeric_domain_error e').
  { intros e He. exists e. split.
    - apply Lift. unfold Slide.derive. rewrite He. reflexivity.
    - left. eapply slide_a0_error. exact He. }
  assert (Degenerate : Slide.a0 a = Ok 0 \/ Slide.length a = 0 ->
                       exists e, slide_tsunami a = Err e
                                 /\ numeric_domain_error e).
  { intros H. destruct (slide_derive_degenerate a H) as (e & He & Hdom).
    exists e. split; [apply Lift; exact He | exact Hdom]. }
  assert (TanZero : Slide.tant a = 0 ->
                    exists e, slide_tsunami a = Err e
                              /\ numeric_domain_error e).
  { intros Ht. apply (FromA0 ZeroDivisionError). unfold Slide.a0.
    rewrite Ht, py_div_zero.
    destruct (py_div (Slide.gamma a - 1) (Slide.gamma a + Slide.massco a))
      as [r | e] eqn:E; cbn [bind]; [reflexivity |].
    f_equal. eapply py_div_error. exact E. }
  destruct Hcase as [H | [H | [H | [H | [H | H]]]]].
  - apply Degenerate. left. exact H.
  - destruct (Req_dec_T (Slide.tant a) 0) as [Ht | Ht]; [apply TanZero; exact Ht |].
    destruct (Slide.a0 a) as [v | e] eqn:Ha0; [| apply (FromA0 e); reflexivity].
    apply Degenerate. left. rewrite <- Ha0 at 1. rewrite Ha0. f_equal.
    unfold Slide.a0 in Ha0. rewrite H, (py_div_ok _ _ Ht) in Ha0.
    destruct (py_div (Slide.gamma a - 1) (Slide.gamma a + Slide.massco a))
      as [r | e] eqn:E; cbn [bind] in Ha0; [| discriminate].
    injection Ha0 as <-.
    replace (Slide.tant a / Slide.tant a) with 1 by (field; exact Ht). ring.
  - destruct (Slide.a0 a) as [v | e] eqn:Ha0; [| apply (FromA0 e); reflexivity].
    exists ZeroDivisionError. split; [| left; reflexivity].
    apply Lift. unfold Slide.derive. rewrite Ha0. cbn [bind].
    unfold Slide.ut. rewrite H, py_div_zero. reflexivity.
  - apply Degenerate. right. exact H.
  - apply TanZero. exact H.
  - destruct H as (d & Hd & Hz).
    exists ZeroDivisionError. split; [| left; reflexivity].
    unfold slide_tsunami. rewrite Hd. cbn [bind]. rewrite Hz.
    rewrite lobe_offset_zero_amplitude. reflexivity.
Qed.

Lemma slide_degenerate_inputs_raise_witness :
  (exists e, slide_tsunami (Slide.defaults 1000 0 20) = Err e
             /\ numeric_domain_error e)
  /\ (exists e, slide_tsunami (Slide.defaults 0 100 20) = Err e
                /\ numeric_domain_error e).
Proof.
  split.
  - apply (slide_degenerate_inputs_raise (Slide.defaults 1000 0 20)).
    right. right. left. reflexivity.
  - apply (slide_degenerate_inputs_raise (Slide.defaults 0 100 20)).
    right. right. right. left. reflexivity.
Defined.

(** ** Scale calibration *)

Lemma range_checked_inv (v r : R) :
  range_checked v = Ok r -> r = v /\ Rabs v <= float_max.
Proof.
  unfold range_checked. destruct (Rlt_dec float_max (Rabs v)); [discriminate |].
  intros H. injection H as <-. split; [reflexivity | lra].
Qed.

Lemma g_expr_inv (x0 wa kappad dx x v : R) :
  g_expr x0 wa kappad dx x = Ok v ->
  arith_ok x0 wa dx x /\ v = g_shape x0 wa kappad dx x.
Proof.
  intros H.
  assert (Hok : arith_ok x0 wa dx x).
  { unfold g_expr in H.
    destruct (py_div (x - x0) wa) as [q1 |] eqn:E1; cbn [bind] in H;
      [| discriminate].
    apply py_div_inv in E1 as [Hwa ->].
    rewrite py_pow_2, <- pow2_mult in H.
    destruct (range_checked (((x - x0) / wa) ^ 2)) as [s1 |] eqn:E2;
      cbn [bind] in H; [| discriminate].
    apply range_checked_inv in E2 as [-> B1].
    rewrite Rabs_pos_eq in B1 by apply pow2_ge_0.
    destruct (math_exp (- ((x - x0) / wa) ^ 2)) as [e1 |]; cbn [bind] in H;
      [| discriminate].
    rewrite py_div_ok in H by exact Hwa. cbn [bind] in H.
    rewrite py_pow_2, <- pow2_mult in H.
    destruct (range_checked (((x - dx - x0) / wa) ^ 2)) as [s2 |] eqn:E3;
      cbn [bind] in H; [| discriminate].
    apply range_checked_inv in E3 as [-> B2].
    rewrite Rabs_pos_eq in B2 by apply pow2_ge_0.
    repeat split; assumption. }
  split; [exact Hok |].
  rewrite (g_expr_ok _ _ _ _ _ Hok) in H. injection H as <-. reflexivity.
Qed.

(** What [find_min] returns is [g] at some point [xstar]. *)
Lemma find_min_inv (x0 wa kappad dx nmin : R) :
  find_min x0 wa kappad dx = Ok nmin ->
  exists xstar,
    arith_ok x0 wa dx xstar /\ nmin = g_shape x0 wa kappad dx xstar.
Proof.
  unfold find_min.
  destruct (find_min_loop x0 wa kappad dx (mk_fm_state (x0 + 50) 10 0 None))
    as [st |]; cbn [bind]; [| discriminate].
  destruct (fm_xstar st) as [xstar |]; cbn [bind]; [| discriminate].
  destruct (g_expr x0 wa kappad dx xstar) as [g |] eqn:Eg; cbn [bind];
    [| discriminate].
  intros H. injection H as <-.
  apply g_expr_inv in Eg as [Hok ->].
  exists xstar. split; [exact Hok |]. unfold f_ystar. ring.
Qed.

(** The common tail of the two derivation procedures. *)
Lemma calibration_tail_inv
      (a3D_v w width_v x0_v y0_v alpha_v kappa_v kappad_v zsmall_v : R)
      (scale_arg : option R) (checks : result unit) (dg : Double_gaussian.t) :
  (dx <- lobe_offset w a3D_v zsmall_v ;;
   nmin <- find_min x0_v w kappad_v dx ;;
   scale <- match scale_arg with
            | None => py_div a3D_v nmin
            | Some v => Ok v
            end ;;
   _ <- checks ;;
   Double_gaussian.init a3D_v w width_v x0_v y0_v alpha_v kappa_v kappad_v
     zsmall_v (Some dx) scale) = Ok dg ->
  exists dx nmin,
    lobe_offset w a3D_v zsmall_v = Ok dx
    /\ find_min x0_v w kappad_v dx = Ok nmin
    /\ (scale_arg = None -> nmin <> 0)
    /\ dg = Double_gaussian.mk a3D_v w width_v x0_v y0_v alpha_v kappa_v
              kappad_v
              (match scale_arg with None => a3D_v / nmin | Some v => v end)
              dx.
Proof.
  destruct (lobe_offset w a3D_v zsmall_v) as [dx |]; cbn [bind];
    [| discriminate].
  destruct (find_min x0_v w kappad_v dx) as [nmin |] eqn:Ef; cbn [bind];
    [| discriminate].
  intros H. exists dx, nmin. split; [reflexivity |]. split; [exact Ef |].
  destruct scale_arg as [v |].
  - cbn [bind] in H. destruct checks as [[] |]; cbn [bind] in H;
      [| discriminate].
    unfold Double_gaussian.init in H. cbn [bind] in H. injection H as <-.
    split; [discriminate | reflexivity].
  - destruct (py_div a3D_v nmin) as [sc |] eqn:Es; cbn [bind] in H;
      [| discriminate].
    apply py_div_inv in Es as [Hn ->].
    destruct checks as [[] |]; cbn [bind] in H; [| discriminate].
    unfold Double_gaussian.init in H. cbn [bind] in H. injection H as <-.
    split; [intros _; exact Hn | reflexivity].
Qed.

Lemma with_alpha_self (self : Double_gaussian.t) :
  with_alpha self (Double_gaussian.alpha self) = self.
Proof. destruct self. reflexivity. Qed.

(** An evaluator scaled by [a3D / g(xstar)] takes the value [-a3D] at the
    point whose rotated coordinates are [(xstar, y0)]. *)
Lemma calibrated_value (self : Double_gaussian.t) (a3D_v xstar : R) :
  let nmin := g_shape (Double_gaussian.x0 self) (Double_gaussian.wavelength self)
                (Double_gaussian.kappad self) (Double_gaussian.dx self) xstar in
  let p := rotate (- Double_gaussian.alpha self)
             (Double_gaussian.x0 self, Double_gaussian.y0 self)
             (xstar, Double_gaussian.y0 self) in
  arith_ok (Double_gaussian.x0 self) (Double_gaussian.wavelength self)
    (Double_gaussian.dx self) xstar ->
  nmin <> 0 ->
  Double_gaussian.scale self = a3D_v / nmin ->
  Double_gaussian.width self + Double_gaussian.wavelength self <> 0 ->
  Double_gaussian.call self [fst p] [snd p] = Ok [- a3D_v].
Proof.
  intros nmin p (Hwa & B1 & B2) Hn Hsc Hsum.
  destruct (call_total self [fst p] [snd p] eq_refl Hwa Hsum) as [z Hz].
  destruct (call_inv self [fst p] [snd p] z Hz) as (_ & Hl & Hnth).
  rewrite Hz, (singleton_of_length z Hl). f_equal. f_equal.
  rewrite (Hnth 0%nat) by (simpl; lia). cbn [nth].
  rewrite <- surjective_pairing.
  assert (Hnat : to_native self p = (xstar, Double_gaussian.y0 self)).
  { unfold p. rewrite <- (with_alpha_self self) at 1.
    apply to_native_of_rotated. }
  assert (Hzero : Double_gaussian.kappa self
                  * (Double_gaussian.y0 self - Double_gaussian.y0 self)
                  / (Double_gaussian.width self + Double_gaussian.wavelength self)
                  = 0) by (field; exact Hsum).
  assert (Hno : ~ overflow_at self p).
  { unfold overflow_at, overflow_native. rewrite Hnat. cbn [fst snd].
    rewrite Hzero, cosh_0. pose proof float_max_lower as Hf.
    intros [H | [H | H]]; [| lra | lra].
    rewrite pow1 in H. lra. }
  rewrite value_at_in_range by assumption.
  unfold surface, surface_native. rewrite Hnat. cbn [fst snd].
  rewrite Hzero, cosh_0, pow1, Hsc. fold nmin. fold (g_shape (Double_gaussian.x0 self)
    (Double_gaussian.wavelength self) (Double_gaussian.kappad self)
    (Double_gaussian.dx self) xstar). fold nmin.
  field. exact Hn.
Qed.

Lemma calibration_tail_calibrated
      (a3D_v w width_v x0_v y0_v alpha_v kappa_v kappad_v zsmall_v : R)
      (scale_arg : option R) (checks : result unit) (dg : Double_gaussian.t) :
  (dx <- lobe_offset w a3D_v zsmall_v ;;
   nmin <- find_min x0_v w kappad_v dx ;;
   scale <- match scale_arg with
            | None => py_div a3D_v nmin
            | Some v => Ok v
            end ;;
   _ <- checks ;;
   Double_gaussian.init a3D_v w width_v x0_v y0_v alpha_v kappa_v kappad_v
     zsmall_v (Some dx) scale) = Ok dg ->
  calibrated scale_arg a3D_v w x0_v kappad_v zsmall_v dg.
Proof.
  intros H.
  destruct (calibration_tail_inv _ _ _ _ _ _ _ _ _ _ _ _ H)
    as (dx_v & nmin & Hdx & Hmin & Hnz & ->).
  exists dx_v, nmin. cbn.
  repeat (split; [first [assumption | reflexivity] |]).
  intros Hnone Hsum. subst scale_arg.
  destruct (find_min_inv _ _ _ _ _ Hmin) as (xstar & Hok & Hg).
  exists xstar. split; [exact Hg |].
  apply (calibrated_value
           (Double_gaussian.mk a3D_v w width_v x0_v y0_v alpha_v kappa_v
              kappad_v (a3D_v / nmin) dx_v) a3D_v xstar); cbn.
  - exact Hok.
  - rewrite <- Hg. apply Hnz. reflexivity.
  - rewrite <- Hg. reflexivity.
  - exact Hsum.
Qed.

(** C2 (as amended).  For both [slide_tsunami] and [slump_tsunami]: when the
    scale argument is left unset the returned evaluator's [scale] is
    [a3D / nmin] with [nmin = find_min(x0, w, kappad, dx)], and a supplied
    scale is stored unchanged; consequently an evaluator built with the scale
    unset takes the value [-a3D] -- magnitude [|a3D|] exactly -- at the point
    whose rotated coordinates are [(xstar, y0)], where [xstar] is the point
    at which the search stopped and [nmin = g(xstar)]. *)
Theorem scale_calibration :
  (forall (a : Slide.args) (dg : Double_gaussian.t),
     slide_tsunami a = Ok dg ->
     exists d,
       Slide.derive a = Ok d
       /\ calibrated (Slide.scale a) (Slide.d_a3D d) (Slide.d_w d)
            (Slide.x0_rel a) (Slide.kappad a) (Slide.zsmall a) dg)
  /\ (forall (a : Slump.args) (dg : Double_gaussian.t),
        slump_tsunami a = Ok dg ->
        exists d,
          Slump.derive a = Ok d
          /\ calibrated (Slump.scale a) (Slump.d_a3D d) (Slump.d_w d)
               (Slump.x0_rel a) (Slump.kappad a) (Slump.zsmall a) dg).
Proof.
  split; intros a dg H.
  - unfold slide_tsunami in H. cbv zeta in H.
    destruct (Slide.derive a) as [d |]; cbn [bind] in H; [| discriminate].
    exists d. split; [reflexivity |].
    eapply calibration_tail_calibrated. exact H.
  - unfold slump_tsunami in H. cbv zeta in H.
    destruct (Slump.derive a) as [d |]; cbn [bind] in H; [| discriminate].
    exists d. split; [reflexivity |].
    eapply calibration_tail_calibrated. exact H.
Qed.

(** *** A slump calibrated away from its origin *)

Lemma range_checked_small (v : R) :
  0 <= v <= 1000000 -> range_checked v = Ok v.
Proof.
  intros H. apply range_checked_ok. rewrite Rabs_pos_eq by lra.
  pose proof float_max_lower. lra.
Qed.

Lemma sin_right_angle : math_sin (math_radians 90) = 1.
Proof.
  unfold math_sin, math_radians, math_pi.
  replace (90 * (PI / 180)) with (PI / 2) by field. apply sin_PI2.
Qed.

Lemma steep_slump_derive :
  Slump.derive steep_slump
  = Ok (Slump.mk_derived 9.8 4.9 2 1.225 2.45 19.6 0.2244816 0.07336).
Proof.
  unfold Slump.derive, steep_slump, Slump.radius_val, Slump.thickness_val,
    Slump.sint.
  cbn [Slump.length Slump.depth Slump.slope Slump.width Slump.thickness
       Slump.radius Slump.dphi Slump.gravity Slump.gamma Slump.massco bind].
  rewrite sin_right_angle.
  rewrite py_div_ok by lra. cbn [bind].
  replace (9.8 * (2 + 2) / (9.8 * (2 - 1))) with (2 * 2) by lra.
  rewrite math_sqrt_ok by lra. cbn [bind]. rewrite sqrt_square by lra.
  rewrite py_pow_2, range_checked_small by lra. cbn [bind].
  rewrite !py_div_ok by lra. cbn [bind].
  rewrite math_sqrt_ok by lra. cbn [bind]. rewrite sqrt_square by lra.
  replace (9.8 * 1 / 9.8) with 1 by lra.
  replace (9.8 / 9.8) with 1 by lra.
  rewrite !py_pow_one. cbn [bind].
  rewrite math_sqrt_ok by lra. cbn [bind]. rewrite sqrt_1.
  rewrite py_div_ok by lra. cbn [bind].
  f_equal. f_equal; lra.
Qed.

Lemma steep_slump_offset :
  lobe_offset 19.6 0.07336 0.0733 = Ok steep_slump_dx
  /\ 0 <= steep_slump_dx <= 0.25.
Proof.
  unfold steep_slump_dx.
  split; [apply lobe_offset_ok; unfold dx_precondition; lra |].
  unfold dx_formula.
  assert (Hln : 0 <= - ln (0.0733 / 0.07336) <= 0.03 * 0.03).
  { rewrite <- ln_Rinv by lra. split.
    - rewrite <- ln_1. left. apply ln_increasing; lra.
    - pose proof (ln_le_minus_1 (/ (0.0733 / 0.07336))) as H.
      assert (0 < / (0.0733 / 0.07336) <= 1.0009); [| lra].
      replace (/ (0.0733 / 0.07336)) with (0.07336 / 0.0733)
        by (decimal_field; split; discriminate).
      lra. }
  assert (Hs : 0 <= sqrt (- ln (0.0733 / 0.07336)) <= 0.03).
  { split; [apply sqrt_pos |].
    rewrite <- (sqrt_square 0.03) by lra. apply sqrt_le_1; lra. }
  lra.
Qed.

Lemma steep_slump_start : x_at 0 0 = 50.
Proof. unfold x_at, step. simpl. lra. Qed.

(** With a small offset the search stops at its first point, where [g] is
    negative and small. *)
Lemma steep_search (dx_v : R) :
  0 <= dx_v <= 0.25 ->
  find_min 0 19.6 2 dx_v = Ok (g_shape 0 19.6 2 dx_v (x_at 0 0))
  /\ - (2 / 7) <= g_shape 0 19.6 2 dx_v (x_at 0 0) < 0.
Proof.
  intros Hdx.
  assert (Hshape : - (2 / 7) <= g_shape 0 19.6 2 dx_v 50 < 0
                   /\ deriv_val 0 19.6 2 dx_v 50 <= 0
                   /\ arith_ok 0 19.6 dx_v 50).
  { unfold g_shape, deriv_val, arith_ok.
    set (a := (50 - 0) / 19.6). set (b := (50 - dx_v - 0) / 19.6).
    assert (Ha : 2.5 <= a <= 2.6) by (unfold a; lra).
    assert (Hb : 2.5 <= b <= a) by (unfold a, b; lra).
    assert (Hsq : 6 <= b ^ 2 <= a ^ 2 /\ a ^ 2 <= 7)
      by (rewrite !pow2_mult; nra).
    destruct (exp_neg_bound (b ^ 2)) as [Hb0 Hb1]; [lra |].
    assert (Hmono : exp (- a ^ 2) <= exp (- b ^ 2)).
    { destruct (Req_dec_T (a ^ 2) (b ^ 2)) as [-> | Hne]; [lra |].
      left. apply exp_increasing. lra. }
    assert (Hsmall : exp (- b ^ 2) <= / 7)
      by (eapply Rle_trans; [exact Hb1 | apply Rinv_le_contravar; lra]).
    pose proof (exp_pos (- a ^ 2)) as Ha0.
    pose proof float_max_lower as Hf.
    split; [lra |]. split; [| repeat split; lra].
    assert (H1 : (50 - 0) * exp (- a ^ 2) <= 50 * exp (- b ^ 2)) by nra.
    assert (H2 : 2 * 49.75 * exp (- b ^ 2)
                 <= 2 * (50 - dx_v - 0) * exp (- b ^ 2))
      by (apply Rmult_le_compat_r; lra).
    lra. }
  rewrite steep_slump_start. destruct Hshape as (Hg & Hd & Hok).
  split; [| exact Hg].
  rewrite <- steep_slump_start.
  apply (find_min_stops_at 0 19.6 2 dx_v 0).
  - rewrite count_max_val. lia.
  - intros k Hk. replace k with 0%nat by lia. rewrite steep_slump_start.
    exact Hok.
  - intros k Hk. lia.
  - rewrite steep_slump_start. exact Hd.
Qed.

Lemma steep_slump_nmin_bounds : - (2 / 7) <= steep_slump_nmin < 0.
Proof.
  unfold steep_slump_nmin.
  apply steep_search. apply steep_slump_offset.
Qed.

Lemma steep_slump_result : slump_tsunami steep_slump = Ok steep_slump_evaluator.
Proof.
  unfold slump_tsunami. cbv zeta. rewrite steep_slump_derive. cbn [bind].
  unfold Slump.x0_rel, Slump.y0_rel, Slump.width_val, Slump.range_checks,
    Slump.thickness_val.
  cbn [Slump.d_w Slump.d_a3D Slump.d_radius].
  unfold steep_slump.
  cbn [Slump.zsmall Slump.kappad Slump.scale Slump.domain Slump.x0 Slump.y0
       Slump.width Slump.length Slump.depth Slump.thickness Slump.alpha
       Slump.kappa].
  destruct steep_slump_offset as [Hoff Hdx].
  rewrite Hoff. cbn [bind].
  destruct (steep_search steep_slump_dx Hdx) as [Hfm _].
  rewrite Hfm. cbn [bind]. fold steep_slump_nmin.
  pose proof steep_slump_nmin_bounds as Hn.
  rewrite py_div_ok by lra. cbn [bind].
  rewrite !py_div_ok by lra. cbn [bind].
  reflexivity.
Qed.

(** C2, as stated, fails: an evaluator built by [slump_tsunami] with the
    scale left unset whose value at its own [(x0, y0)] is more than three
    times [a3D] in magnitude. *)
Lemma calibration_at_origin_counterexample :
  exists dg z,
    slump_tsunami steep_slump = Ok dg
    /\ Slump.scale steep_slump = None
    /\ Double_gaussian.call dg [Double_gaussian.x0 dg] [Double_gaussian.y0 dg]
       = Ok [z]
    /\ 3 * Rabs (Double_gaussian.a3D dg) < Rabs z.
Proof.
  exists steep_slump_evaluator, (value_at steep_slump_evaluator (0, 0)).
  assert (Hwa : Double_gaussian.wavelength steep_slump_evaluator <> 0)
    by (cbn; lra).
  assert (Hsum : Double_gaussian.width steep_slump_evaluator
                 + Double_gaussian.wavelength steep_slump_evaluator <> 0)
    by (cbn; lra).
  split; [exact steep_slump_result |]. split; [reflexivity |].
  split; [apply single_point_call; assumption |].
  destruct steep_slump_offset as [_ Hdx].
  pose proof steep_slump_nmin_bounds as Hn.
  pose proof float_max_lower as Hf.
  set (q := (0 - steep_slump_dx - 0) / 19.6).
  assert (Hq : 0 <= q ^ 2 <= 0.001)
    by (rewrite pow2_mult; unfold q; nra).
  assert (Hno : ~ overflow_at steep_slump_evaluator (0, 0)).
  { unfold overflow_at. rewrite to_native_unrotated by reflexivity.
    unfold overflow_native.
    cbn [steep_slump_evaluator Double_gaussian.kappa Double_gaussian.y0
         Double_gaussian.x0 Double_gaussian.width Double_gaussian.wavelength
         Double_gaussian.dx fst snd].
    fold q.
    replace (3 * (0 - 0) / (9.8 + 19.6)) with 0 by lra.
    replace ((0 - 0) / 19.6) with 0 by lra.
    rewrite cosh_0, pow1, pow_i by lia.
    intros [H | [H | H]]; lra. }
  rewrite value_at_in_range by assumption.
  unfold surface. rewrite to_native_unrotated by reflexivity.
  unfold surface_native.
  cbn [steep_slump_evaluator Double_gaussian.kappa Double_gaussian.y0
       Double_gaussian.x0 Double_gaussian.width Double_gaussian.wavelength
       Double_gaussian.dx Double_gaussian.scale Double_gaussian.kappad
       Double_gaussian.a3D fst snd].
  fold q.
  replace (3 * (0 - 0) / (9.8 + 19.6)) with 0 by lra.
  replace ((0 - 0) / 19.6) with 0 by lra.
  rewrite cosh_0, pow1, pow_i, Ropp_0, exp_0 by lia.
  pose proof (exp_ineq1_le (- q ^ 2)) as HG.
  destruct (exp_neg_bound (q ^ 2)) as [HG0 HG1]; [lra |].
  assert (HG2 : exp (- q ^ 2) <= 1)
    by (eapply Rle_trans; [exact HG1 |];
        rewrite <- Rinv_1 at 2; apply Rinv_le_contravar; lra).
  set (G := exp (- q ^ 2)) in *.
  set (m := - steep_slump_nmin).
  assert (Hm : 0 < m <= 2 / 7) by (unfold m; lra).
  replace (- (0.07336 / steep_slump_nmin) / 1 * (1 - 2 * G))
    with (- (0.07336 * (2 * G - 1) * / m))
    by (unfold m; decimal_field; lra).
  assert (Him : 7 / 2 <= / m).
  { replace (7 / 2) with (/ (2 / 7)) by lra.
    apply Rinv_le_contravar; lra. }
  assert (Hpos : 0.07336 * 0.998 * (7 / 2) <= 0.07336 * (2 * G - 1) * / m).
  { apply Rmult_le_compat; try lra. }
  rewrite Rabs_Ropp, (Rabs_pos_eq 0.07336) by lra.
  rewrite Rabs_pos_eq by lra.
  lra.
Qed.

(** *** A slide that is calibrated at its origin *)

Lemma sin_30 : math_sin (math_radians 30) = 1 / 2.
Proof.
  unfold math_sin, math_radians, math_pi.
  replace (30 * (PI / 180)) with (PI / 6) by field. apply sin_PI6.
Qed.

Lemma tan_30_nonzero : math_tan (math_radians 30) <> 0.
Proof.
  unfold math_tan, math_radians, math_pi.
  replace (30 * (PI / 180)) with (PI / 6) by field.
  pose proof (tan_gt_0 (PI / 6) PI6_RGT_0 PI6_RLT_PI2). lra.
Qed.

Lemma tan_0_degrees : math_tan (math_radians 0) = 0.
Proof.
  unfold math_tan, math_radians. rewrite Rmult_0_l. apply tan_0.
Qed.

Lemma PI_bounds : 3 < PI <= 4.
Proof. pose proof PI2_3_2. pose proof PI_4. lra. Qed.

Lemma single_lobe_slide_derive :
  exists d,
    Slide.derive single_lobe_slide = Ok d
    /\ 0.05 < Slide.d_a3D d < 0.14
    /\ 40 < Slide.d_w d.
Proof.
  unfold Slide.derive, Slide.a0, Slide.ut, Slide.sint, Slide.tant, Slide.tanp,
    Slide.thickness_val, single_lobe_slide.
  cbn [Slide.length Slide.depth Slide.slope Slide.width Slide.thickness
       Slide.gravity Slide.gamma Slide.massco Slide.dragco Slide.psi bind].
  rewrite sin_30, tan_0_degrees.
  rewrite (py_div_ok 0 _ tan_30_nonzero).
  replace (0 / math_tan (math_radians 30)) with 0 by (unfold Rdiv; ring).
  rewrite !py_div_ok by lra. cbn [bind].
  pose proof PI_bounds as HPI.
  set (S := 9.8 * 500 * (1000 * (1 / 2) / 500) * (math_pi * (1.85 - 1) / (2 * 1))
            * (1 - 0)).
  assert (HS : 6000 < S < 8400) by (unfold S, math_pi; lra).
  rewrite math_sqrt_ok by lra. cbn [bind].
  rewrite py_pow_2, sqrt_sqrt by lra.
  rewrite range_checked_small by lra. cbn [bind].
  set (a0 := 9.8 * (1 / 2) * ((1.85 - 1) / (1.85 + 1)) * (1 - 0)).
  assert (Ha0 : 1.4 < a0 < 1.5) by (unfold a0; lra).
  rewrite !py_div_ok by lra. cbn [bind].
  replace (9.8 * 500) with (70 * 70) by lra.
  rewrite math_sqrt_ok by lra. cbn [bind]. rewrite sqrt_square by lra.
  replace (1000 * (1 / 2) / 500) with 1 by lra.
  rewrite py_pow_one. cbn [bind].
  rewrite math_exp_nonpos by lra. cbn [bind].
  replace (500 / (1000 * (1 / 2))) with 1 by lra.
  rewrite math_sqrt_ok by lra. cbn [bind]. rewrite sqrt_1.
  rewrite py_div_ok by lra. cbn [bind].
  eexists. split; [reflexivity |].
  cbn [Slide.d_a3D Slide.d_w].
  assert (Hs0 : 4000 < S / a0 < 6000).
  { split.
    - apply (Rmult_lt_reg_r a0); [lra |].
      unfold Rdiv. rewrite Rmult_assoc, Rinv_l by lra. lra.
    - apply (Rmult_lt_reg_r a0); [lra |].
      unfold Rdiv. rewrite Rmult_assoc, Rinv_l by lra. lra. }
  destruct (exp_neg_bound (2.2 * (1.85 - 1))) as [He0 He1]; [lra |].
  replace (- (2.2 * (1.85 - 1))) with (- 2.2 * (1.85 - 1)) in He0, He1 by lra.
  assert (He : 0 < exp (- 2.2 * (1.85 - 1)) <= 0.35).
  { split; [exact He0 |]. eapply Rle_trans; [exact He1 |].
    apply (Rmult_le_reg_r (1 + 2.2 * (1.85 - 1))); [lra |].
    rewrite Rinv_l by lra. lra. }
  set (e := exp (- 2.2 * (1.85 - 1))) in *.
  set (s0 := S / a0) in *.
  assert (Hroot : 1 <= sqrt S)
    by (rewrite <- sqrt_1; apply sqrt_le_1; lra).
  split.
  - assert (Hm : 0.65 * 4000 < s0 * (1 - e)) by nra.
    assert (Hm' : s0 * (1 - e) < 6000) by nra.
    replace (s0 * (0.0574 - 0.0431 * (1 / 2)) * (0.01 * 1000 / 1000) * 1
             * (1 - e) / (1 + 15.5 * 1))
      with (s0 * (1 - e)
            * ((0.0574 - 0.0431 * (1 / 2)) * (0.01 * 1000 / 1000) * 1
               / (1 + 15.5 * 1)))
      by (unfold Rdiv; ring).
    generalize dependent (s0 * (1 - e)). intros P HP HP'. lra.
  - assert (Hq : / 1.5 < / a0) by (apply Rinv_lt_contravar; nra).
    replace (sqrt S / a0 * 70) with (sqrt S * (/ a0 * 70))
      by (unfold Rdiv; ring).
    assert (Hc : 40 < 1 * (/ a0 * 70)) by lra.
    assert (Hmono : 1 * (/ a0 * 70) <= sqrt S * (/ a0 * 70))
      by (apply Rmult_le_compat_r; lra).
    lra.
Qed.

Lemma single_lobe_offset_bounds (w a3D_v : R) :
  40 < w -> 0.05 < a3D_v < 0.14 ->
  lobe_offset w a3D_v 0.01 = Ok (dx_formula w a3D_v 0.01)
  /\ 0 <= dx_formula w a3D_v 0.01 <= 1.6 * w.
Proof.
  intros Hw Ha.
  assert (Hq : 0 < 0.01 / a3D_v < 1).
  { split.
    - apply Rdiv_lt_0_compat; lra.
    - apply (Rmult_lt_reg_r a3D_v); [lra |].
      unfold Rdiv. rewrite Rmult_assoc, Rinv_l by lra. lra. }
  split; [apply lobe_offset_ok; unfold dx_precondition; lra |].
  unfold dx_formula.
  assert (Hinv : / (0.01 / a3D_v) = 100 * a3D_v) by (decimal_field; lra).
  assert (Hln : 0 <= - ln (0.01 / a3D_v) <= 4 * 4).
  { rewrite <- ln_Rinv by lra. rewrite Hinv. split.
    - rewrite <- ln_1. left. apply ln_increasing; lra.
    - pose proof (ln_le_minus_1 (100 * a3D_v)). lra. }
  assert (Hs : 0 <= sqrt (- ln (0.01 / a3D_v)) <= 4).
  { split; [apply sqrt_pos |].
    rewrite <- (sqrt_square 4) by lra. apply sqrt_le_1; lra. }
  generalize dependent (sqrt (- ln (0.01 / a3D_v))). intros s Hs. nra.
Qed.

Lemma single_lobe_search (w dx_v : R) :
  40 < w -> 0 <= dx_v <= 1.6 * w ->
  find_min 0 w 0 dx_v = Ok (g_shape 0 w 0 dx_v (x_at 0 1000))
  /\ g_shape 0 w 0 dx_v (x_at 0 1000) = 1
  /\ arith_ok 0 w dx_v (x_at 0 1000).
Proof.
  intros Hw Hdx.
  assert (Hiw : 0 < / w < / 40)
    by (split; [apply Rinv_0_lt_compat; lra | apply Rinv_lt_contravar; nra]).
  assert (Hdw : 0 <= dx_v * / w <= 1.6).
  { split; [apply Rmult_le_pos; lra |].
    apply (Rmult_le_reg_r w); [lra |]. rewrite Rmult_assoc, Rinv_l by lra. lra. }
  assert (Hok : forall k, (k <= 1000)%nat -> arith_ok 0 w dx_v (x_at 0 k)).
  { intros k Hk. destruct (single_lobe_visits k Hk) as [Hx _].
    pose proof float_max_lower as Hf.
    set (u := x_at 0 k) in *.
    assert (Huw : 0 <= u * / w <= 1.25) by nra.
    unfold arith_ok. split; [lra |].
    replace ((u - 0) / w) with (u * / w) by (unfold Rdiv; ring).
    replace ((u - dx_v - 0) / w) with (u * / w - dx_v * / w)
      by (unfold Rdiv; ring).
    rewrite !pow2_mult.
    generalize dependent (u * / w). generalize dependent (dx_v * / w).
    intros b Hb a Ha. split; nra. }
  split; [| split].
  - apply find_min_stops_at.
    + exact thousand_below_cap.
    + exact Hok.
    + intros k Hk. destruct (single_lobe_visits k) as [_ Hp]; [lia |].
      unfold deriv_val. rewrite !Rmult_0_l, !Rminus_0_r.
      apply Rmult_lt_0_compat; [apply Hp; exact Hk | apply exp_pos].
    + rewrite single_lobe_x_1000. unfold deriv_val. right. ring.
  - rewrite single_lobe_x_1000. unfold g_shape.
    replace (- ((0 - 0) / w) ^ 2) with 0 by (unfold Rdiv; ring).
    rewrite exp_0. ring.
  - apply Hok. lia.
Qed.

Lemma single_lobe_slide_result :
  exists d,
    Slide.derive single_lobe_slide = Ok d
    /\ 0.05 < Slide.d_a3D d < 0.14
    /\ 40 < Slide.d_w d
    /\ slide_tsunami single_lobe_slide
       = Ok (Double_gaussian.mk (Slide.d_a3D d) (Slide.d_w d) (0.25 * 1000)
               0 0 0 3 0
               (Slide.d_a3D d
                / g_shape 0 (Slide.d_w d) 0
                    (dx_formula (Slide.d_w d) (Slide.d_a3D d) 0.01)
                    (x_at 0 1000))
               (dx_formula (Slide.d_w d) (Slide.d_a3D d) 0.01)).
Proof.
  destruct single_lobe_slide_derive as (d & Hd & Ha & Hw).
  exists d. repeat (split; [assumption |]).
  destruct (single_lobe_offset_bounds _ _ Hw Ha) as [Hoff Hdx].
  destruct (single_lobe_search _ _ Hw Hdx) as (Hfm & Hg & _).
  unfold slide_tsunami. cbv zeta. rewrite Hd. cbn [bind].
  unfold Slide.x0_rel, Slide.y0_rel, Slide.width_val, Slide.range_checks,
    Slide.thickness_val.
  unfold single_lobe_slide.
  cbn [Slide.zsmall Slide.kappad Slide.scale Slide.domain Slide.x0 Slide.y0
       Slide.width Slide.length Slide.depth Slide.thickness Slide.alpha
       Slide.kappa].
  rewrite Hoff. cbn [bind]. rewrite Hfm. cbn [bind].
  rewrite py_div_ok by (rewrite Hg; lra). cbn [bind].
  rewrite !py_div_ok by lra. cbn [bind].
  reflexivity.
Qed.

Lemma scale_calibration_witness :
  (exists dg d,
     slide_tsunami single_lobe_slide = Ok dg
     /\ Slide.derive single_lobe_slide = Ok d
     /\ calibrated (Slide.scale single_lobe_slide) (Slide.d_a3D d)
          (Slide.d_w d) (Slide.x0_rel single_lobe_slide)
          (Slide.kappad single_lobe_slide) (Slide.zsmall single_lobe_slide) dg)
  /\ (exists d,
        Slump.derive steep_slump = Ok d
        /\ calibrated None (Slump.d_a3D d) (Slump.d_w d) 0 2 0.0733
             steep_slump_evaluator).
Proof.
  split.
  - destruct single_lobe_slide_result as (d0 & _ & _ & _ & Hres).
    destruct (proj1 scale_calibration _ _ Hres) as (d & Hd & Hcal).
    eexists. exists d. split; [exact Hres |]. split; [exact Hd | exact Hcal].
  - exact (proj2 scale_calibration steep_slump steep_slump_evaluator
             steep_slump_result).
Defined.

(** ** Remarks *)

(** The value [find_min] returns can be negative. *)
Remark find_min_negative_value :
  exists v, find_min 0 19.6 2 0 = Ok v /\ v < 0.
Proof.
  destruct (steep_search 0) as [Hfm Hg]; [lra |].
  exists (g_shape 0 19.6 2 0 (x_at 0 0)). split; [exact Hfm | lra].
Qed.

Lemma rotate_minus_zero (c p : R * R) : rotate (- 0) c p = p.
Proof.
  destruct p as [px py]. unfold rotate. cbn [fst snd].
  rewrite Ropp_0, Rmult_0_l, cos_0, sin_0. f_equal; ring.
Qed.

(** In exact arithmetic a search with a single lobe stops at [x0], where
    [deriv] is exactly zero, and the evaluator returned by [slide_tsunami]
    takes the value [-a3D] at its own origin.  (The interpreter, whose [x]
    is then still some [1e-12] above [x0], takes one more step, to
    [x0 - 0.05]: its value at the origin is [-a3D * exp((0.05/w)^2)].) *)
Remark single_lobe_slide_peak :
  exists d dg,
    Slide.derive single_lobe_slide = Ok d
    /\ slide_tsunami single_lobe_slide = Ok dg
    /\ Double_gaussian.call dg [Double_gaussian.x0 dg] [Double_gaussian.y0 dg]
       = Ok [- Slide.d_a3D d].
Proof.
  destruct single_lobe_slide_result as (d & Hd & Ha & Hw & Hres).
  destruct (single_lobe_offset_bounds _ _ Hw Ha) as [_ Hdx].
  destruct (single_lobe_search _ _ Hw Hdx) as (_ & Hg & Hok).
  rewrite single_lobe_x_1000 in Hres.
  exists d. eexists. split; [exact Hd |]. split; [exact Hres |].
  cbn [Double_gaussian.x0 Double_gaussian.y0].
  match goal with
  | |- Double_gaussian.call ?dg _ _ = _ =>
      pose proof (calibrated_value dg (Slide.d_a3D d) (x_at 0 1000)) as H
  end.
  cbv zeta in H.
  cbn [Double_gaussian.x0 Double_gaussian.y0 Double_gaussian.alpha
       Double_gaussian.wavelength Double_gaussian.kappad Double_gaussian.dx
       Double_gaussian.scale Double_gaussian.width] in H.
  rewrite rotate_minus_zero, single_lobe_x_1000 in H. cbn [fst snd] in H.
  rewrite single_lobe_x_1000 in Hg, Hok.
  apply H.
  - exact Hok.
  - rewrite Hg. lra.
  - reflexivity.
  - lra.
Qed.

(** * Further properties

    Properties of the code beside the ones above: how [__call__] composes
    and fails, the symmetries of the surface and of the search, what the
    offset means, and what the derivation procedures guarantee. *)

(** ** The loop of [__call__] as a traversal *)

Lemma combine_app_eq {A B : Type} (x1 x2 : list A) (y1 y2 : list B) :
  List.length x1 = List.length y1 ->
  combine (x1 ++ x2) (y1 ++ y2) = combine x1 y1 ++ combine x2 y2.
Proof.
  revert y1. induction x1 as [| a x1 IH]; intros [| b y1] H; simpl in *;
    try discriminate; [reflexivity |].
  f_equal. apply IH. lia.
Qed.

(** The exceptions of the element expression: a zero divisor or an
    overflow. *)
Lemma element_error (self : Double_gaussian.t) (xr yr : R) (e : exn) :
  Double_gaussian.element self xr yr = Err e ->
  e = ZeroDivisionError \/ e = OverflowError.
Proof.
  unfold Double_gaussian.element, math_cosh, math_exp.
  repeat
    (match goal with
     | |- context [py_pow ?u 2] => rewrite (py_pow_2 u)
     | |- bind (py_div ?u ?v) _ = _ -> _ =>
         let E := fresh "E" in
         destruct (py_div u v) eqn:E; cbn [bind];
         [| intros H; injection H as <-; left; eapply py_div_error; exact E]
     | |- bind (range_checked ?u) _ = _ -> _ =>
         let E := fresh "E" in
         destruct (range_checked u) eqn:E; cbn [bind];
         [| intros H; injection H as <-; right; revert E; unfold range_checked;
            destruct (Rlt_dec float_max (Rabs u)); congruence]
     end).
  discriminate.
Qed.

Lemma point_value_error (self : Double_gaussian.t) (p : R * R) (e : exn) :
  point_value self p = Err e -> e = ZeroDivisionError.
Proof.
  unfold point_value.
  destruct (Double_gaussian.element self (fst (to_native self p))
              (snd (to_native self p))) as [v | e'] eqn:E; [discriminate |].
  destruct (element_error _ _ _ _ E) as [-> | ->]; [| discriminate].
  intros H. injection H as <-. reflexivity.
Qed.

(** What the element expression returns when it returns. *)
Lemma element_inv (self : Double_gaussian.t) (xr yr v : R) :
  Double_gaussian.element self xr yr = Ok v ->
  Double_gaussian.wavelength self <> 0
  /\ Double_gaussian.width self + Double_gaussian.wavelength self <> 0
  /\ ~ overflow_native self xr yr
  /\ v = surface_native self xr yr.
Proof.
  intros H.
  assert (Hsum : Double_gaussian.width self + Double_gaussian.wavelength self <> 0).
  { intros Hz. unfold Double_gaussian.element in H.
    rewrite Hz, py_div_zero in H. discriminate. }
  assert (Hwa : Double_gaussian.wavelength self <> 0).
  { intros Hz. unfold Double_gaussian.element in H.
    repeat
      (match type of H with
       | bind (py_div ?u 0) _ = _ => rewrite py_div_zero in H; discriminate
       | bind ?m _ = _ => destruct m; cbn [bind] in H; [| discriminate]
       end; try rewrite Hz in H). }
  destruct (element_eval self xr yr Hwa Hsum) as [Ho Hn].
  assert (Hno : ~ overflow_native self xr yr)
    by (intros O; rewrite (Ho O) in H; discriminate).
  repeat (split; [assumption |]).
  rewrite (Hn Hno) in H. injection H as <-. reflexivity.
Qed.

Lemma cosh_opp (x : R) : cosh (- x) = cosh x.
Proof. unfold cosh. rewrite Ropp_involutive. lra. Qed.

Lemma exp_neg_sq_bounds (q : R) : 0 < exp (- q ^ 2) <= 1.
Proof.
  split; [apply exp_pos |].
  rewrite <- exp_0. pose proof (pow2_ge_0 q) as Hq.
  destruct (Req_dec_T (q ^ 2) 0) as [-> | Hn].
  - rewrite Ropp_0. lra.
  - left. apply exp_increasing. lra.
Qed.

(** The magnitude of the surface never exceeds [|scale| * (1 + |kappad|)]. *)
Lemma surface_native_bound (self : Double_gaussian.t) (xr yr : R) :
  Double_gaussian.width self + Double_gaussian.wavelength self <> 0 ->
  Rabs (surface_native self xr yr)
  <= Rabs (Double_gaussian.scale self) * (1 + Rabs (Double_gaussian.kappad self)).
Proof.
  intros Hsum. unfold surface_native.
  set (c := cosh _).
  set (e1 := exp _). set (e2 := exp _).
  assert (Hc : 1 <= c) by apply cosh_ge_1.
  assert (He1 : 0 < e1 <= 1) by apply exp_neg_sq_bounds.
  assert (He2 : 0 < e2 <= 1) by apply exp_neg_sq_bounds.
  assert (Hc2 : 1 <= c ^ 2) by (rewrite pow2_mult; nra).
  unfold Rdiv. rewrite !Rabs_mult, Rabs_Ropp.
  rewrite (Rabs_pos_eq (/ c ^ 2)) by (left; apply Rinv_0_lt_compat; lra).
  assert (Hi : 0 < / c ^ 2 <= 1).
  { split; [apply Rinv_0_lt_compat; lra |].
    rewrite <- Rinv_1. apply Rinv_le_contravar; lra. }
  assert (Hd : Rabs (e1 - Double_gaussian.kappad self * e2)
               <= 1 + Rabs (Double_gaussian.kappad self)).
  { unfold Rminus. eapply Rle_trans; [apply Rabs_triang |].
    rewrite Rabs_Ropp, Rabs_mult, (Rabs_pos_eq e1), (Rabs_pos_eq e2) by lra.
    pose proof (Rabs_pos (Double_gaussian.kappad self)). nra. }
  pose proof (Rabs_pos (Double_gaussian.scale self)) as Hs.
  pose proof (Rabs_pos (e1 - Double_gaussian.kappad self * e2)) as Hp.
  generalize dependent (Rabs (e1 - Double_gaussian.kappad self * e2)).
  generalize dependent (Rabs (Double_gaussian.scale self)).
  generalize dependent (/ c ^ 2).
  intros i Hi s Hs d Hd Hp.
  apply Rle_trans with (s * d); [| apply Rmult_le_compat_l; lra].
  assert (s * i <= s) by nra. nra.
Qed.

(** X1.  Evaluating a concatenation is evaluating the parts in order:
    [__call__] on [x1 ++ x2] and [y1 ++ y2] returns the concatenation of the
    two results, and raises what the first failing part raises. *)
Theorem call_append (self : Double_gaussian.t) (x1 y1 x2 y2 : list R) :
  List.length x1 = List.length y1 ->
  List.length x2 = List.length y2 ->
  Double_gaussian.call self (x1 ++ x2) (y1 ++ y2)
  = (z1 <- Double_gaussian.call self x1 y1 ;;
     z2 <- Double_gaussian.call self x2 y2 ;;
     Ok (z1 ++ z2)).
Proof.
  intros H1 H2.
  rewrite !call_as_traverse by (rewrite ?length_app; lia).
  rewrite combine_app_eq by exact H1. apply traverse_app.
Qed.

Lemma call_append_witness :
  Double_gaussian.call unit_evaluator ([0; 1] ++ [0]) ([0; 0] ++ [2000])
  = (z1 <- Double_gaussian.call unit_evaluator [0; 1] [0; 0] ;;
     z2 <- Double_gaussian.call unit_evaluator [0] [2000] ;;
     Ok (z1 ++ z2)).
Proof.
  apply (call_append unit_evaluator [0; 1] [0; 0] [0] [2000]); reflexivity.
Defined.

(** X2.  The exceptions of [__call__]: it raises [AssertionError] exactly
    when the two sequences differ in length; otherwise the only exception
    that can leave it is [ZeroDivisionError], and only for an evaluator
    whose [wavelength] or [width + wavelength] is zero.  An [OverflowError]
    never leaves it. *)
Theorem call_exceptions (self : Double_gaussian.t) (x y : list R) :
  (Double_gaussian.call self x y = Err AssertionError
   <-> List.length x <> List.length y)
  /\ (forall e, Double_gaussian.call self x y = Err e ->
        e = AssertionError \/ e = ZeroDivisionError)
  /\ (Double_gaussian.call self x y = Err ZeroDivisionError ->
      Double_gaussian.wavelength self = 0
      \/ Double_gaussian.width self + Double_gaussian.wavelength self = 0).
Proof.
  assert (Hmis : List.length x <> List.length y ->
                 Double_gaussian.call self x y = Err AssertionError).
  { intros N. unfold Double_gaussian.call.
    destruct (Nat.eq_dec (List.length x) (List.length y)); [contradiction |].
    reflexivity. }
  assert (Heq : forall e, List.length x = List.length y ->
                  Double_gaussian.call self x y = Err e ->
                  e = ZeroDivisionError).
  { intros e Hlen H. rewrite call_as_traverse in H by exact Hlen.
    apply traverse_error in H as (p & _ & Hp).
    eapply point_value_error. exact Hp. }
  split; [split |]; [| exact Hmis | split].
  - intros H Hlen. specialize (Heq _ Hlen H). discriminate.
  - intros e H.
    destruct (Nat.eq_dec (List.length x) (List.length y)) as [Hlen | N].
    + right. exact (Heq e Hlen H).
    + left. rewrite (Hmis N) in H. injection H as <-. reflexivity.
  - intros H.
    destruct (Nat.eq_dec (List.length x) (List.length y)) as [Hlen | N];
      [| rewrite (Hmis N) in H; discriminate].
    destruct (Req_dec_T (Double_gaussian.wavelength self) 0) as [Hw | Hw];
      [left; exact Hw |].
    destruct (Req_dec_T (Double_gaussian.width self
                         + Double_gaussian.wavelength self) 0) as [Hs | Hs];
      [right; exact Hs |].
    destruct (call_total self x y Hlen Hw Hs) as [z Hz].
    rewrite Hz in H. discriminate.
Qed.

Lemma call_exceptions_witness :
  Double_gaussian.call unit_evaluator [0; 1] [0] = Err AssertionError.
Proof.
  apply (proj1 (call_exceptions unit_evaluator [0; 1] [0])).
  simpl. lia.
Defined.

(** X3.  Edge inputs of [__call__].  On empty sequences it returns the empty
    sequence, whatever the evaluator.  An evaluator with
    [width + wavelength = 0] raises [ZeroDivisionError] on every non-empty
    input: the [try] catches [OverflowError] only.  An evaluator with
    [wavelength = 0] never produces a non-zero value: whenever it returns,
    every element is the initial [0]. *)
Theorem call_degenerate_evaluator (self : Double_gaussian.t) :
  Double_gaussian.call self [] [] = Ok []
  /\ (Double_gaussian.width self + Double_gaussian.wavelength self = 0 ->
      forall x y, List.length x = List.length y -> x <> [] ->
        Double_gaussian.call self x y = Err ZeroDivisionError)
  /\ (Double_gaussian.wavelength self = 0 ->
      forall x y z, Double_gaussian.call self x y = Ok z ->
        forall i, nth i z 0 = 0).
Proof.
  split; [reflexivity |]. split.
  - intros Hs x y Hlen Hne. rewrite call_as_traverse by exact Hlen.
    destruct x as [| px x]; [contradiction |].
    destruct y as [| py y]; [discriminate |].
    cbn [combine traverse]. unfold point_value at 1.
    unfold Double_gaussian.element. rewrite Hs, py_div_zero. reflexivity.
  - intros Hw x y z Hz i.
    destruct (call_inv self x y z Hz) as (_ & Hl & Hnth).
    destruct (Nat.lt_ge_cases i (List.length x)) as [Hi | Hi].
    + rewrite (Hnth i Hi). unfold value_at.
      destruct (Double_gaussian.element self _ _) as [v |] eqn:E;
        [| reflexivity].
      apply element_inv in E as (Hn & _). contradiction.
    + apply nth_overflow. lia.
Qed.

Lemma call_degenerate_evaluator_witness :
  Double_gaussian.call (Double_gaussian.mk 1 1 (-1) 0 0 0 1 0 1 0) [0] [0]
  = Err ZeroDivisionError.
Proof.
  apply (proj1 (proj2 (call_degenerate_evaluator
                         (Double_gaussian.mk 1 1 (-1) 0 0 0 1 0 1 0)))).
  - cbn [Double_gaussian.width Double_gaussian.wavelength]. lra.
  - reflexivity.
  - discriminate.
Defined.

(** X4.  The values [__call__] returns are bounded by the scale: every
    element has magnitude at most [|scale| * (1 + |kappad|)]. *)
Theorem call_values_bounded (self : Double_gaussian.t) (x y z : list R) :
  Double_gaussian.call self x y = Ok z ->
  forall i,
    Rabs (nth i z 0)
    <= Rabs (Double_gaussian.scale self)
       * (1 + Rabs (Double_gaussian.kappad self)).
Proof.
  intros Hz i.
  assert (Hnn : 0 <= Rabs (Double_gaussian.scale self)
                     * (1 + Rabs (Double_gaussian.kappad self))).
  { pose proof (Rabs_pos (Double_gaussian.scale self)).
    pose proof (Rabs_pos (Double_gaussian.kappad self)). nra. }
  destruct (call_inv self x y z Hz) as (_ & Hl & Hnth).
  destruct (Nat.lt_ge_cases i (List.length x)) as [Hi | Hi].
  - rewrite (Hnth i Hi). unfold value_at.
    destruct (Double_gaussian.element self _ _) as [v |] eqn:E.
    + apply element_inv in E as (_ & Hs & _ & ->).
      apply surface_native_bound. exact Hs.
    + rewrite Rabs_R0. exact Hnn.
  - rewrite nth_overflow by lia. rewrite Rabs_R0. exact Hnn.
Qed.

Lemma call_values_bounded_witness :
  Rabs (nth 0 [value_at unit_evaluator (0, 0)] 0)
  <= Rabs (Double_gaussian.scale unit_evaluator)
     * (1 + Rabs (Double_gaussian.kappad unit_evaluator)).
Proof.
  exact (call_values_bounded unit_evaluator [0] [0]
           [value_at unit_evaluator (0, 0)]
           (single_point_call unit_evaluator 0 0 unit_evaluator_wavelength
              unit_evaluator_divisor) 0%nat).
Defined.

Lemma to_native_axis_point (self : Double_gaussian.t) (u v : R) :
  to_native self (axis_point self u v)
  = (Double_gaussian.x0 self + u, Double_gaussian.y0 self + v).
Proof.
  unfold axis_point. rewrite <- (with_alpha_self self) at 1.
  apply to_native_of_rotated.
Qed.

Lemma element_mirror (self : Double_gaussian.t) (xr v : R) :
  Double_gaussian.element self xr (Double_gaussian.y0 self + v)
  = Double_gaussian.element self xr (Double_gaussian.y0 self + - v).
Proof.
  unfold Double_gaussian.element, py_div at 1 5.
  destruct (Req_dec_T (Double_gaussian.width self
                       + Double_gaussian.wavelength self) 0) as [| Hs];
    [reflexivity |].
  cbn [bind]. unfold math_cosh.
  replace (Double_gaussian.kappa self
           * (Double_gaussian.y0 self + - v - Double_gaussian.y0 self)
           / (Double_gaussian.width self + Double_gaussian.wavelength self))
    with (- (Double_gaussian.kappa self
             * (Double_gaussian.y0 self + v - Double_gaussian.y0 self)
             / (Double_gaussian.width self + Double_gaussian.wavelength self)))
    by (field; exact Hs).
  rewrite cosh_opp. reflexivity.
Qed.

Lemma combine_map {A : Type} (f g : A -> R) (l : list A) :
  combine (map f l) (map g l) = map (fun a => (f a, g a)) l.
Proof.
  induction l as [| a l IH]; simpl; [reflexivity |]. rewrite IH. reflexivity.
Qed.

(** X5.  The surface is symmetric about the axis of the failure, the line
    through [(x0, y0)] along which the two lobes lie: two points at the same
    position [u] along the axis and at opposite offsets [v] and [-v] across
    it get the same value, overflow cases included. *)
Theorem call_mirror_symmetry (self : Double_gaussian.t) (uvs : list (R * R)) :
  Double_gaussian.call self
    (map (fun q => fst (axis_point self (fst q) (snd q))) uvs)
    (map (fun q => snd (axis_point self (fst q) (snd q))) uvs)
  = Double_gaussian.call self
      (map (fun q => fst (axis_point self (fst q) (- snd q))) uvs)
      (map (fun q => snd (axis_point self (fst q) (- snd q))) uvs).
Proof.
  rewrite !call_as_traverse by (rewrite !length_map; reflexivity).
  rewrite !combine_map, !traverse_map.
  apply traverse_ext_in. intros [u v] _. cbn [fst snd].
  unfold point_value. rewrite <- !surjective_pairing, !to_native_axis_point.
  cbn [fst snd]. rewrite element_mirror. reflexivity.
Qed.

(** ** Orientation and scale of the evaluator *)

Lemma to_native_full_turn (self : Double_gaussian.t) (a : R) (p : R * R) :
  to_native (with_alpha self (a + 360)) p = to_native (with_alpha self a) p.
Proof.
  unfold to_native, with_alpha, rotate.
  cbn [Double_gaussian.alpha Double_gaussian.x0 Double_gaussian.y0].
  replace ((a + 360) * (PI / 180)) with (a * (PI / 180) + 2 * PI) by field.
  rewrite cos_plus, sin_plus, cos_2PI, sin_2PI. f_equal; ring.
Qed.

Lemma to_native_half_turn (self : Double_gaussian.t) (a : R) (p : R * R) :
  to_native (with_alpha self (a + 180)) p
  = to_native (with_alpha self a)
      (2 * Double_gaussian.x0 self - fst p, 2 * Double_gaussian.y0 self - snd p).
Proof.
  unfold to_native, with_alpha, rotate.
  cbn [Double_gaussian.alpha Double_gaussian.x0 Double_gaussian.y0 fst snd].
  replace ((a + 180) * (PI / 180)) with (a * (PI / 180) + PI) by field.
  rewrite neg_cos, neg_sin. f_equal; ring.
Qed.

(** X6.  The orientation counts modulo a full turn, and a half turn
    reflects the surface through [(x0, y0)]: the evaluator with
    [alpha + 360] returns what the evaluator with [alpha] returns, and the
    evaluator with [alpha + 180] returns at [(x, y)] what the evaluator with
    [alpha] returns at [(2*x0 - x, 2*y0 - y)] (in exact arithmetic). *)
Theorem orientation_turns (self : Double_gaussian.t) (a : R) (x y : list R) :
  Double_gaussian.call (with_alpha self (a + 360)) x y
  = Double_gaussian.call (with_alpha self a) x y
  /\ Double_gaussian.call (with_alpha self (a + 180)) x y
     = Double_gaussian.call (with_alpha self a)
         (map (fun u => 2 * Double_gaussian.x0 self - u) x)
         (map (fun v => 2 * Double_gaussian.y0 self - v) y).
Proof.
  split.
  - destruct (Nat.eq_dec (List.length x) (List.length y)) as [Hlen | N].
    + apply call_congruence; try assumption; try reflexivity.
      intros i _. apply to_native_full_turn.
    + unfold Double_gaussian.call.
      destruct (Nat.eq_dec (List.length x) (List.length y)); [contradiction |].
      reflexivity.
  - destruct (Nat.eq_dec (List.length x) (List.length y)) as [Hlen | N].
    + apply call_congruence; rewrite ?length_map; try assumption;
        try reflexivity.
      intros i Hi.
      rewrite (nth_map_in (fun u => 2 * Double_gaussian.x0 self - u) x i 0 0)
        by exact Hi.
      rewrite (nth_map_in (fun v => 2 * Double_gaussian.y0 self - v) y i 0 0)
        by (rewrite <- Hlen; exact Hi).
      apply to_native_half_turn.
    + unfold Double_gaussian.call. rewrite !length_map.
      destruct (Nat.eq_dec (List.length x) (List.length y)); [contradiction |].
      reflexivity.
Qed.

Lemma element_scale (self : Double_gaussian.t) (c xr yr : R) :
  Double_gaussian.element (with_scale self (c * Double_gaussian.scale self))
    xr yr
  = match Double_gaussian.element self xr yr with
    | Ok v => Ok (c * v)
    | Err e => Err e
    end.
Proof.
  unfold Double_gaussian.element.
  cbn [with_scale Double_gaussian.x0 Double_gaussian.y0 Double_gaussian.kappa
       Double_gaussian.width Double_gaussian.wavelength Double_gaussian.scale
       Double_gaussian.dx Double_gaussian.kappad].
  destruct (py_div _ (Double_gaussian.width self + Double_gaussian.wavelength self))
    as [q0 |]; cbn [bind]; [| reflexivity].
  destruct (math_cosh q0) as [ch |]; cbn [bind]; [| reflexivity].
  destruct (py_pow ch 2) as [ch2 |]; cbn [bind]; [| reflexivity].
  unfold py_div at 1 4.
  destruct (Req_dec_T ch2 0); cbn [bind]; [reflexivity |].
  destruct (py_div (xr - Double_gaussian.x0 self) (Double_gaussian.wavelength self))
    as [q1 |]; cbn [bind]; [| reflexivity].
  destruct (py_pow q1 2) as [s1 |]; cbn [bind]; [| reflexivity].
  destruct (math_exp (- s1)) as [e1 |]; cbn [bind]; [| reflexivity].
  destruct (py_div (xr - Double_gaussian.dx self - Double_gaussian.x0 self)
              (Double_gaussian.wavelength self))
    as [q2 |]; cbn [bind]; [| reflexivity].
  destruct (py_pow q2 2) as [s2 |]; cbn [bind]; [| reflexivity].
  destruct (math_exp (- s2)) as [e2 |]; cbn [bind]; [| reflexivity].
  f_equal. field. assumption.
Qed.

Lemma traverse_scaled {A : Type} (f g : A -> result R) (c : R) (l : list A) :
  (forall a, g a = match f a with Ok v => Ok (c * v) | Err e => Err e end) ->
  traverse g l
  = match traverse f l with
    | Ok vs => Ok (map (Rmult c) vs)
    | Err e => Err e
    end.
Proof.
  intros H. induction l as [| a l IH]; [reflexivity |].
  cbn [traverse]. rewrite H, IH.
  destruct (f a); cbn [bind]; [| reflexivity].
  destruct (traverse f l); reflexivity.
Qed.

(** X7.  The values are linear in the scale: multiplying the [scale] of an
    evaluator by [c] multiplies every value it returns by [c], and changes
    neither which elements overflow nor which exception is raised (in exact
    arithmetic). *)
Theorem values_linear_in_scale (self : Double_gaussian.t) (c : R)
        (x y : list R) :
  Double_gaussian.call (with_scale self (c * Double_gaussian.scale self)) x y
  = match Double_gaussian.call self x y with
    | Ok z => Ok (map (Rmult c) z)
    | Err e => Err e
    end.
Proof.
  destruct (Nat.eq_dec (List.length x) (List.length y)) as [Hlen | N].
  - rewrite !call_as_traverse by exact Hlen.
    apply traverse_scaled. intros p. unfold point_value.
    change (to_native (with_scale self (c * Double_gaussian.scale self)) p)
      with (to_native self p).
    rewrite element_scale.
    destruct (Double_gaussian.element self _ _) as [v | e]; [reflexivity |].
    destruct e; try reflexivity. f_equal. ring.
  - unfold Double_gaussian.call.
    destruct (Nat.eq_dec (List.length x) (List.length y)); [contradiction |].
    reflexivity.
Qed.

(** ** Symmetries and bounds of the extremum search *)

(** Two searches whose [deriv] expressions agree up to a shift of [x] by
    [t] run in step. *)
Lemma find_min_loop_sim (x0 wa x0' wa' kappad dx t : R) :
  (forall x, deriv_expr x0' wa' kappad dx (x + t) = deriv_expr x0 wa kappad dx x) ->
  forall st,
  find_min_loop x0' wa' kappad dx (shift_state t st)
  = match find_min_loop x0 wa kappad dx st with
    | Ok st' => Ok (shift_state t st')
    | Err e => Err e
    end.
Proof.
  intros Hd st.
  remember (Z.to_nat (count_max - fm_c st)) as m eqn:Hm.
  revert st Hm. induction m as [m IH] using lt_wf_ind. intros st Hm.
  rewrite (find_min_loop_step x0' wa' kappad dx (shift_state t st)).
  rewrite (find_min_loop_step x0 wa kappad dx st).
  cbn [shift_state fm_x fm_deriv fm_c fm_xstar].
  destruct (Z_lt_dec (fm_c st) count_max) as [Hlt |]; [| reflexivity].
  destruct (Rlt_dec 0 (fm_deriv st)); [| reflexivity].
  rewrite Hd.
  destruct (deriv_expr x0 wa kappad dx (fm_x st)) as [d |]; [| reflexivity].
  rewrite <- (IH (Z.to_nat (count_max - (fm_c st + 1))));
    [| subst m; lia | reflexivity].
  f_equal. unfold shift_state. cbn [fm_x fm_deriv fm_c fm_xstar].
  destruct (Rle_dec d 0); f_equal; ring.
Qed.

Lemma find_min_sim (x0 wa x0' wa' kappad dx t : R) :
  x0' = x0 + t ->
  (forall x, deriv_expr x0' wa' kappad dx (x + t) = deriv_expr x0 wa kappad dx x) ->
  (forall x, g_expr x0' wa' kappad dx (x + t) = g_expr x0 wa kappad dx x) ->
  find_min x0' wa' kappad dx = find_min x0 wa kappad dx.
Proof.
  intros Hx Hd Hg. unfold find_min.
  replace (mk_fm_state (x0' + 50) 10 0 None)
    with (shift_state t (mk_fm_state (x0 + 50) 10 0 None))
    by (unfold shift_state; cbn [fm_x fm_deriv fm_c fm_xstar]; subst x0';
        f_equal; ring).
  rewrite (find_min_loop_sim x0 wa x0' wa' kappad dx t Hd).
  destruct (find_min_loop x0 wa kappad dx (mk_fm_state (x0 + 50) 10 0 None))
    as [st |]; cbn [bind]; [| reflexivity].
  unfold shift_state. cbn [fm_xstar].
  destruct (fm_xstar st) as [v |]; cbn [bind]; [| reflexivity].
  rewrite Hg. reflexivity.
Qed.

(** The search sees its origin only through the differences [x - x0]. *)
Lemma find_min_shift (x0 wa kappad dx t : R) :
  find_min (x0 + t) wa kappad dx = find_min x0 wa kappad dx.
Proof.
  apply (find_min_sim x0 wa (x0 + t) wa kappad dx t); [reflexivity | |];
    intros x; unfold deriv_expr, g_expr;
    replace (x + t - (x0 + t)) with (x - x0) by ring;
    replace (x + t - dx - (x0 + t)) with (x - dx - x0) by ring;
    reflexivity.
Qed.

(** X8.  The search does not depend on where the origin is: [find_min]
    returns the same value, or raises the same exception, for [x0 + t] as
    for [x0] (in exact arithmetic; only differences [x - x0] enter). *)
Theorem find_min_translation_invariant (x0 wa kappad dx t : R) :
  find_min (x0 + t) wa kappad dx = find_min x0 wa kappad dx.
Proof. exact (find_min_shift x0 wa kappad dx t). Qed.

Lemma py_div_opp (a b : R) :
  py_div a (- b)
  = match py_div a b with Ok q => Ok (- q) | Err e => Err e end.
Proof.
  unfold py_div.
  destruct (Req_dec_T b 0) as [Hb | Hb];
    destruct (Req_dec_T (- b) 0) as [Hn | Hn]; try lra; [reflexivity |].
  f_equal. field. exact Hb.
Qed.

Lemma py_pow_2_opp (q : R) : py_pow (- q) 2 = py_pow q 2.
Proof. rewrite !py_pow_2. f_equal. ring. Qed.

(** X9.  Only the magnitude of the wavelength matters to the search:
    [find_min] returns the same value, or raises the same exception, for
    [- wa] as for [wa]. *)
Theorem find_min_wavelength_sign (x0 wa kappad dx : R) :
  find_min x0 (- wa) kappad dx = find_min x0 wa kappad dx.
Proof.
  apply (find_min_sim x0 wa x0 (- wa) kappad dx 0); [ring | |];
    intros x; rewrite Rplus_0_r; unfold deriv_expr, g_expr;
    rewrite !py_div_opp;
    destruct (py_div (x - x0) wa) as [q1 |]; cbn [bind];
      try reflexivity;
    destruct (py_div (x - dx - x0) wa) as [q2 |]; cbn [bind];
      rewrite ?py_pow_2_opp; reflexivity.
Qed.

Lemma range_checked_error (v : R) (e : exn) :
  range_checked v = Err e -> e = OverflowError.
Proof.
  unfold range_checked. destruct (Rlt_dec float_max (Rabs v)); [| discriminate].
  intros H. injection H as <-. reflexivity.
Qed.

Lemma lobe_expr_error (u wa : R) (e : exn) (k : R -> result R) :
  (forall v, k v = Err e -> e = ZeroDivisionError \/ e = OverflowError) ->
  (q <- py_div u wa ;; s <- py_pow q 2 ;; e1 <- math_exp (- s) ;; k e1) = Err e ->
  e = ZeroDivisionError \/ e = OverflowError.
Proof.
  intros Hk.
  destruct (py_div u wa) as [q |] eqn:Eq; cbn [bind];
    [| intros H; injection H as <-; left; eapply py_div_error; exact Eq].
  rewrite py_pow_2.
  destruct (range_checked (q * q)) as [s |] eqn:Es; cbn [bind];
    [| intros H; injection H as <-; right; eapply range_checked_error; exact Es].
  destruct (math_exp (- s)) as [e1 |] eqn:Ee; cbn [bind];
    [apply Hk
    | intros H; injection H as <-; right; eapply range_checked_error; exact Ee].
Qed.

Lemma deriv_expr_error (x0 wa kappad dx x : R) (e : exn) :
  deriv_expr x0 wa kappad dx x = Err e ->
  e = ZeroDivisionError \/ e = OverflowError.
Proof.
  unfold deriv_expr. apply lobe_expr_error. intros e1.
  apply lobe_expr_error. intros e2 H. discriminate.
Qed.

Lemma g_expr_error (x0 wa kappad dx x : R) (e : exn) :
  g_expr x0 wa kappad dx x = Err e ->
  e = ZeroDivisionError \/ e = OverflowError.
Proof.
  unfold g_expr. apply lobe_expr_error. intros e1.
  apply lobe_expr_error. intros e2 H. discriminate.
Qed.

Lemma lobe_expr_overflow (u wa : R) (e : exn) (k : R -> result R) :
  wa <> 0 ->
  (forall v, k v = Err e -> e = OverflowError) ->
  (q <- py_div u wa ;; s <- py_pow q 2 ;; e1 <- math_exp (- s) ;; k e1) = Err e ->
  e = OverflowError.
Proof.
  intros Hwa Hk. rewrite py_div_ok by exact Hwa. cbn [bind].
  rewrite py_pow_2.
  destruct (range_checked (u / wa * (u / wa))) as [s |] eqn:Es; cbn [bind];
    [| intros H; injection H as <-; eapply range_checked_error; exact Es].
  destruct (math_exp (- s)) as [e1 |] eqn:Ee; cbn [bind];
    [apply Hk
    | intros H; injection H as <-; eapply range_checked_error; exact Ee].
Qed.

Lemma deriv_expr_zero_division (x0 wa kappad dx x : R) :
  deriv_expr x0 wa kappad dx x = Err ZeroDivisionError -> wa = 0.
Proof.
  intros H. destruct (Req_dec_T wa 0) as [Hz | Hn]; [exact Hz | exfalso].
  unfold deriv_expr in H.
  apply lobe_expr_overflow in H; [discriminate | exact Hn |].
  intros e1. apply lobe_expr_overflow; [exact Hn |]. discriminate.
Qed.

Lemma g_expr_zero_division (x0 wa kappad dx x : R) :
  g_expr x0 wa kappad dx x = Err ZeroDivisionError -> wa = 0.
Proof.
  intros H. destruct (Req_dec_T wa 0) as [Hz | Hn]; [exact Hz | exfalso].
  unfold g_expr in H.
  apply lobe_expr_overflow in H; [discriminate | exact Hn |].
  intros e1. apply lobe_expr_overflow; [exact Hn |]. discriminate.
Qed.

(** An exception of the loop is an exception of its [deriv] expression. *)
Lemma find_min_loop_error (x0 wa kappad dx : R) (e : exn) :
  forall st,
  find_min_loop x0 wa kappad dx st = Err e ->
  exists x, deriv_expr x0 wa kappad dx x = Err e.
Proof.
  intros st.
  remember (Z.to_nat (count_max - fm_c st)) as m eqn:Hm.
  revert st Hm. induction m as [m IH] using lt_wf_ind. intros st Hm.
  rewrite find_min_loop_step.
  destruct (Z_lt_dec (fm_c st) count_max) as [Hlt |]; [| discriminate].
  destruct (Rlt_dec 0 (fm_deriv st)); [| discriminate].
  destruct (deriv_expr x0 wa kappad dx (fm_x st)) as [d | e'] eqn:Ed.
  - apply (IH (Z.to_nat (count_max - (fm_c st + 1))));
      [subst m; lia | reflexivity].
  - intros H. injection H as <-. exists (fm_x st). exact Ed.
Qed.

Lemma find_min_error_cases (x0 wa kappad dx : R) (e : exn) :
  find_min x0 wa kappad dx = Err e ->
  e = UnboundLocalError
  \/ (exists x, deriv_expr x0 wa kappad dx x = Err e)
  \/ (exists x, g_expr x0 wa kappad dx x = Err e).
Proof.
  unfold find_min.
  destruct (find_min_loop x0 wa kappad dx (mk_fm_state (x0 + 50) 10 0 None))
    as [st | e'] eqn:El; cbn [bind].
  - destruct (fm_xstar st) as [xstar |]; cbn [bind];
      [| intros H; injection H as <-; left; reflexivity].
    destruct (g_expr x0 wa kappad dx xstar) as [g | e'] eqn:Eg; cbn [bind];
      [discriminate |].
    intros H. injection H as <-. right. right. exists xstar. exact Eg.
  - intros H. injection H as <-. right. left.
    eapply find_min_loop_error. exact El.
Qed.

Lemma find_min_error_kinds (x0 wa kappad dx : R) (e : exn) :
  find_min x0 wa kappad dx = Err e ->
  e = ZeroDivisionError \/ e = OverflowError \/ e = UnboundLocalError.
Proof.
  intros H. destruct (find_min_error_cases _ _ _ _ _ H)
    as [Hu | [[x Hx] | [x Hx]]].
  - right. right. exact Hu.
  - destruct (deriv_expr_error _ _ _ _ _ _ Hx); auto.
  - destruct (g_expr_error _ _ _ _ _ _ Hx); auto.
Qed.

(** X10.  The exceptions of [find_min]: it raises [ZeroDivisionError]
    exactly when the wavelength is zero (and then in its first iteration,
    whatever the other arguments), and the only other exceptions it can
    raise are [OverflowError], from a squared quotient out of range, and
    [UnboundLocalError], from an [xstar] that was never assigned. *)
Theorem find_min_exceptions (x0 wa kappad dx : R) :
  (find_min x0 wa kappad dx = Err ZeroDivisionError <-> wa = 0)
  /\ (forall e, find_min x0 wa kappad dx = Err e ->
        e = ZeroDivisionError \/ e = OverflowError \/ e = UnboundLocalError).
Proof.
  split; [split | apply find_min_error_kinds].
  - intros H. destruct (find_min_error_cases _ _ _ _ _ H)
      as [Hu | [[x Hx] | [x Hx]]]; [discriminate | |].
    + eapply deriv_expr_zero_division. exact Hx.
    + eapply g_expr_zero_division. exact Hx.
  - intros ->. unfold find_min. rewrite find_min_loop_step.
    cbn [fm_c fm_deriv fm_x].
    destruct (Z_lt_dec 0 count_max) as [_ | N];
      [| exfalso; apply N; rewrite count_max_val; lia].
    destruct (Rlt_dec 0 10) as [_ | N]; [| exfalso; lra].
    unfold deriv_expr. rewrite py_div_zero. reflexivity.
Qed.

Lemma find_min_exceptions_witness :
  find_min 7 0 0.8 3 = Err ZeroDivisionError.
Proof.
  apply (proj1 (find_min_exceptions 7 0 0.8 3)). reflexivity.
Defined.

(** X11.  The value the search returns lies between [- kappad] and [1] for a
    non-negative [kappad], and between [0] and [1 - kappad] for a
    non-positive one, ends included; in particular it never exceeds
    [1 + |kappad|] in magnitude.  (In exact arithmetic the lower ends are
    not attained; in the interpreter they are, when an exponential
    underflows to [0.0], so they are not excluded here.) *)
Theorem find_min_value_bounds (x0 wa kappad dx nmin : R) :
  find_min x0 wa kappad dx = Ok nmin ->
  (0 <= kappad -> - kappad <= nmin <= 1)
  /\ (kappad <= 0 -> 0 <= nmin <= 1 - kappad)
  /\ Rabs nmin <= 1 + Rabs kappad.
Proof.
  intros H. apply find_min_inv in H as (xstar & _ & ->).
  unfold g_shape.
  pose proof (exp_neg_sq_bounds ((xstar - x0) / wa)) as H1.
  pose proof (exp_neg_sq_bounds ((xstar - dx - x0) / wa)) as H2.
  set (e1 := exp (- ((xstar - x0) / wa) ^ 2)) in *.
  set (e2 := exp (- ((xstar - dx - x0) / wa) ^ 2)) in *.
  assert (Hpos : 0 <= kappad -> 0 <= kappad * e2 <= kappad).
  { intros Hk. split; [apply Rmult_le_pos; lra |].
    rewrite <- (Rmult_1_r kappad) at 2. apply Rmult_le_compat_l; lra. }
  assert (Hneg : kappad <= 0 -> kappad <= kappad * e2 <= 0).
  { intros Hk. assert (0 <= - kappad * e2 <= - kappad).
    { split; [apply Rmult_le_pos; lra |].
      rewrite <- (Rmult_1_r (- kappad)) at 2. apply Rmult_le_compat_l; lra. }
    lra. }
  split; [intros Hk; specialize (Hpos Hk); lra |].
  split; [intros Hk; specialize (Hneg Hk); lra |].
  unfold Rabs. destruct (Rcase_abs (e1 - kappad * e2));
    destruct (Rcase_abs kappad);
    try (specialize (Hpos ltac:(lra)); lra);
    specialize (Hneg ltac:(lra)); lra.
Qed.

Lemma find_min_value_bounds_witness :
  - (0.8) <= g_shape 0 100 0.8 50 (x_at 0 1750) <= 1.
Proof.
  refine (proj1 (find_min_value_bounds 0 100 0.8 50
                   (g_shape 0 100 0.8 50 (x_at 0 1750)) two_lobe_search) _).
  lra.
Defined.

(** ** What the offset of the second Gaussian means *)

Lemma dx_formula_reaches_zsmall (w a zs : R) :
  dx_precondition a zs -> w <> 0 ->
  a * exp (- (5 * dx_formula w a zs / 2 / w) ^ 2) = zs.
Proof.
  intros (Ha & Hq0 & Hq1) Hw. unfold dx_formula.
  assert (Hln : 0 <= - ln (zs / a)).
  { destruct Hq1 as [Hlt | Heq].
    - assert (ln (zs / a) < ln 1) by (apply ln_increasing; assumption).
      rewrite ln_1 in *. lra.
    - rewrite Heq, ln_1. lra. }
  replace (5 * (0.4 * w * sqrt (- ln (zs / a))) / 2 / w)
    with (sqrt (- ln (zs / a))) by (decimal_field; exact Hw).
  rewrite pow2_sqrt by exact Hln.
  rewrite Ropp_involutive, exp_ln by exact Hq0.
  field. exact Ha.
Qed.

(** X13.  The offset [determineDX] computes is one fifth of the full width
    of the first Gaussian at the level [zsmall]: at the distance
    [5 * dx / 2] from its centre, the Gaussian of amplitude [a3D] and
    wavelength [wavelength] has fallen to exactly [zsmall].  The same holds
    for the offset [__init__] computes when [dx] is not supplied. *)
Theorem offset_is_fifth_of_width
  (self self' : Double_gaussian.t) (zsmall d : R) :
  Double_gaussian.wavelength self <> 0 ->
  (Double_gaussian.determineDX self zsmall = Ok (d, self')
   \/ (Double_gaussian.init (Double_gaussian.a3D self)
         (Double_gaussian.wavelength self) (Double_gaussian.width self)
         (Double_gaussian.x0 self) (Double_gaussian.y0 self)
         (Double_gaussian.alpha self) (Double_gaussian.kappa self)
         (Double_gaussian.kappad self) zsmall None
         (Double_gaussian.scale self) = Ok self'
       /\ d = Double_gaussian.dx self')) ->
  Double_gaussian.a3D self
  * exp (- (5 * d / 2 / Double_gaussian.wavelength self) ^ 2) = zsmall.
Proof.
  intros Hw H.
  assert (Hd : lobe_offset (Double_gaussian.wavelength self)
                 (Double_gaussian.a3D self) zsmall = Ok d).
  { destruct H as [H | [H ->]].
    - unfold Double_gaussian.determineDX in H.
      destruct (lobe_offset _ _ zsmall) as [v |]; cbn [bind] in H;
        [| discriminate].
      injection H as -> _. reflexivity.
    - unfold Double_gaussian.init in H.
      destruct (lobe_offset _ _ zsmall) as [v |]; cbn [bind] in H;
        [| discriminate].
      injection H as <-. reflexivity. }
  apply lobe_offset_inv in Hd as [Hpre ->].
  apply dx_formula_reaches_zsmall; assumption.
Qed.

Lemma offset_is_fifth_of_width_witness :
  2 * exp (- (5 * dx_formula 1000 2 0.01 / 2 / 1000) ^ 2) = 0.01.
Proof.
  apply (offset_is_fifth_of_width
           (Double_gaussian.mk 2 1000 250 0 0 0 3 0.8 1 7)
           (Double_gaussian.mk 2 1000 250 0 0 0 3 0.8 1
              (dx_formula 1000 2 0.01)) 0.01 (dx_formula 1000 2 0.01)).
  - cbn [Double_gaussian.wavelength]. lra.
  - left. unfold Double_gaussian.determineDX.
    cbn [Double_gaussian.a3D Double_gaussian.wavelength].
    rewrite lobe_offset_ok by exact default_zsmall_in_domain. reflexivity.
Defined.

(** X14.  [determineDX] reads [a3D] and [wavelength] only, so the last call
    decides: after any earlier call, [determineDX(z2)] returns what it would
    have returned on the original object and leaves the same object; a
    second call with the same [zsmall] changes nothing; and right after a
    construction with [dx] unset, [determineDX] with the constructor's
    [zsmall] returns the [dx] already stored and leaves the object as it
    is. *)
Theorem determineDX_last_call_wins
  (self s1 : Double_gaussian.t) (z1 z2 d1 : R) :
  Double_gaussian.determineDX self z1 = Ok (d1, s1) ->
  Double_gaussian.determineDX s1 z2 = Double_gaussian.determineDX self z2
  /\ Double_gaussian.determineDX s1 z1 = Ok (d1, s1)
  /\ (forall s0,
        Double_gaussian.init (Double_gaussian.a3D self)
          (Double_gaussian.wavelength self) (Double_gaussian.width self)
          (Double_gaussian.x0 self) (Double_gaussian.y0 self)
          (Double_gaussian.alpha self) (Double_gaussian.kappa self)
          (Double_gaussian.kappad self) z1 None
          (Double_gaussian.scale self) = Ok s0 ->
        s0 = s1
        /\ Double_gaussian.determineDX s0 z1 = Ok (Double_gaussian.dx s0, s0)).
Proof.
  intros H. unfold Double_gaussian.determineDX in H.
  destruct (lobe_offset (Double_gaussian.wavelength self)
              (Double_gaussian.a3D self) z1) as [v |] eqn:E; cbn [bind] in H;
    [| discriminate].
  injection H as -> <-.
  assert (Hsame : Double_gaussian.determineDX
                    (Double_gaussian.mk (Double_gaussian.a3D self)
                       (Double_gaussian.wavelength self)
                       (Double_gaussian.width self) (Double_gaussian.x0 self)
                       (Double_gaussian.y0 self) (Double_gaussian.alpha self)
                       (Double_gaussian.kappa self)
                       (Double_gaussian.kappad self)
                       (Double_gaussian.scale self) d1) z1
                  = Ok (d1, Double_gaussian.mk (Double_gaussian.a3D self)
                              (Double_gaussian.wavelength self)
                              (Double_gaussian.width self)
                              (Double_gaussian.x0 self)
                              (Double_gaussian.y0 self)
                              (Double_gaussian.alpha self)
                              (Double_gaussian.kappa self)
                              (Double_gaussian.kappad self)
                              (Double_gaussian.scale self) d1)).
  { unfold Double_gaussian.determineDX.
    cbn [Double_gaussian.a3D Double_gaussian.wavelength Double_gaussian.width
         Double_gaussian.x0 Double_gaussian.y0 Double_gaussian.alpha
         Double_gaussian.kappa Double_gaussian.kappad Double_gaussian.scale].
    rewrite E. reflexivity. }
  split; [reflexivity |]. split; [exact Hsame |].
  intros s0 H0. unfold Double_gaussian.init in H0. rewrite E in H0.
  cbn [bind] in H0. injection H0 as <-.
  split; [reflexivity | exact Hsame].
Qed.

Lemma determineDX_last_call_wins_witness :
  Double_gaussian.determineDX
    (Double_gaussian.mk 2 1000 250 0 0 0 3 0.8 1 (dx_formula 1000 2 0.01)) 0.5
  = Double_gaussian.determineDX
      (Double_gaussian.mk 2 1000 250 0 0 0 3 0.8 1 7) 0.5.
Proof.
  refine (proj1 (determineDX_last_call_wins
                   (Double_gaussian.mk 2 1000 250 0 0 0 3 0.8 1 7)
                   (Double_gaussian.mk 2 1000 250 0 0 0 3 0.8 1
                      (dx_formula 1000 2 0.01))
                   0.01 0.5 (dx_formula 1000 2 0.01) _)).
  unfold Double_gaussian.determineDX.
  cbn [Double_gaussian.a3D Double_gaussian.wavelength].
  rewrite lobe_offset_ok by exact default_zsmall_in_domain. reflexivity.
Defined.

Lemma dx_formula_monotone (w a z1 z2 : R) :
  0 <= w -> dx_precondition a z1 -> dx_precondition a z2 ->
  z1 / a <= z2 / a ->
  0 <= dx_formula w a z2 <= dx_formula w a z1.
Proof.
  intros Hw (Ha & Hp1 & Hq1) (_ & Hp2 & Hq2) Hle. unfold dx_formula.
  assert (Hl2 : ln (z2 / a) <= 0).
  { destruct Hq2 as [Hlt | Heq]; [| rewrite Heq, ln_1; lra].
    assert (ln (z2 / a) < ln 1) by (apply ln_increasing; assumption).
    rewrite ln_1 in *. lra. }
  assert (Hl12 : ln (z1 / a) <= ln (z2 / a)).
  { destruct Hle as [Hlt | Heq]; [| rewrite Heq; lra].
    left. apply ln_increasing; assumption. }
  assert (Hs : 0 <= sqrt (- ln (z2 / a)) <= sqrt (- ln (z1 / a)))
    by (split; [apply sqrt_pos | apply sqrt_le_1; lra]).
  generalize dependent (sqrt (- ln (z2 / a))).
  generalize dependent (sqrt (- ln (z1 / a))).
  intros s1 s2 Hs. nra.
Qed.

(** X15.  For a non-negative wavelength the offset is non-negative and
    grows as [zsmall] shrinks relative to the amplitude: if
    [z1/a3D <= z2/a3D] then [determineDX(z2) <= determineDX(z1)].  It
    vanishes when [zsmall = a3D]. *)
Theorem offset_decreases_with_zsmall
  (self s1 s2 : Double_gaussian.t) (z1 z2 d1 d2 : R) :
  0 <= Double_gaussian.wavelength self ->
  Double_gaussian.determineDX self z1 = Ok (d1, s1) ->
  Double_gaussian.determineDX self z2 = Ok (d2, s2) ->
  (z1 / Double_gaussian.a3D self <= z2 / Double_gaussian.a3D self ->
   0 <= d2 <= d1)
  /\ (z2 = Double_gaussian.a3D self -> d2 = 0).
Proof.
  intros Hw H1 H2. unfold Double_gaussian.determineDX in H1, H2.
  destruct (lobe_offset _ _ z1) as [v1 |] eqn:E1; cbn [bind] in H1;
    [| discriminate].
  destruct (lobe_offset _ _ z2) as [v2 |] eqn:E2; cbn [bind] in H2;
    [| discriminate].
  injection H1 as -> _. injection H2 as -> _.
  apply lobe_offset_inv in E1 as [P1 ->]. apply lobe_offset_inv in E2 as [P2 ->].
  split.
  - intros Hle. apply dx_formula_monotone; assumption.
  - intros ->. unfold dx_formula. destruct P2 as [Ha _].
    replace (Double_gaussian.a3D self / Double_gaussian.a3D self) with 1
      by (field; exact Ha).
    rewrite ln_1, Ropp_0, sqrt_0. ring.
Qed.

Lemma offset_decreases_with_zsmall_witness :
  0 <= dx_formula 1000 2 2 <= dx_formula 1000 2 0.01.
Proof.
  assert (P2 : dx_precondition 2 2) by (unfold dx_precondition; lra).
  refine (proj1 (offset_decreases_with_zsmall
                   (Double_gaussian.mk 2 1000 250 0 0 0 3 0.8 1 7)
                   (Double_gaussian.mk 2 1000 250 0 0 0 3 0.8 1
                      (dx_formula 1000 2 0.01))
                   (Double_gaussian.mk 2 1000 250 0 0 0 3 0.8 1
                      (dx_formula 1000 2 2))
                   0.01 2 (dx_formula 1000 2 0.01) (dx_formula 1000 2 2)
                   _ _ _) _).
  - cbn [Double_gaussian.wavelength]. lra.
  - unfold Double_gaussian.determineDX.
    cbn [Double_gaussian.a3D Double_gaussian.wavelength].
    rewrite lobe_offset_ok by exact default_zsmall_in_domain. reflexivity.
  - unfold Double_gaussian.determineDX.
    cbn [Double_gaussian.a3D Double_gaussian.wavelength].
    rewrite lobe_offset_ok by exact P2. reflexivity.
  - cbn [Double_gaussian.a3D]. lra.
Defined.

(** ** The derivation procedures, further *)

(** Splits the first step off a sequence that returned. *)
Tactic Notation "bind_ok" hyp(H) "as" ident(v) ident(E) :=
  match type of H with
  | bind ?m _ = Ok _ =>
      destruct m as [v |] eqn:E; cbn [bind] in H; [| discriminate H]
  end.

Lemma py_pow_error (x y : R) (e : exn) :
  py_pow x y = Err e -> arithmetic_error e.
Proof.
  unfold py_pow, arithmetic_error.
  destruct (Req_dec_T y 0); [discriminate |].
  destruct (Req_dec_T x 0).
  - destruct (Rlt_dec y 0); [| discriminate].
    intros H. injection H as <-. auto.
  - destruct (Rlt_dec x 0).
    + destruct (Req_dec_T (frac_part y) 0).
      * intros H. apply range_checked_error in H. auto.
      * intros H. injection H as <-. auto.
    + intros H. apply range_checked_error in H. auto.
Qed.

Lemma py_div_arith (a b : R) (e : exn) :
  py_div a b = Err e -> arithmetic_error e.
Proof. intros H. left. eapply py_div_error. exact H. Qed.

Lemma math_sqrt_arith (x : R) (e : exn) :
  math_sqrt x = Err e -> arithmetic_error e.
Proof. intros H. right. left. eapply math_sqrt_error. exact H. Qed.

Lemma math_exp_arith (x : R) (e : exn) :
  math_exp x = Err e -> arithmetic_error e.
Proof. intros H. right. right. eapply range_checked_error. exact H. Qed.

Lemma lobe_offset_arith (c a zsmall : R) (e : exn) :
  lobe_offset c a zsmall = Err e -> arithmetic_error e.
Proof.
  intros H.
  destruct (Req_dec_T a 0) as [-> | Ha].
  - rewrite lobe_offset_zero_amplitude in H. injection H as <-. left. reflexivity.
  - destruct (Rle_dec (zsmall / a) 0) as [Hq | Hq].
    + rewrite lobe_offset_log_domain in H by assumption.
      injection H as <-. right. left. reflexivity.
    + destruct (Rlt_dec 1 (zsmall / a)) as [Hq1 | Hq1].
      * rewrite lobe_offset_sqrt_domain in H by assumption.
        injection H as <-. right. left. reflexivity.
      * rewrite lobe_offset_ok in H by (unfold dx_precondition; lra).
        discriminate.
Qed.

(** Ends a goal [m >>= k = Err e -> arithmetic_error e] step by step. *)
Ltac arith_steps :=
  repeat
    match goal with
    | |- bind ?m _ = Err _ -> _ =>
        let E := fresh "E" in
        destruct m eqn:E; cbn [bind];
        [| let H := fresh "H" in
           intros H; injection H as <-;
           first [ eapply py_div_arith; exact E
                 | eapply math_sqrt_arith; exact E
                 | eapply math_exp_arith; exact E
                 | eapply py_pow_error; exact E ] ]
    end.

Lemma slump_radius_error (a : Slump.args) (e : exn) :
  Slump.radius_val a = Err e -> arithmetic_error e.
Proof.
  unfold Slump.radius_val. destruct (Slump.radius a); [discriminate |].
  arith_steps. apply py_div_arith.
Qed.

Lemma slump_derive_error (a : Slump.args) (e : exn) :
  Slump.derive a = Err e -> arithmetic_error e.
Proof.
  unfold Slump.derive. cbv zeta.
  destruct (Slump.radius_val a) as [radius_v | e'] eqn:Er; cbn [bind];
    [| intros H; injection H as <-; eapply slump_radius_error; exact Er].
  arith_steps. discriminate.
Qed.

(** What [slump_tsunami] has computed when its derivation returns. *)
Lemma slump_derive_inv (a : Slump.args) (d : Slump.derived) :
  Slump.derive a = Ok d ->
  Slump.radius_val a = Ok (Slump.d_radius d)
  /\ Slump.d_s0 d = Slump.d_radius d * Slump.dphi a / 2
  /\ Slump.gravity a * (Slump.gamma a - 1) <> 0
  /\ 0 <= Slump.d_radius d * (Slump.gamma a + Slump.massco a)
          / (Slump.gravity a * (Slump.gamma a - 1))
  /\ Slump.d_t0 d
     = sqrt (Slump.d_radius d * (Slump.gamma a + Slump.massco a)
             / (Slump.gravity a * (Slump.gamma a - 1)))
  /\ Slump.d_t0 d <> 0
  /\ 0 <= Slump.gravity a * Slump.depth a
  /\ Slump.d_w d = Slump.d_t0 d * sqrt (Slump.gravity a * Slump.depth a)
  /\ Slump.sint a <> 0 /\ Slump.length a <> 0 /\ Slump.depth a <> 0
  /\ Slump.d_radius d <> 0
  /\ (exists p2 p3 p4,
        py_pow (Slump.length a * Slump.sint a / Slump.depth a) 1.25 = Ok p2
        /\ py_pow (Slump.length a / Slump.d_radius d) 0.63 = Ok p3
        /\ py_pow (Slump.dphi a) 0.39 = Ok p4
        /\ Slump.d_a2D d
           = Slump.d_s0 d * (0.131 / Slump.sint a)
             * (Slump.thickness_val a / Slump.length a) * p2 * p3 * p4
             * (1.47 - (0.35 * (Slump.gamma a - 1))) * (Slump.gamma a - 1))
  /\ 0 <= Slump.depth a / Slump.length a
  /\ Slump.d_a3D d
     = Slump.d_a2D d / (1 + (2.06 * sqrt (Slump.depth a / Slump.length a))).
Proof.
  intros H. unfold Slump.derive in H. cbv zeta in H.
  bind_ok H as radius_v Er. bind_ok H as q Hq. bind_ok H as t0 Et0.
  bind_ok H as t02 Et02. bind_ok H as a0 Ea0. bind_ok H as um Eum.
  bind_ok H as rgd Ergd. bind_ok H as r0 Er0. bind_ok H as r1 Er1.
  bind_ok H as r2 Er2. bind_ok H as p2 Ep2. bind_ok H as r3 Er3.
  bind_ok H as p3 Ep3. bind_ok H as p4 Ep4. bind_ok H as r5 Er5.
  bind_ok H as r6 Er6. bind_ok H as a3D Ea3D.
  injection H as <-. cbn [Slump.d_radius Slump.d_s0 Slump.d_t0 Slump.d_a0
                           Slump.d_um Slump.d_w Slump.d_a2D Slump.d_a3D].
  apply py_div_inv in Hq as [Hq ->]. apply math_sqrt_inv in Et0 as [Hq0 ->].
  apply py_div_inv in Eum as [Ht0 _].
  apply math_sqrt_inv in Ergd as [Hgd ->].
  apply py_div_inv in Er0 as [Hs ->]. apply py_div_inv in Er1 as [Hl ->].
  apply py_div_inv in Er2 as [Hd ->]. apply py_div_inv in Er3 as [Hr ->].
  apply py_div_inv in Er5 as [_ ->]. apply math_sqrt_inv in Er6 as [H5 ->].
  apply py_div_inv in Ea3D as [_ ->].
  repeat match goal with |- _ /\ _ => split end;
    try assumption; try reflexivity.
  exists p2, p3, p4. repeat (split; [first [assumption | reflexivity] |]).
  reflexivity.
Qed.

(** X16.  [slump_tsunami] raises an arithmetic exception and returns no
    evaluator for its degenerate inputs: [gamma = 1], [gravity = 0], a
    slope with [sin(slope) = 0], [depth = 0], [length = 0], a radius of
    [0], and also [dphi = 0] or a thickness of [0], which make the amplitude
    [a3D] vanish so that the offset formula divides by zero. *)
Theorem slump_degenerate_inputs_raise (a : Slump.args) :
  Slump.gamma a = 1
  \/ Slump.gravity a = 0
  \/ Slump.sint a = 0
  \/ Slump.depth a = 0
  \/ Slump.length a = 0
  \/ Slump.radius a = Some 0
  \/ Slump.dphi a = 0
  \/ Slump.thickness a = Some 0 ->
  exists e, slump_tsunami a = Err e /\ arithmetic_error e.
Proof.
  intros Hcase. unfold slump_tsunami. cbv zeta.
  destruct (Slump.derive a) as [d | e] eqn:Hd; cbn [bind];
    [| exists e; split; [reflexivity | eapply slump_derive_error; exact Hd]].
  destruct (slump_derive_inv a d Hd)
    as (Hr & Hs0 & Hg & _ & _ & _ & _ & _ & Hsin & Hlen & Hdep & Hrad
        & (p2 & p3 & p4 & _ & _ & Hp4 & Ha2D) & _ & Ha3D).
  assert (Hzero : Slump.d_a2D d = 0 ->
                  exists e,
                    (dx <- lobe_offset (Slump.d_w d) (Slump.d_a3D d)
                             (Slump.zsmall a) ;;
                     nmin <- find_min (Slump.x0_rel a) (Slump.d_w d)
                               (Slump.kappad a) dx ;;
                     scale <- match Slump.scale a with
                              | None => py_div (Slump.d_a3D d) nmin
                              | Some v => Ok v
                              end ;;
                     _ <- Slump.range_checks a (Slump.d_radius d) ;;
                     Double_gaussian.init (Slump.d_a3D d) (Slump.d_w d)
                       (Slump.width_val a) (Slump.x0_rel a) (Slump.y0_rel a)
                       (Slump.alpha a) (Slump.kappa a) (Slump.kappad a)
                       (Slump.zsmall a) (Some dx) scale) = Err e
                    /\ arithmetic_error e).
  { intros Hz. rewrite Ha3D, Hz.
    replace (0 / (1 + 2.06 * sqrt (Slump.depth a / Slump.length a))) with 0
      by (unfold Rdiv; ring).
    rewrite lobe_offset_zero_amplitude. cbn [bind].
    exists ZeroDivisionError. split; [reflexivity | left; reflexivity]. }
  destruct Hcase as [H | [H | [H | [H | [H | [H | [H | H]]]]]]].
  - exfalso. apply Hg. rewrite H. ring.
  - exfalso. apply Hg. rewrite H. ring.
  - contradiction.
  - contradiction.
  - contradiction.
  - exfalso. unfold Slump.radius_val in Hr. rewrite H in Hr.
    injection Hr as Hr. apply Hrad. symmetry. exact Hr.
  - apply Hzero. rewrite Ha2D, Hs0, H. unfold Rdiv. ring.
  - apply Hzero. rewrite Ha2D. unfold Slump.thickness_val. rewrite H.
    unfold Rdiv. ring.
Qed.

Lemma slump_degenerate_inputs_raise_witness :
  (exists e, slump_tsunami (Slump.defaults 0 100 20) = Err e
             /\ arithmetic_error e)
  /\ (exists e, slump_tsunami (Slump.defaults 1000 0 20) = Err e
                /\ arithmetic_error e).
Proof.
  split.
  - apply (slump_degenerate_inputs_raise (Slump.defaults 0 100 20)).
    right. right. right. right. left. reflexivity.
  - apply (slump_degenerate_inputs_raise (Slump.defaults 1000 0 20)).
    right. right. right. left. reflexivity.
Defined.

(** What [slide_tsunami] has computed when its derivation returns. *)
Lemma slide_derive_inv (a : Slide.args) (d : Slide.derived) :
  Slide.derive a = Ok d ->
  Slide.gamma a + Slide.massco a <> 0
  /\ Slide.tant a <> 0 /\ Slide.depth a <> 0 /\ Slide.length a <> 0
  /\ Slide.length a * Slide.sint a <> 0
  /\ Slide.d_a0 d
     = Slide.gravity a * Slide.sint a
       * ((Slide.gamma a - 1) / (Slide.gamma a + Slide.massco a))
       * (1 - Slide.tanp a / Slide.tant a)
  /\ Slide.d_a0 d <> 0
  /\ 0 <= Slide.gravity a * Slide.depth a
          * (Slide.length a * Slide.sint a / Slide.depth a)
          * (math_pi * (Slide.gamma a - 1) / (2 * Slide.dragco a))
          * (1 - Slide.tanp a / Slide.tant a)
  /\ Slide.d_ut d
     = sqrt (Slide.gravity a * Slide.depth a
             * (Slide.length a * Slide.sint a / Slide.depth a)
             * (math_pi * (Slide.gamma a - 1) / (2 * Slide.dragco a))
             * (1 - Slide.tanp a / Slide.tant a))
  /\ Slide.d_s0 d = Slide.d_ut d * Slide.d_ut d / Slide.d_a0 d
  /\ Slide.d_t0 d = Slide.d_ut d / Slide.d_a0 d
  /\ 0 <= Slide.gravity a * Slide.depth a
  /\ Slide.d_w d = Slide.d_t0 d * sqrt (Slide.gravity a * Slide.depth a)
  /\ (exists p2 e,
        py_pow (Slide.length a * Slide.sint a / Slide.depth a) 1.25 = Ok p2
        /\ math_exp (- 2.2 * (Slide.gamma a - 1)) = Ok e
        /\ Slide.d_a2D d
           = Slide.d_s0 d * (0.0574 - (0.0431 * Slide.sint a))
             * (Slide.thickness_val a / Slide.length a) * p2 * (1 - e))
  /\ 0 <= Slide.depth a / (Slide.length a * Slide.sint a)
  /\ Slide.d_a3D d
     = Slide.d_a2D d
       / (1 + (15.5 * sqrt (Slide.depth a / (Slide.length a * Slide.sint a)))).
Proof.
  intros H. unfold Slide.derive, Slide.a0, Slide.ut in H.
  bind_ok H as a0_v Ea0. bind_ok H as ut_v Eut. bind_ok H as ut2 Eut2.
  bind_ok H as s0 Es0. bind_ok H as t0 Et0. bind_ok H as rgd Ergd.
  cbv zeta in H.
  bind_ok H as r1 Er1. bind_ok H as r2 Er2. bind_ok H as p2 Ep2.
  bind_ok H as e Ee. bind_ok H as r3 Er3. bind_ok H as r4 Er4.
  bind_ok H as a3D Ea3D.
  injection H as <-.
  cbn [Slide.d_a0 Slide.d_ut Slide.d_s0 Slide.d_t0 Slide.d_w Slide.d_a2D
       Slide.d_a3D].
  bind_ok Ea0 as q1 Eq1. bind_ok Ea0 as q2 Eq2. injection Ea0 as <-.
  apply py_div_inv in Eq1 as [Hgm ->]. apply py_div_inv in Eq2 as [Htan ->].
  apply py_div_inv in Er2 as [Hdep ->].
  cbn [bind] in Eut. bind_ok Eut as u2 Eu2. cbn [bind] in Eut.
  apply py_div_inv in Eu2 as [Hdrag ->].
  apply math_sqrt_inv in Eut as [HX ->].
  rewrite py_pow_2 in Eut2. apply range_checked_inv in Eut2 as [-> _].
  apply py_div_inv in Es0 as [Ha0 ->]. apply py_div_inv in Et0 as [_ ->].
  apply math_sqrt_inv in Ergd as [Hgd ->].
  apply py_div_inv in Er1 as [Hlen ->].
  apply py_div_inv in Er3 as [Hls ->]. apply math_sqrt_inv in Er4 as [H4 ->].
  apply py_div_inv in Ea3D as [_ ->].
  repeat match goal with |- _ /\ _ => split end;
    try assumption; try reflexivity.
  exists p2, e. repeat (split; [first [assumption | reflexivity] |]).
  reflexivity.
Qed.

Lemma slide_range_checks_error (a : Slide.args) (err : exn) :
  Slide.range_checks a = Err err -> err = ZeroDivisionError.
Proof.
  unfold Slide.range_checks.
  destruct (py_div (Slide.depth a) (Slide.length a)) eqn:E1; cbn [bind];
    [| intros H; injection H as <-; eapply py_div_error; exact E1].
  destruct (py_div (Slide.thickness_val a) (Slide.length a)) eqn:E2;
    cbn [bind]; [discriminate |].
  intros H; injection H as <-; eapply py_div_error; exact E2.
Qed.

Lemma slump_range_checks_error (a : Slump.args) (r : R) (err : exn) :
  Slump.range_checks a r = Err err -> err = ZeroDivisionError.
Proof.
  unfold Slump.range_checks.
  destruct (py_div (Slump.depth a) (Slump.length a)) eqn:E1; cbn [bind];
    [| intros H; injection H as <-; eapply py_div_error; exact E1].
  destruct (py_div (Slump.thickness_val a) (Slump.length a)) eqn:E2;
    cbn [bind];
    [| intros H; injection H as <-; eapply py_div_error; exact E2].
  destruct (py_div r (Slump.length a)) eqn:E3; cbn [bind]; [discriminate |].
  intros H; injection H as <-; eapply py_div_error; exact E3.
Qed.

Lemma slide_derive_error (a : Slide.args) (e : exn) :
  Slide.derive a = Err e -> arithmetic_error e.
Proof.
  unfold Slide.derive. cbv zeta.
  destruct (Slide.a0 a) as [a0_v | e'] eqn:Ea0; cbn [bind];
    [| intros H; injection H as <-; left; eapply slide_a0_error; exact Ea0].
  destruct (Slide.ut a) as [ut_v | e'] eqn:Eut; cbn [bind].
  - arith_steps. discriminate.
  - intros H. injection H as <-.
    destruct (slide_ut_error a e' Eut) as [-> | ->];
      [left | right; left]; reflexivity.
Qed.

Lemma calibration_tail_error
      (a3D_v w width_v x0_v y0_v alpha_v kappa_v kappad_v zsmall_v : R)
      (scale_arg : option R) (checks : result unit) (e : exn) :
  (forall err, checks = Err err -> err = ZeroDivisionError) ->
  (dx <- lobe_offset w a3D_v zsmall_v ;;
   nmin <- find_min x0_v w kappad_v dx ;;
   scale <- match scale_arg with
            | None => py_div a3D_v nmin
            | Some v => Ok v
            end ;;
   _ <- checks ;;
   Double_gaussian.init a3D_v w width_v x0_v y0_v alpha_v kappa_v kappad_v
     zsmall_v (Some dx) scale) = Err e ->
  arithmetic_error e \/ e = UnboundLocalError.
Proof.
  intros Hchecks.
  destruct (lobe_offset w a3D_v zsmall_v) as [dx |] eqn:Edx; cbn [bind];
    [| intros H; injection H as <-; left; eapply lobe_offset_arith; exact Edx].
  destruct (find_min x0_v w kappad_v dx) as [nmin |] eqn:Ef; cbn [bind].
  - destruct (match scale_arg with
              | Some v => Ok v
              | None => py_div a3D_v nmin
              end) as [sc | e'] eqn:Es; cbn [bind].
    + destruct checks as [[] | e'] eqn:Ec; cbn [bind]; [discriminate |].
      intros H. injection H as <-. left. left. apply Hchecks. reflexivity.
    + intros H. injection H as <-. left. left.
      destruct scale_arg; [discriminate |]. eapply py_div_error. exact Es.
  - intros H. injection H as <-.
    destruct (find_min_error_kinds x0_v w kappad_v dx _ Ef)
      as [-> | [-> | ->]]; unfold arithmetic_error; auto.
Qed.

(** X17.  The exceptions of the derivation procedures: [slide_tsunami] and
    [slump_tsunami] raise nothing but the exceptions of arithmetic
    ([ZeroDivisionError], [ValueError], [OverflowError]) and the
    [UnboundLocalError] of a search that never assigned [xstar]. *)
Theorem derivation_exceptions :
  (forall (a : Slide.args) (e : exn),
     slide_tsunami a = Err e -> arithmetic_error e \/ e = UnboundLocalError)
  /\ (forall (a : Slump.args) (e : exn),
        slump_tsunami a = Err e -> arithmetic_error e \/ e = UnboundLocalError).
Proof.
  split; intros a e.
  - unfold slide_tsunami. cbv zeta.
    destruct (Slide.derive a) as [d | e'] eqn:Ed; cbn [bind];
      [| intros H; injection H as <-; left; eapply slide_derive_error; exact Ed].
    apply calibration_tail_error. apply slide_range_checks_error.
  - unfold slump_tsunami. cbv zeta.
    destruct (Slump.derive a) as [d | e'] eqn:Ed; cbn [bind];
      [| intros H; injection H as <-; left; eapply slump_derive_error; exact Ed].
    apply calibration_tail_error. apply slump_range_checks_error.
Qed.

Lemma slump_of_zero_length :
  slump_tsunami (Slump.defaults 0 100 20) = Err ZeroDivisionError.
Proof.
  unfold slump_tsunami, Slump.derive, Slump.radius_val, Slump.thickness_val,
    Slump.defaults.
  cbn [Slump.radius Slump.thickness Slump.length].
  rewrite py_pow_2, range_checked_small by lra. cbn [bind].
  replace (8.0 * (0.1 * 0)) with 0 by lra.
  rewrite py_div_zero. reflexivity.
Qed.

Lemma derivation_exceptions_witness :
  arithmetic_error ZeroDivisionError \/ ZeroDivisionError = UnboundLocalError.
Proof.
  exact (proj2 derivation_exceptions (Slump.defaults 0 100 20)
           ZeroDivisionError slump_of_zero_length).
Defined.

Lemma quotient_by_at_least_one (n r : R) :
  0 <= r -> Rabs (n / (1 + r)) <= Rabs n /\ 0 <= n * (n / (1 + r)).
Proof.
  intros Hr.
  assert (Hi : 0 < / (1 + r) <= 1).
  { split; [apply Rinv_0_lt_compat; lra |].
    rewrite <- Rinv_1. apply Rinv_le_contravar; lra. }
  unfold Rdiv. rewrite Rabs_mult, (Rabs_pos_eq (/ (1 + r))) by lra.
  pose proof (Rabs_pos n) as Hn. split; [nra |].
  replace (n * (n * / (1 + r))) with (n * n * / (1 + r)) by ring.
  apply Rmult_le_pos; [nra | lra].
Qed.

(** X18.  The three-dimensional amplitude never exceeds the two-dimensional
    one: whenever a derivation returns, [a3D] has the sign of [a2D] and
    [|a3D| <= |a2D|], for slides and for slumps. *)
Theorem amplitude_3d_at_most_2d :
  (forall (a : Slide.args) (d : Slide.derived),
     Slide.derive a = Ok d ->
     Rabs (Slide.d_a3D d) <= Rabs (Slide.d_a2D d)
     /\ 0 <= Slide.d_a2D d * Slide.d_a3D d)
  /\ (forall (a : Slump.args) (d : Slump.derived),
        Slump.derive a = Ok d ->
        Rabs (Slump.d_a3D d) <= Rabs (Slump.d_a2D d)
        /\ 0 <= Slump.d_a2D d * Slump.d_a3D d).
Proof.
  split; intros a d H.
  - apply slide_derive_inv in H.
    repeat match type of H with _ /\ _ => destruct H as [_ H] end.
    rewrite H. apply quotient_by_at_least_one.
    pose proof (sqrt_pos (Slide.depth a / (Slide.length a * Slide.sint a))).
    lra.
  - apply slump_derive_inv in H.
    repeat match type of H with _ /\ _ => destruct H as [_ H] end.
    rewrite H. apply quotient_by_at_least_one.
    pose proof (sqrt_pos (Slump.depth a / Slump.length a)). lra.
Qed.

Lemma amplitude_3d_at_most_2d_witness :
  Rabs 0.07336 <= Rabs 0.2244816 /\ 0 <= 0.2244816 * 0.07336.
Proof.
  exact (proj2 amplitude_3d_at_most_2d steep_slump
           (Slump.mk_derived 9.8 4.9 2 1.225 2.45 19.6 0.2244816 0.07336)
           steep_slump_derive).
Defined.

Lemma sqrt_scaled_pair (g D dep : R) :
  0 < g -> 0 <= g * D -> 0 <= g * dep ->
  sqrt (g * D) * sqrt (g * dep) = g * (sqrt D * sqrt dep).
Proof.
  intros Hg HD Hdep.
  assert (D0 : 0 <= D) by nra. assert (P0 : 0 <= dep) by nra.
  rewrite !sqrt_mult by lra.
  replace (sqrt g * sqrt D * (sqrt g * sqrt dep))
    with (sqrt g * sqrt g * (sqrt D * sqrt dep)) by ring.
  rewrite sqrt_sqrt by lra. reflexivity.
Qed.

(** The wavelength and the amplitude of a slide do not depend on the
    (positive) gravity. *)
Lemma slide_derive_gravity (a : Slide.args) (g1 g2 : R)
      (d1 d2 : Slide.derived) :
  0 < g1 -> 0 < g2 ->
  Slide.derive (slide_with_gravity a g1) = Ok d1 ->
  Slide.derive (slide_with_gravity a g2) = Ok d2 ->
  Slide.d_w d1 = Slide.d_w d2 /\ Slide.d_a3D d1 = Slide.d_a3D d2.
Proof.
  intros Hg1 Hg2 H1 H2.
  apply slide_derive_inv in H1
    as (Hgm & Htan & Hdep & Hlen & Hls & Ea0 & Ha0 & HX & Eut & Es0 & Et0
        & Hgd & Ew & (p2 & e & Ep2 & Ee & Ea2D) & H4 & Ea3D).
  apply slide_derive_inv in H2
    as (_ & _ & _ & _ & _ & Ea0' & Ha0' & HX' & Eut' & Es0' & Et0'
        & Hgd' & Ew' & (p2' & e' & Ep2' & Ee' & Ea2D') & _ & Ea3D').
  unfold slide_with_gravity, Slide.sint, Slide.tant, Slide.tanp,
    Slide.thickness_val in *.
  cbn [Slide.length Slide.depth Slide.slope Slide.thickness Slide.gravity
       Slide.gamma Slide.massco Slide.dragco Slide.psi] in *.
  rewrite Ep2 in Ep2'. injection Ep2' as <-.
  rewrite Ee in Ee'. injection Ee' as <-.
  set (sint := math_sin (math_radians (Slide.slope a))) in *.
  set (rt := Slide.psi a) in *.
  set (r := 1 - math_tan (math_radians rt)
                / math_tan (math_radians (Slide.slope a))) in *.
  set (A := sint * ((Slide.gamma a - 1) / (Slide.gamma a + Slide.massco a)) * r).
  set (D := Slide.depth a * (Slide.length a * sint / Slide.depth a)
            * (math_pi * (Slide.gamma a - 1) / (2 * Slide.dragco a)) * r).
  assert (EX1 : g1 * Slide.depth a * (Slide.length a * sint / Slide.depth a)
                * (math_pi * (Slide.gamma a - 1) / (2 * Slide.dragco a)) * r
                = g1 * D) by (unfold D; ring).
  assert (EX2 : g2 * Slide.depth a * (Slide.length a * sint / Slide.depth a)
                * (math_pi * (Slide.gamma a - 1) / (2 * Slide.dragco a)) * r
                = g2 * D) by (unfold D; ring).
  assert (EA1 : Slide.d_a0 d1 = g1 * A) by (rewrite Ea0; unfold A; ring).
  assert (EA2 : Slide.d_a0 d2 = g2 * A) by (rewrite Ea0'; unfold A; ring).
  rewrite EX1 in *. rewrite EX2 in *.
  assert (HA : A <> 0) by (intros Hz; apply Ha0; rewrite EA1, Hz; ring).
  assert (Hs0 : Slide.d_s0 d1 = Slide.d_s0 d2).
  { rewrite Es0, Es0', Eut, Eut', !sqrt_sqrt, EA1, EA2 by assumption.
    field. repeat split; lra. }
  split.
  - rewrite Ew, Ew', Et0, Et0', Eut, Eut', EA1, EA2.
    unfold Rdiv. rewrite !(Rmult_comm (sqrt _) (/ _)), !Rmult_assoc.
    rewrite !sqrt_scaled_pair by assumption.
    field. repeat split; lra.
  - rewrite Ea3D, Ea3D', Ea2D, Ea2D', Hs0. reflexivity.
Qed.

(** The wavelength and the amplitude of a slump do not depend on the
    (positive) gravity either. *)
Lemma slump_derive_gravity (a : Slump.args) (g1 g2 : R)
      (d1 d2 : Slump.derived) :
  0 < g1 -> 0 < g2 ->
  Slump.derive (slump_with_gravity a g1) = Ok d1 ->
  Slump.derive (slump_with_gravity a g2) = Ok d2 ->
  Slump.d_w d1 = Slump.d_w d2 /\ Slump.d_a3D d1 = Slump.d_a3D d2
  /\ Slump.d_radius d1 = Slump.d_radius d2.
Proof.
  intros Hg1 Hg2 H1 H2.
  apply slump_derive_inv in H1
    as (Er & Es0 & Hgc & Hq & Et0 & _ & Hgd & Ew & _ & _ & _ & _
        & (p2 & p3 & p4 & Ep2 & Ep3 & Ep4 & Ea2D) & _ & Ea3D).
  apply slump_derive_inv in H2
    as (Er' & Es0' & Hgc' & Hq' & Et0' & _ & Hgd' & Ew' & _ & _ & _ & _
        & (p2' & p3' & p4' & Ep2' & Ep3' & Ep4' & Ea2D') & _ & Ea3D').
  unfold slump_with_gravity, Slump.radius_val, Slump.sint,
    Slump.thickness_val in *.
  cbn [Slump.length Slump.depth Slump.slope Slump.thickness Slump.radius
       Slump.dphi Slump.gravity Slump.gamma Slump.massco] in *.
  rewrite Er in Er'. injection Er' as Hrad.
  rewrite <- Hrad in *.
  rewrite Ep2 in Ep2'. injection Ep2' as <-.
  rewrite Ep3 in Ep3'. injection Ep3' as <-.
  rewrite Ep4 in Ep4'. injection Ep4' as <-.
  split; [| split; [| reflexivity]].
  - rewrite Ew, Ew', Et0, Et0'.
    assert (Hc : Slump.gamma a - 1 <> 0) by (intros Hz; apply Hgc; rewrite Hz; ring).
    rewrite <- !sqrt_mult_alt by assumption.
    f_equal. field. repeat split; lra.
  - rewrite Ea3D, Ea3D', Ea2D, Ea2D', Es0, Es0'. reflexivity.
Qed.

(** X19.  Gravity cancels out of both derivations (in exact arithmetic):
    whenever [slide_tsunami], or [slump_tsunami], returns for two positive
    values of [gravity], all other arguments being equal, it returns the
    same evaluator.  Gravity enters the wavelength only through
    [t0 * sqrt(gravity*depth)], where it cancels, and does not enter the
    amplitude. *)
Theorem gravity_cancels_out (g1 g2 : R) :
  0 < g1 -> 0 < g2 ->
  (forall (a : Slide.args) (e1 e2 : Double_gaussian.t),
     slide_tsunami (slide_with_gravity a g1) = Ok e1 ->
     slide_tsunami (slide_with_gravity a g2) = Ok e2 ->
     e1 = e2)
  /\ (forall (a : Slump.args) (e1 e2 : Double_gaussian.t),
        slump_tsunami (slump_with_gravity a g1) = Ok e1 ->
        slump_tsunami (slump_with_gravity a g2) = Ok e2 ->
        e1 = e2).
Proof.
  intros Hg1 Hg2. split; intros a e1 e2 H1 H2.
  - unfold slide_tsunami in H1, H2. cbv zeta in H1, H2.
    bind_ok H1 as d1 Hd1. bind_ok H2 as d2 Hd2.
    destruct (slide_derive_gravity a g1 g2 d1 d2 Hg1 Hg2 Hd1 Hd2) as [Hw Ha].
    rewrite Hw, Ha in H1.
    assert (E : Ok e1 = Ok e2) by (rewrite <- H1, <- H2; reflexivity).
    injection E as E. exact E.
  - unfold slump_tsunami in H1, H2. cbv zeta in H1, H2.
    bind_ok H1 as d1 Hd1. bind_ok H2 as d2 Hd2.
    destruct (slump_derive_gravity a g1 g2 d1 d2 Hg1 Hg2 Hd1 Hd2)
      as (Hw & Ha & Hr).
    rewrite Hw, Ha, Hr in H1.
    assert (E : Ok e1 = Ok e2) by (rewrite <- H1, <- H2; reflexivity).
    injection E as E. exact E.
Qed.

(** *** The same slump under another gravity *)

Lemma steep_slump_heavy_derive :
  Slump.derive (slump_with_gravity steep_slump 39.2)
  = Ok (Slump.mk_derived 9.8 4.9 1 4.9 4.9 19.6 0.2244816 0.07336).
Proof.
  unfold Slump.derive, slump_with_gravity, steep_slump, Slump.radius_val,
    Slump.thickness_val, Slump.sint.
  cbn [Slump.length Slump.depth Slump.slope Slump.width Slump.thickness
       Slump.radius Slump.dphi Slump.gravity Slump.gamma Slump.massco bind].
  rewrite sin_right_angle.
  rewrite py_div_ok by lra. cbn [bind].
  replace (9.8 * (2 + 2) / (39.2 * (2 - 1))) with (1 * 1) by lra.
  rewrite math_sqrt_ok by lra. cbn [bind]. rewrite sqrt_square by lra.
  rewrite py_pow_2, range_checked_small by lra. cbn [bind].
  rewrite !py_div_ok by lra. cbn [bind].
  replace (39.2 * 9.8) with (19.6 * 19.6) by lra.
  rewrite math_sqrt_ok by lra. cbn [bind]. rewrite sqrt_square by lra.
  replace (9.8 * 1 / 9.8) with 1 by lra.
  replace (9.8 / 9.8) with 1 by lra.
  rewrite !py_pow_one. cbn [bind].
  rewrite math_sqrt_ok by lra. cbn [bind]. rewrite sqrt_1.
  rewrite py_div_ok by lra. cbn [bind].
  f_equal. f_equal; lra.
Qed.

Lemma steep_slump_heavy_result :
  slump_tsunami (slump_with_gravity steep_slump 39.2) = Ok steep_slump_evaluator.
Proof.
  unfold slump_tsunami. cbv zeta. rewrite steep_slump_heavy_derive. cbn [bind].
  unfold Slump.x0_rel, Slump.y0_rel, Slump.width_val, Slump.range_checks,
    Slump.thickness_val.
  cbn [Slump.d_w Slump.d_a3D Slump.d_radius].
  unfold slump_with_gravity, steep_slump.
  cbn [Slump.zsmall Slump.kappad Slump.scale Slump.domain Slump.x0 Slump.y0
       Slump.width Slump.length Slump.depth Slump.thickness Slump.alpha
       Slump.kappa].
  destruct steep_slump_offset as [Hoff Hdx].
  rewrite Hoff. cbn [bind].
  destruct (steep_search steep_slump_dx Hdx) as [Hfm _].
  rewrite Hfm. cbn [bind]. fold steep_slump_nmin.
  pose proof steep_slump_nmin_bounds as Hn.
  rewrite py_div_ok by lra. cbn [bind].
  rewrite !py_div_ok by lra. cbn [bind].
  reflexivity.
Qed.

Lemma gravity_cancels_out_witness :
  slump_tsunami (slump_with_gravity steep_slump 9.8) = Ok steep_slump_evaluator
  /\ slump_tsunami (slump_with_gravity steep_slump 39.2)
     = Ok steep_slump_evaluator
  /\ steep_slump_evaluator = steep_slump_evaluator.
Proof.
  split; [exact steep_slump_result |]. split; [exact steep_slump_heavy_result |].
  refine (proj2 (gravity_cancels_out 9.8 39.2 _ _) steep_slump
            steep_slump_evaluator steep_slump_evaluator
            steep_slump_result steep_slump_heavy_result); lra.
Defined.

(** *** Evaluators built relative to a domain *)

Lemma point_value_origin_shift (self : Double_gaussian.t) (tx ty : R)
      (p : R * R) :
  point_value (with_origin_shift self tx ty) (fst p - tx, snd p - ty)
  = point_value self p.
Proof.
  destruct p as [px py]. unfold point_value. cbn [fst snd].
  destruct (to_native_coordinates (with_origin_shift self tx ty)
              (px - tx) (py - ty)) as [Ex Ey].
  destruct (to_native_coordinates self px py) as [Fx Fy].
  cbv zeta in Ex, Ey, Fx, Fy.
  cbn [with_origin_shift Double_gaussian.x0 Double_gaussian.y0
       Double_gaussian.alpha] in Ex, Ey.
  assert (Hx : fst (to_native (with_origin_shift self tx ty) (px - tx, py - ty))
               = fst (to_native self (px, py)) - tx)
    by (rewrite Ex, Fx; ring).
  assert (Hy : snd (to_native (with_origin_shift self tx ty) (px - tx, py - ty))
               = snd (to_native self (px, py)) - ty)
    by (rewrite Ey, Fy; ring).
  rewrite Hx, Hy.
  set (xr := fst (to_native self (px, py))).
  set (yr := snd (to_native self (px, py))).
  assert (He : Double_gaussian.element (with_origin_shift self tx ty)
                 (xr - tx) (yr - ty)
               = Double_gaussian.element self xr yr).
  { unfold Double_gaussian.element.
    cbn [with_origin_shift Double_gaussian.x0 Double_gaussian.y0
         Double_gaussian.kappa Double_gaussian.width
         Double_gaussian.wavelength Double_gaussian.scale
         Double_gaussian.dx Double_gaussian.kappad].
    replace (yr - ty - (Double_gaussian.y0 self - ty))
      with (yr - Double_gaussian.y0 self) by ring.
    replace (xr - tx - (Double_gaussian.x0 self - tx))
      with (xr - Double_gaussian.x0 self) by ring.
    replace (xr - tx - Double_gaussian.dx self - (Double_gaussian.x0 self - tx))
      with (xr - Double_gaussian.dx self - Double_gaussian.x0 self) by ring.
    reflexivity. }
  rewrite He. reflexivity.
Qed.

Lemma combine_map2 {A B : Type} (f : A -> A) (g : B -> B)
      (x : list A) (y : list B) :
  combine (map f x) (map g y)
  = map (fun p => (f (fst p), g (snd p))) (combine x y).
Proof.
  revert y. induction x as [| a x IH]; intros [| b y]; simpl; try reflexivity.
  rewrite IH. reflexivity.
Qed.

(** Moving the origin of the evaluator and the points by the same vector
    leaves the values unchanged. *)
Lemma call_origin_shift (self : Double_gaussian.t) (tx ty : R)
      (xs ys : list R) :
  Double_gaussian.call (with_origin_shift self tx ty)
    (map (fun x => x - tx) xs) (map (fun y => y - ty) ys)
  = Double_gaussian.call self xs ys.
Proof.
  destruct (Nat.eq_dec (List.length xs) (List.length ys)) as [Hlen | N].
  - rewrite !call_as_traverse by (rewrite ?length_map; exact Hlen).
    rewrite combine_map2, traverse_map.
    apply traverse_ext_in. intros p _. apply point_value_origin_shift.
  - unfold Double_gaussian.call. rewrite !length_map.
    destruct (Nat.eq_dec (List.length xs) (List.length ys)); [contradiction |].
    reflexivity.
Qed.

(** With a domain, the procedures build the same evaluator about the origin
    taken relative to the lower-left corner of the domain. *)
Lemma slide_domain_origin (a : Slide.args) (g : geo_reference) :
  slide_tsunami (slide_with_domain a (Some g))
  = match slide_tsunami (slide_with_domain a None) with
    | Ok e => Ok (with_origin_shift e (xllcorner g) (yllcorner g))
    | Err err => Err err
    end.
Proof.
  unfold slide_tsunami. cbv zeta.
  change (Slide.derive (slide_with_domain a (Some g))) with (Slide.derive a).
  change (Slide.derive (slide_with_domain a None)) with (Slide.derive a).
  change (Slide.range_checks (slide_with_domain a (Some g)))
    with (Slide.range_checks a).
  change (Slide.range_checks (slide_with_domain a None))
    with (Slide.range_checks a).
  change (Slide.width_val (slide_with_domain a (Some g)))
    with (Slide.width_val a).
  change (Slide.width_val (slide_with_domain a None)) with (Slide.width_val a).
  unfold Slide.x0_rel, Slide.y0_rel, slide_with_domain.
  cbn [Slide.domain Slide.x0 Slide.y0 Slide.zsmall Slide.kappad Slide.scale
       Slide.alpha Slide.kappa].
  destruct (Slide.derive a) as [d |]; cbn [bind]; [| reflexivity].
  destruct (lobe_offset (Slide.d_w d) (Slide.d_a3D d) (Slide.zsmall a))
    as [dx |]; cbn [bind]; [| reflexivity].
  replace (Slide.x0 a - xllcorner g) with (Slide.x0 a + - xllcorner g) by ring.
  rewrite find_min_shift.
  destruct (find_min (Slide.x0 a) (Slide.d_w d) (Slide.kappad a) dx)
    as [nmin |]; cbn [bind]; [| reflexivity].
  destruct (match Slide.scale a with
            | Some v => Ok v
            | None => py_div (Slide.d_a3D d) nmin
            end) as [sc |]; cbn [bind]; [| reflexivity].
  destruct (Slide.range_checks a) as [[] |]; cbn [bind]; [| reflexivity].
  reflexivity.
Qed.

Lemma slump_domain_origin (a : Slump.args) (g : geo_reference) :
  slump_tsunami (slump_with_domain a (Some g))
  = match slump_tsunami (slump_with_domain a None) with
    | Ok e => Ok (with_origin_shift e (xllcorner g) (yllcorner g))
    | Err err => Err err
    end.
Proof.
  unfold slump_tsunami. cbv zeta.
  change (Slump.derive (slump_with_domain a (Some g))) with (Slump.derive a).
  change (Slump.derive (slump_with_domain a None)) with (Slump.derive a).
  destruct (Slump.derive a) as [d |]; cbn [bind]; [| reflexivity].
  change (Slump.range_checks (slump_with_domain a (Some g)) (Slump.d_radius d))
    with (Slump.range_checks a (Slump.d_radius d)).
  change (Slump.range_checks (slump_with_domain a None) (Slump.d_radius d))
    with (Slump.range_checks a (Slump.d_radius d)).
  change (Slump.width_val (slump_with_domain a (Some g)))
    with (Slump.width_val a).
  change (Slump.width_val (slump_with_domain a None)) with (Slump.width_val a).
  unfold Slump.x0_rel, Slump.y0_rel, slump_with_domain.
  cbn [Slump.domain Slump.x0 Slump.y0 Slump.zsmall Slump.kappad Slump.scale
       Slump.alpha Slump.kappa].
  destruct (lobe_offset (Slump.d_w d) (Slump.d_a3D d) (Slump.zsmall a))
    as [dx |]; cbn [bind]; [| reflexivity].
  replace (Slump.x0 a - xllcorner g) with (Slump.x0 a + - xllcorner g) by ring.
  rewrite find_min_shift.
  destruct (find_min (Slump.x0 a) (Slump.d_w d) (Slump.kappad a) dx)
    as [nmin |]; cbn [bind]; [| reflexivity].
  destruct (match Slump.scale a with
            | Some v => Ok v
            | None => py_div (Slump.d_a3D d) nmin
            end) as [sc |]; cbn [bind]; [| reflexivity].
  destruct (Slump.range_checks a (Slump.d_radius d)) as [[] |]; cbn [bind];
    [| reflexivity].
  reflexivity.
Qed.

(** X20.  Building an evaluator with a [domain] and evaluating it at
    coordinates relative to the lower-left corner of the domain gives what
    the evaluator built without a domain gives at the absolute coordinates,
    for [slide_tsunami] and for [slump_tsunami]: the same values, or the
    same exception (in exact arithmetic). *)
Theorem domain_relative_evaluation (g : geo_reference) (xs ys : list R) :
  (forall a : Slide.args,
     (e <- slide_tsunami (slide_with_domain a (Some g)) ;;
      Double_gaussian.call e (map (fun x => x - xllcorner g) xs)
        (map (fun y => y - yllcorner g) ys))
     = (e <- slide_tsunami (slide_with_domain a None) ;;
        Double_gaussian.call e xs ys))
  /\ (forall a : Slump.args,
        (e <- slump_tsunami (slump_with_domain a (Some g)) ;;
         Double_gaussian.call e (map (fun x => x - xllcorner g) xs)
           (map (fun y => y - yllcorner g) ys))
        = (e <- slump_tsunami (slump_with_domain a None) ;;
           Double_gaussian.call e xs ys)).
Proof.
  split; intros a.
  - rewrite slide_domain_origin.
    destruct (slide_tsunami (slide_with_domain a None)) as [e |]; cbn [bind];
      [apply call_origin_shift | reflexivity].
  - rewrite slump_domain_origin.
    destruct (slump_tsunami (slump_with_domain a None)) as [e |]; cbn [bind];
      [apply call_origin_shift | reflexivity].
Qed.

(** *** The evaluator a derivation returns *)

(** The evaluator the common tail of the two procedures returns. *)
Lemma calibration_tail_well_formed
      (a3D_v w width_v x0_v y0_v alpha_v kappa_v kappad_v zsmall_v : R)
      (scale_arg : option R) (checks : result unit) (dg : Double_gaussian.t) :
  (dx <- lobe_offset w a3D_v zsmall_v ;;
   nmin <- find_min x0_v w kappad_v dx ;;
   scale <- match scale_arg with
            | None => py_div a3D_v nmin
            | Some v => Ok v
            end ;;
   _ <- checks ;;
   Double_gaussian.init a3D_v w width_v x0_v y0_v alpha_v kappa_v kappad_v
     zsmall_v (Some dx) scale) = Ok dg ->
  Double_gaussian.a3D dg = a3D_v
  /\ Double_gaussian.wavelength dg = w
  /\ w <> 0
  /\ dx_precondition a3D_v zsmall_v
  /\ Double_gaussian.dx dg = dx_formula w a3D_v zsmall_v
  /\ (scale_arg = None -> Double_gaussian.scale dg <> 0).
Proof.
  intros H.
  destruct (calibration_tail_inv _ _ _ _ _ _ _ _ _ _ _ _ H)
    as (dx_v & nmin & Hdx & Hmin & Hnz & ->).
  apply lobe_offset_inv in Hdx as [Hpre ->].
  destruct (find_min_inv _ _ _ _ _ Hmin) as (xstar & (Hw & _) & _).
  cbn [Double_gaussian.a3D Double_gaussian.wavelength Double_gaussian.dx
       Double_gaussian.scale].
  repeat (split; [first [reflexivity | assumption] |]).
  intros ->. specialize (Hnz eq_refl). destruct Hpre as [Ha _].
  unfold Rdiv. apply Rmult_integral_contrapositive_currified;
    [exact Ha | apply Rinv_neq_0_compat; exact Hnz].
Qed.

(** X21.  An evaluator returned by [slide_tsunami] or [slump_tsunami] is
    well formed: its wavelength is not zero, its amplitude [a3D] is not zero
    and satisfies [0 < zsmall/a3D <= 1], its offset is
    [0.4 * wavelength * sqrt(-ln(zsmall/a3D))], and its scale is not zero
    when the scale argument was left unset.  So, unless
    [width = - wavelength], evaluating it on sequences of equal length
    always returns.  For a slump the wavelength is positive and the offset
    non-negative. *)
Theorem returned_evaluator_well_formed :
  (forall (a : Slide.args) (dg : Double_gaussian.t),
     slide_tsunami a = Ok dg ->
     Double_gaussian.wavelength dg <> 0
     /\ dx_precondition (Double_gaussian.a3D dg) (Slide.zsmall a)
     /\ Double_gaussian.dx dg
        = dx_formula (Double_gaussian.wavelength dg) (Double_gaussian.a3D dg)
            (Slide.zsmall a)
     /\ (Slide.scale a = None -> Double_gaussian.scale dg <> 0)
     /\ (Double_gaussian.width dg + Double_gaussian.wavelength dg <> 0 ->
         forall x y, List.length x = List.length y ->
           exists z, Double_gaussian.call dg x y = Ok z))
  /\ (forall (a : Slump.args) (dg : Double_gaussian.t),
        slump_tsunami a = Ok dg ->
        0 < Double_gaussian.wavelength dg
        /\ dx_precondition (Double_gaussian.a3D dg) (Slump.zsmall a)
        /\ Double_gaussian.dx dg
           = dx_formula (Double_gaussian.wavelength dg)
               (Double_gaussian.a3D dg) (Slump.zsmall a)
        /\ 0 <= Double_gaussian.dx dg
        /\ (Slump.scale a = None -> Double_gaussian.scale dg <> 0)
        /\ (Double_gaussian.width dg + Double_gaussian.wavelength dg <> 0 ->
            forall x y, List.length x = List.length y ->
              exists z, Double_gaussian.call dg x y = Ok z)).
Proof.
  split; intros a dg H.
  - unfold slide_tsunami in H. cbv zeta in H.
    bind_ok H as d Hd.
    apply calibration_tail_well_formed in H
      as (Ea & Ew & Hw & Hpre & Edx & Hsc).
    rewrite Ea, Ew.
    repeat (split; [assumption |]).
    intros Hsum x y Hlen. apply call_total; rewrite ?Ew; assumption.
  - unfold slump_tsunami in H. cbv zeta in H.
    bind_ok H as d Hd.
    apply calibration_tail_well_formed in H
      as (Ea & Ew & Hw & Hpre & Edx & Hsc).
    destruct (slump_derive_inv a d Hd)
      as (_ & _ & _ & _ & Et0 & Ht0 & _ & Ewd & _).
    assert (Hpos : 0 < Slump.d_w d).
    { pose proof (sqrt_pos (Slump.gravity a * Slump.depth a)) as H1.
      assert (H0 : 0 <= Slump.d_t0 d) by (rewrite Et0; apply sqrt_pos).
      assert (0 <= Slump.d_w d)
        by (rewrite Ewd; apply Rmult_le_pos; assumption).
      lra. }
    rewrite Ea, Ew.
    split; [exact Hpos |]. split; [exact Hpre |]. split; [exact Edx |].
    split.
    + rewrite Edx. unfold dx_formula.
      pose proof (sqrt_pos (- ln (Slump.zsmall a / Slump.d_a3D d))). nra.
    + split; [exact Hsc |].
      intros Hsum x y Hlen. apply call_total; rewrite ?Ew; assumption.
Qed.

Lemma returned_evaluator_well_formed_witness :
  0 < Double_gaussian.wavelength steep_slump_evaluator
  /\ dx_precondition (Double_gaussian.a3D steep_slump_evaluator)
       (Slump.zsmall steep_slump).
Proof.
  destruct (proj2 returned_evaluator_well_formed steep_slump
              steep_slump_evaluator steep_slump_result) as (H1 & H2 & _).
  split; [exact H1 | exact H2].
Defined.

(** *** A supplied scale *)

Lemma calibration_tail_scale
      (a3D_v w width_v x0_v y0_v alpha_v kappa_v kappad_v zsmall_v s : R)
      (checks : result unit) :
  (forall err, checks = Err err -> err = ZeroDivisionError) ->
  let tail := fun scale_arg : option R =>
    (dx <- lobe_offset w a3D_v zsmall_v ;;
     nmin <- find_min x0_v w kappad_v dx ;;
     scale <- match scale_arg with
              | None => py_div a3D_v nmin
              | Some v => Ok v
              end ;;
     _ <- checks ;;
     Double_gaussian.init a3D_v w width_v x0_v y0_v alpha_v kappa_v kappad_v
       zsmall_v (Some dx) scale) in
  (forall dg, tail None = Ok dg -> tail (Some s) = Ok (with_scale dg s))
  /\ (forall err, tail (Some s) = Err err -> tail None = Err err)
  /\ (forall dg', tail (Some s) = Ok dg' ->
        (exists dg, tail None = Ok dg) \/ tail None = Err ZeroDivisionError).
Proof.
  intros Hchecks tail. unfold tail.
  destruct (lobe_offset w a3D_v zsmall_v) as [dx |]; cbn [bind];
    [| repeat split; [discriminate | auto | discriminate]].
  destruct (find_min x0_v w kappad_v dx) as [nmin |]; cbn [bind];
    [| repeat split; [discriminate | auto | discriminate]].
  destruct (py_div a3D_v nmin) as [sc | e0] eqn:Esc; cbn [bind].
  - destruct checks as [[] |]; cbn [bind];
      [| repeat split; [discriminate | auto | discriminate]].
    repeat split; [| discriminate |].
    + intros dg H. injection H as <-. reflexivity.
    + intros dg' _. left. eexists. reflexivity.
  - apply py_div_error in Esc as ->.
    repeat split; [discriminate | |].
    + destruct checks as [[] | e1]; cbn [bind]; [discriminate |].
      intros err H. injection H as <-.
      rewrite (Hchecks e1 eq_refl). reflexivity.
    + intros dg' _. right. reflexivity.
Qed.

(** X22.  Supplying [scale] changes nothing but the [scale] field: if the
    call with the scale unset returns an evaluator, the call with a scale
    [s] returns the same evaluator with [scale = s].  Supplying a scale
    skips no check, since [find_min] is still run: every exception the call
    with a supplied scale raises is raised with the scale unset as well.
    The one thing it avoids is the division [a3D / nmin]: when the call
    with a supplied scale returns, the call with the scale unset returns
    too or raises [ZeroDivisionError]. *)
Theorem supplied_scale_only_sets_scale (s : R) :
  (forall (a : Slide.args),
     (forall dg, slide_tsunami (slide_with_scale a None) = Ok dg ->
        slide_tsunami (slide_with_scale a (Some s)) = Ok (with_scale dg s))
     /\ (forall err, slide_tsunami (slide_with_scale a (Some s)) = Err err ->
           slide_tsunami (slide_with_scale a None) = Err err)
     /\ (forall dg', slide_tsunami (slide_with_scale a (Some s)) = Ok dg' ->
           (exists dg, slide_tsunami (slide_with_scale a None) = Ok dg)
           \/ slide_tsunami (slide_with_scale a None) = Err ZeroDivisionError))
  /\ (forall (a : Slump.args),
        (forall dg, slump_tsunami (slump_with_scale a None) = Ok dg ->
           slump_tsunami (slump_with_scale a (Some s)) = Ok (with_scale dg s))
        /\ (forall err, slump_tsunami (slump_with_scale a (Some s)) = Err err ->
              slump_tsunami (slump_with_scale a None) = Err err)
        /\ (forall dg', slump_tsunami (slump_with_scale a (Some s)) = Ok dg' ->
              (exists dg, slump_tsunami (slump_with_scale a None) = Ok dg)
              \/ slump_tsunami (slump_with_scale a None)
                 = Err ZeroDivisionError)).
Proof.
  split; intros a.
  - unfold slide_tsunami. cbv zeta.
    change (Slide.derive (slide_with_scale a (Some s))) with (Slide.derive a).
    change (Slide.derive (slide_with_scale a None)) with (Slide.derive a).
    destruct (Slide.derive a) as [d |]; cbn [bind];
      [| repeat split; [discriminate | auto | discriminate]].
    apply (calibration_tail_scale (Slide.d_a3D d) (Slide.d_w d)
             (Slide.width_val a) (Slide.x0_rel a) (Slide.y0_rel a)
             (Slide.alpha a) (Slide.kappa a) (Slide.kappad a) (Slide.zsmall a)
             s (Slide.range_checks a)).
    apply slide_range_checks_error.
  - unfold slump_tsunami. cbv zeta.
    change (Slump.derive (slump_with_scale a (Some s))) with (Slump.derive a).
    change (Slump.derive (slump_with_scale a None)) with (Slump.derive a).
    destruct (Slump.derive a) as [d |]; cbn [bind];
      [| repeat split; [discriminate | auto | discriminate]].
    apply (calibration_tail_scale (Slump.d_a3D d) (Slump.d_w d)
             (Slump.width_val a) (Slump.x0_rel a) (Slump.y0_rel a)
             (Slump.alpha a) (Slump.kappa a) (Slump.kappad a) (Slump.zsmall a)
             s (Slump.range_checks a (Slump.d_radius d))).
    apply slump_range_checks_error.
Qed.

Lemma supplied_scale_only_sets_scale_witness :
  slump_tsunami (slump_with_scale steep_slump (Some 1))
  = Ok (with_scale steep_slump_evaluator 1).
Proof.
  exact (proj1 (proj2 (supplied_scale_only_sets_scale 1) steep_slump)
           steep_slump_evaluator steep_slump_result).
Defined.
